(** * Surface and volume utilities of cortex/utils.py

    A shallow embedding of the numerical core of [cortex/utils.py]
    (distance field, ROI rasteriser, curvature smoother, flat-map distortion,
    Tissot sampler) together with the properties stated about it.

    Conventions.
    - numpy float arrays are lists of real numbers: floating point is
      idealised as exact real arithmetic.  Where the source relies on the
      IEEE special values (division by a zero area), the values are
      [xfloat]: a real, an infinity or NaN.
    - integer index arrays are [list nat]; dicts and sets are stdpp's
      [gmap] and [gset].
    - a Python exception is the left injection of [result]. *)

From Stdlib Require Import Reals Lra Lia ZArith List String Ascii.
From stdpp Require Import gmap strings list fin_maps.

(** ** Exceptions *)

Module Py.

Inductive exn : Set :=
| IndexError    (* an index outside an array *)
| ValueError    (* operands of different shapes *)
| KeyError      (* a key a dict does not hold *)
| LookupFailure (* an ROI name the ROI pack does not hold *)
| LinAlgError   (* a singular matrix given to np.linalg.inv *).

Definition result (A : Type) : Type := sum exn A.

Definition ok {A} (a : A) : result A := inr a.
Definition raise {A} (e : exn) : result A := inl e.

Definition bind {A B} (m : result A) (k : A -> result B) : result B :=
  match m with
  | inl e => inl e
  | inr a => k a
  end.

(** [a[i]] on an array: IndexError outside it. *)
Definition getitem {A} (l : list A) (i : nat) : result A :=
  match l !! i with
  | Some x => ok x
  | None => raise IndexError
  end.

(** The loop [for x in l: acc = f acc x], stopping at the first exception. *)
Fixpoint foldM {A B} (f : B -> A -> result B) (l : list A) (acc : B) : result B :=
  match l with
  | [] => ok acc
  | x :: l' => bind (f acc x) (foldM f l')
  end.

(** The comprehension [[f x for x in l]]. *)
Fixpoint forM {A B} (f : A -> result B) (l : list A) : result (list B) :=
  match l with
  | [] => ok []
  | x :: l' => bind (f x) (fun y => bind (forM f l') (fun ys => ok (y :: ys)))
  end.

End Py.

Notation "'let*' x ':=' e 'in' k" := (Py.bind e (fun x => k))
  (at level 10, x pattern, e at level 100, k at level 200).

(** ** Triangle meshes *)

Module Mesh.

(** A vertex position: a row of an (n,3) float array. *)
Definition vec3 : Type := R * R * R.

Definition origin : vec3 := (0, 0, 0)%R.

(** A triangle: a row of an (m,3) integer array. *)
Definition tri : Type := nat * nat * nat.

Definition corners (t : tri) : list nat :=
  let '(a, b, c) := t in [a; b; c].

(** [tris.ravel()] *)
Definition ravel (tris : list tri) : list nat := flat_map corners tris.

(** A triangle that names the vertex [a] at two of its corners. *)
Definition degenerate_at (t : tri) (a : nat) : Prop :=
  let '(x, y, z) := t in (x = a /\ y = a) \/ (y = a /\ z = a) \/ (x = a /\ z = a).

Definition vsub (p q : vec3) : vec3 :=
  let '(px, py, pz) := p in let '(qx, qy, qz) := q in
  (px - qx, py - qy, pz - qz)%R.

(** [(v**2).sum()] *)
Definition sqnorm (v : vec3) : R :=
  let '(x, y, z) := v in (x * x + y * y + z * z)%R.

(** [np.sqrt(((p - q)**2).sum())]: the Euclidean distance. *)
Definition dist (p q : vec3) : R := sqrt (sqnorm (vsub p q)).

(** [arr.sum()] on a float array. *)
Definition Rsum (l : list R) : R := fold_right Rplus 0%R l.

End Mesh.

(** ** Adjacency structures built from a triangle list *)

Module SurfaceGraph.
Import Mesh.

(** [iter_surfedges]: the three edges of every triangle, in order. *)
Definition iter_surfedges (tris : list tri) : list (nat * nat) :=
  flat_map (fun t : tri => let '(a, b, c) := t in [(a, b); (b, c); (a, c)]) tris.

(** The adjacency of a networkx [Graph]: node -> neighbours (the edge
    attribute dicts, always empty here, are dropped). *)
Definition add_node (n : nat) (g : gmap nat (gset nat)) : gmap nat (gset nat) :=
  match g !! n with
  | Some _ => g
  | None => <[n := ∅]> g
  end.

(** [Graph.add_edge]: both end points become nodes and each is entered in
    the neighbour dict of the other. *)
Definition add_edge (g : gmap nat (gset nat)) (e : nat * nat) : gmap nat (gset nat) :=
  let '(u, v) := e in
  let g1 := add_node v (add_node u g) in
  let g2 := <[u := {[v]} ∪ default ∅ (g1 !! u)]> g1 in
  <[v := {[u]} ∪ default ∅ (g2 !! v)]> g2.

Definition add_edges_from (g : gmap nat (gset nat)) (es : list (nat * nat))
  : gmap nat (gset nat) :=
  fold_left add_edge es g.

Definition make_surface_graph (tris : list tri) : gmap nat (gset nat) :=
  add_edges_from ∅ (iter_surfedges tris).

(** The neighbour sets of [get_curvature]:
    [for poly in polys: for pt in poly: faces[pt] |= set(poly)]. *)
Definition add_face_pt (poly : tri) (faces : gmap nat (gset nat)) (pt : nat)
  : gmap nat (gset nat) :=
  <[pt := default ∅ (faces !! pt) ∪ list_to_set (corners poly)]> faces.

Definition add_face (faces : gmap nat (gset nat)) (poly : tri) : gmap nat (gset nat) :=
  fold_left (add_face_pt poly) (corners poly) faces.

Definition build_faces (polys : list tri) : gmap nat (gset nat) :=
  fold_left add_face polys ∅.

(** [b in g[a]] *)
Definition has_edge (g : gmap nat (gset nat)) (a b : nat) : Prop :=
  exists s, g !! a = Some s /\ b ∈ s.

Definition symmetric (g : gmap nat (gset nat)) : Prop :=
  forall a b, has_edge g a b -> has_edge g b a.

Definition loops_only_degenerate (tris : list tri) (g : gmap nat (gset nat)) : Prop :=
  forall a, has_edge g a a -> exists t, t ∈ tris /\ degenerate_at t a.

(** Symmetry and absence of self-loops (degenerate triangles apart), for
    both structures. *)
Definition well_formed_adjacency (tris : list tri) : Prop :=
  symmetric (make_surface_graph tris) /\
  loops_only_degenerate tris (make_surface_graph tris) /\
  symmetric (build_faces tris) /\
  loops_only_degenerate tris (build_faces tris).

End SurfaceGraph.

(** ** Curvature smoother: [get_curvature] *)

Module Curvature.
Import Mesh SurfaceGraph.

(** One hemisphere as [surfs.getVTK] returns it: [hemi[0]] are the vertex
    positions, [hemi[1]] the triangles. *)
Record hemi : Type := { pts : list vec3; polys : list tri }.

(** The generator [getpts(pt, n)]: the values it yields, in order.  The
    sets of [faces] are walked in the order of [elements]. *)
Fixpoint getpts (faces : gmap nat (gset nat)) (n : nat) (pt : nat) : list nat :=
  match faces !! pt with
  | None => []
  | Some s =>
      match n with
      | 0 => elements s
      | S n' => flat_map (getpts faces n') (elements s)
      end
  end.

(** [list(set(getpts(i, neighborhood)))] *)
Definition neighbors_of (faces : gmap nat (gset nat)) (neighborhood i : nat) : list nat :=
  elements (list_to_set (getpts faces neighborhood i) : gset nat).

(** One entry of [np.exp(-(((q - pt)**2) / (2*smooth**2)).sum(1))]. *)
Definition gauss (smooth : R) (pt q : vec3) : R :=
  let '(dx, dy, dz) := vsub q pt in
  exp (- (dx * dx / (2 * (smooth * smooth))
          + dy * dy / (2 * (smooth * smooth))
          + dz * dz / (2 * (smooth * smooth))))%R.

(** The body of the loop over the vertices: the value left in
    [curvature[i]]. *)
Definition smooth_vertex (faces : gmap nat (gset nat)) (h : hemi) (curv : list R)
    (smooth : R) (neighborhood : nat) (i : nat) (pt : vec3) : Py.result R :=
  let neighbors := neighbors_of faces neighborhood i in
  if decide (0 < length neighbors) then
    let* qs := Py.forM (Py.getitem (pts h)) neighbors in
    let g := map (gauss smooth pt) qs in
    let* cs := Py.forM (Py.getitem curv) neighbors in
    Py.ok (Rsum (zip_with Rmult g cs) / INR (length (zip_with Rmult g cs)))%R
  else Py.ok 0%R.

(** The [else] branch for one hemisphere. *)
Definition smooth_hemi (h : hemi) (curv : list R) (smooth : R) (neighborhood : nat)
  : Py.result (list R) :=
  let faces := build_faces (polys h) in
  Py.forM (fun ip : nat * vec3 => smooth_vertex faces h curv smooth neighborhood ip.1 ip.2)
          (imap (fun i pt => (i, pt)) (pts h)).

Section WithEstimator.

(** The mean curvature tvtk computes for a hemisphere, one value per
    vertex: an external estimator. *)
Variable mean_curvature : hemi -> list R.

Definition get_curvature (hemis : list hemi) (smooth : R) (neighborhood : nat)
  : Py.result (list (list R)) :=
  Py.forM (fun h =>
             let curv := mean_curvature h in
             if Req_dec_T smooth 0 then Py.ok curv
             else smooth_hemi h curv smooth neighborhood)
          hemis.

End WithEstimator.

(** Triangle indices are valid into the vertex sequence, and the raw
    curvature has one value per vertex. *)
Definition valid_hemi (h : hemi) (curv : list R) : Prop :=
  (forall t a, t ∈ polys h -> a ∈ corners t -> a < length (pts h)) /\
  length curv = length (pts h).

(** The weight of the neighbour at [q] for the vertex at [pt]:
    exp(-|q - pt|^2 / (2 smooth^2)). *)
Definition weight (smooth : R) (pt q : vec3) : R :=
  exp (- (sqnorm (vsub q pt) / (2 * smooth ^ 2)))%R.

Definition weights (h : hemi) (smooth : R) (pt : vec3) (nbrs : list nat) : list R :=
  map (fun j => weight smooth pt (default origin (pts h !! j))) nbrs.

Definition weighted_values (h : hemi) (curv : list R) (smooth : R) (pt : vec3)
    (nbrs : list nat) : list R :=
  map (fun j => weight smooth pt (default origin (pts h !! j))
                * default 0 (curv !! j))%R nbrs.

(** The Gaussian-weighted average of the raw curvature over the
    neighbourhood: the weighted sum over the sum of the weights. *)
Definition weighted_average (h : hemi) (curv : list R) (smooth : R) (pt : vec3)
    (nbrs : list nat) : R :=
  (Rsum (weighted_values h curv smooth pt nbrs) / Rsum (weights h smooth pt nbrs))%R.

(** The mean of the weighted values: the weighted sum over the number of
    neighbours. *)
Definition mean_of_weighted (h : hemi) (curv : list R) (smooth : R) (pt : vec3)
    (nbrs : list nat) : R :=
  (Rsum (weighted_values h curv smooth pt nbrs) / INR (length nbrs))%R.

(** The smoothed value of vertex [i], given what a non-empty neighbourhood
    receives. *)
Definition smoothed_by (f : hemi -> list R -> R -> vec3 -> list nat -> R)
    (h : hemi) (curv : list R) (smooth : R) (neighborhood : nat)
    (i : nat) (pt : vec3) : R :=
  match neighbors_of (build_faces (polys h)) neighborhood i with
  | [] => 0%R
  | nbrs => f h curv smooth pt nbrs
  end.

(** What the smoother is said to leave in the array of a hemisphere. *)
Definition smoothed_array (f : hemi -> list R -> R -> vec3 -> list nat -> R)
    (h : hemi) (curv : list R) (smooth : R) (neighborhood : nat) (arr : list R) : Prop :=
  length arr = length (pts h) /\
  forall i pt, pts h !! i = Some pt ->
    arr !! i = Some (smoothed_by f h curv smooth neighborhood i pt).

(** [get_curvature] returns one such array per hemisphere. *)
Definition smooths_by (f : hemi -> list R -> R -> vec3 -> list nat -> R)
    (mean_curvature : hemi -> list R) (hemis : list hemi)
    (smooth : R) (neighborhood : nat) : Prop :=
  exists res, get_curvature mean_curvature hemis smooth neighborhood = Py.ok res /\
    Forall2 (fun h arr => smoothed_array f h (mean_curvature h) smooth neighborhood arr)
            hemis res.

(** A flat right triangle with constant raw curvature 1. *)
Definition corner_hemi : hemi :=
  {| pts := [(0, 0, 0); (1, 0, 0); (0, 1, 0)]%R; polys := [(0, 1, 2)] |}.

End Curvature.

(** ** numpy arrays of three axes *)

Module Ndarray.

(** A C-contiguous array of three axes: the flat buffer and the shape.
    [arr.shape = shape] on a flat array only sets the shape. *)
Record t (A : Type) : Type := mk { data : list A; shape : nat * nat * nat }.
Arguments mk {A} _ _.
Arguments data {A} _.
Arguments shape {A} _.

(** The position of the entry [a, b, c] in the buffer. *)
Definition offset (shape : nat * nat * nat) (a b c : nat) : nat :=
  let '(_, s1, s2) := shape in (a * s1 + b) * s2 + c.

Definition in_bounds (shape : nat * nat * nat) (a b c : nat) : bool :=
  let '(s0, s1, s2) := shape in
  bool_decide (a < s0) && bool_decide (b < s1) && bool_decide (c < s2).

(** [arr[a, b, c]] *)
Definition get {A} (arr : t A) (a b c : nat) : option A :=
  if in_bounds (shape arr) a b c then data arr !! offset (shape arr) a b c else None.

(** [np.mgrid[:s0, :s1, :s2].reshape(3, -1).T]: the rows (a, b, c), the
    last axis running fastest. *)
Definition mgrid_rows (shape : nat * nat * nat) : list (nat * nat * nat) :=
  let '(s0, s1, s2) := shape in
  flat_map (fun a => flat_map (fun b => map (fun c => (a, b, c)) (seq 0 s2)) (seq 0 s1))
           (seq 0 s0).

End Ndarray.

(** ** Distance field: [get_vox_dist] *)

Module VoxDist.
Import Mesh.

Definition vec4 : Type := R * R * R * R.

(** A 4x4 matrix, row by row. *)
Definition mat4 : Type := vec4 * vec4 * vec4 * vec4.

Definition dot4 (r w : vec4) : R :=
  let '(r0, r1, r2, r3) := r in let '(w0, w1, w2, w3) := w in
  (r0 * w0 + r1 * w1 + r2 * w2 + r3 * w3)%R.

(** One column of [np.dot(m, widx)[:3]]. *)
Definition dot_first3 (m : mat4) (w : vec4) : vec3 :=
  let '(m0, m1, m2, _) := m in (dot4 m0 w, dot4 m1 w, dot4 m2 w).

(** One column of [np.append(idx[:, ::-1], np.ones((len(idx), 1)), axis=-1).T]:
    the row (a, b, c) reversed, with a 1 appended. *)
Definition widx (i : nat * nat * nat) : vec4 :=
  let '(a, b, c) := i in (INR c, INR b, INR a, 1%R).

Section WithLibraries.

(** [np.linalg.inv] on 4x4 matrices; it raises LinAlgError on a singular
    matrix. *)
Variable linalg_inv : mat4 -> Py.result mat4.

(** [cKDTree(data).query(q)] for one query point: the distance and the
    index of the nearest point of [data]. *)
Variable kd_query : list vec3 -> vec3 -> R * nat.

(** The world coordinate of the voxel [a, b, c]: one row of
    [np.dot(inv, widx)[:3].T]. *)
Definition world (inv : mat4) (i : nat * nat * nat) : vec3 :=
  dot_first3 inv (widx i).

(** [fiducial] is the merged vertex array of [surfs.getVTK], [xfm] the
    transform of [surfs.getXfm], [shape] the reversed shape of the
    reference volume. *)
Definition get_vox_dist (fiducial : list vec3) (xfm : mat4) (shape : nat * nat * nat)
  : Py.result (Ndarray.t R * Ndarray.t nat) :=
  let idx := Ndarray.mgrid_rows shape in
  let* inv := linalg_inv xfm in
  let mm := map (world inv) idx in
  let res := map (kd_query fiducial) mm in
  Py.ok (Ndarray.mk (map fst res) shape, Ndarray.mk (map snd res) shape).

End WithLibraries.

(** *** The quantities the property speaks of, in plain arithmetic *)

(** The Euclidean distance of two points. *)
Definition euclidean (p q : vec3) : R :=
  let '(px, py, pz) := p in let '(qx, qy, qz) := q in
  sqrt ((px - qx) * (px - qx) + (py - qy) * (py - qy) + (pz - qz) * (pz - qz)).

(** The product of a 4x4 matrix and a homogeneous column. *)
Definition apply4 (m : mat4) (v : vec4) : vec4 :=
  let '((a00, a01, a02, a03), (a10, a11, a12, a13),
        (a20, a21, a22, a23), (a30, a31, a32, a33)) := m in
  let '(x, y, z, t) := v in
  (a00 * x + a01 * y + a02 * z + a03 * t,
   a10 * x + a11 * y + a12 * z + a13 * t,
   a20 * x + a21 * y + a22 * z + a23 * t,
   a30 * x + a31 * y + a32 * z + a33 * t)%R.

(** The first three components of a homogeneous column. *)
Definition first3 (v : vec4) : vec3 := let '(x, y, z, _) := v in (x, y, z).

(** The columns of a 4x4 matrix. *)
Definition col4 (m : mat4) (k : nat) : vec4 :=
  let '((a00, a01, a02, a03), (a10, a11, a12, a13),
        (a20, a21, a22, a23), (a30, a31, a32, a33)) := m in
  match k with
  | 0 => (a00, a10, a20, a30)
  | 1 => (a01, a11, a21, a31)
  | 2 => (a02, a12, a22, a32)
  | _ => (a03, a13, a23, a33)
  end.

(** The product of two 4x4 matrices, column by column. *)
Definition mul4 (m n : mat4) : mat4 :=
  let '(x0, y0, z0, t0) := apply4 m (col4 n 0) in
  let '(x1, y1, z1, t1) := apply4 m (col4 n 1) in
  let '(x2, y2, z2, t2) := apply4 m (col4 n 2) in
  let '(x3, y3, z3, t3) := apply4 m (col4 n 3) in
  ((x0, x1, x2, x3), (y0, y1, y2, y3), (z0, z1, z2, z3), (t0, t1, t2, t3)).

Definition identity4 : mat4 :=
  ((1, 0, 0, 0), (0, 1, 0, 0), (0, 0, 1, 0), (0, 0, 0, 1))%R.

(** [n] is the inverse of [m]. *)
Definition is_inverse (m n : mat4) : Prop :=
  mul4 m n = identity4 /\ mul4 n m = identity4.

(** The homogeneous index column of the voxel [a, b, c]: the index
    reversed, with a 1 appended. *)
Definition voxel_column (a b c : nat) : vec4 := (INR c, INR b, INR a, 1%R).

(** [w] is the world coordinate of the voxel [a, b, c] under the affine
    [xfm]: the first three components of the one homogeneous column that
    [xfm] sends to the index column of the voxel. *)
Definition world_coordinate (xfm : mat4) (a b c : nat) (w : vec3) : Prop :=
  exists w4, first3 w4 = w /\
    apply4 xfm w4 = voxel_column a b c /\
    forall v4, apply4 xfm v4 = voxel_column a b c -> v4 = w4.

(** What a nearest-neighbour query returns on a non-empty point set: the
    index of a point of the set, its distance to the query point, and no
    point of the set is nearer. *)
Definition nearest_at (data : list vec3) (q : vec3) (d : R) (i : nat) : Prop :=
  (exists p, data !! i = Some p /\ d = euclidean p q) /\
  (forall j p, data !! j = Some p -> (d <= euclidean p q)%R).

Definition nearest_neighbour_query (query : list vec3 -> vec3 -> R * nat) : Prop :=
  forall data q, data <> [] -> nearest_at data q (query data q).1 (query data q).2.

(** A linear scan: the reference implementation of the query. *)
Fixpoint scan_from (data : list vec3) (q : vec3) (i : nat) (best : R * nat) : R * nat :=
  match data with
  | [] => best
  | p :: data' =>
      scan_from data' q (S i)
                (if Rlt_dec (euclidean p q) best.1 then (euclidean p q, i) else best)
  end.

Definition scan_query (data : list vec3) (q : vec3) : R * nat :=
  match data with
  | [] => (0%R, 0)
  | p :: data' => scan_from data' q 1 (euclidean p q, 0)
  end.

(** The affine that doubles the three axes, and its inverse. *)
Definition double4 : mat4 :=
  ((2, 0, 0, 0), (0, 2, 0, 0), (0, 0, 2, 0), (0, 0, 0, 1))%R.

Definition half4 : mat4 :=
  ((1 / 2, 0, 0, 0), (0, 1 / 2, 0, 0), (0, 0, 1 / 2, 0), (0, 0, 0, 1))%R.

#[local] Instance R_eq_dec : EqDecision R := Req_dec_T.

(** An inverse that knows the doubling affine and the identity, and
    takes every other matrix for singular. *)
Definition table_inv (m : mat4) : Py.result mat4 :=
  if decide (m = double4) then Py.ok half4
  else if decide (m = identity4) then Py.ok identity4
  else Py.raise Py.LinAlgError.

End VoxDist.

(** ** ROI rasteriser: [get_roi_masks] *)

Module RoiMasks.
Import Mesh.

(** [str.lower] on ASCII. *)
Definition lower_ascii (c : ascii) : ascii :=
  let n := nat_of_ascii c in
  if (65 <=? n) && (n <=? 90) then ascii_of_nat (n + 32) else c.

Fixpoint lower (s : string) : string :=
  match s with
  | EmptyString => EmptyString
  | String c s' => String (lower_ascii c) (lower s')
  end.

(** [l.index(x)] when [x in l]. *)
Fixpoint index_of (x : string) (l : list string) : option nat :=
  match l with
  | [] => None
  | y :: l' => if String.eqb y x then Some 0 else S <$> index_of x l'
  end.

(** One hemisphere of the flat surface: [L[0]] the points, [L[1]] the
    triangles. *)
Record flat_hemi : Type := { hemi_pts : list vec3; hemi_polys : list tri }.

(** What the collaborators of [get_roi_masks] return for a subject and a
    transform. *)
Record env : Type := {
  (** [rois.names] *)
  roi_names : list string;
  (** [rois.get_roi(name)]: vertex indices in valid-vertex space *)
  get_roi : string -> Py.result (list nat);
  (** [vertIdx], the valid vertices [get_roipack] returns *)
  vertIdx : list nat;
  (** the reversed shape of the reference volume *)
  shape : nat * nat * nat;
  (** the number of rows of [np.vstack(surfs.getCoords(subject, xfmname))] *)
  ncoords : nat;
  (** [get_vox_dist(subject, xfmname)]: for the voxel at flat position [v],
      the pair of [voxDst] and [voxIdx]; both arrays have the shape above *)
  vox : nat -> R * nat;
  (** [L], the left hemisphere of the flat surface *)
  L : flat_hemi
}.

(** The argument [roiList]: [None], one name, or a list of names. *)
Inductive roi_arg : Type :=
| AllRois
| OneRoi (name : string)
| Rois (names : list string).

Record roi_masks : Type := {
  mask : list Z;               (* the buffer of the int64 array *)
  mask_shape : list nat;       (* its shape *)
  roiIdx : gmap string Z
}.

Definition Rltb (x y : R) : bool := if Rlt_dec x y then true else false.

(** [np.prod(shape)] *)
Definition nvox (e : env) : nat := let '(s0, s1, s2) := shape e in s0 * s1 * s2.

Definition voxDstF (e : env) : list R := map (fun v => (vox e v).1) (seq 0 (nvox e)).
Definition voxIdxF (e : env) : list nat := map (fun v => (vox e v).2) (seq 0 (nvox e)).

(** [nL = len(np.unique(L[1]))] *)
Definition nL (e : env) : nat := size (list_to_set (ravel (hemi_polys (L e))) : gset nat).

(** [Lmask = (voxIdx < nL).flatten()] *)
Definition Lmask (e : env) : list bool := map (fun i => bool_decide (i < nL e)) (voxIdxF e).

(** [Rmask = np.logical_not(Lmask)] *)
Definition Rmask (e : env) : list bool := map negb (Lmask e).

(** [CxMask = (voxDst < Dst).flatten()] *)
Definition CxMask (e : env) (Dst : R) : list bool := map (fun d => Rltb d Dst) (voxDstF e).

(** [a[idx] = True] *)
Definition set_true (idx : list nat) (a : list bool) : Py.result (list bool) :=
  Py.foldM (fun a i => if decide (i < length a) then Py.ok (<[i := true]> a)
                       else Py.raise Py.IndexError) idx a.

(** [a[idx] = vals] for a value array of three entries or more: the
    lengths have to agree. *)
Definition scatter (idx : list nat) (vals : list bool) (a : list bool)
  : Py.result (list bool) :=
  if decide (length idx = length vals) then
    Py.foldM (fun a (iv : nat * bool) =>
                if decide (iv.1 < length a) then Py.ok (<[iv.1 := iv.2]> a)
                else Py.raise Py.IndexError) (zip idx vals) a
  else Py.raise Py.ValueError.

(** [np.nonzero(a)[0]] *)
Definition nonzero (a : list bool) : list nat :=
  filter (fun i => a !! i = Some true) (seq 0 (length a)).

(** [roiIdxB3]: the voxels that are candidates for the ROI [roi]. *)
Definition roi_candidates (e : env) (roi : string) : Py.result (list bool) :=
  if String.eqb (lower roi) "cortex" then Py.ok (replicate (length (Lmask e)) true)
  else
    let nVerts := Nat.max (ncoords e) 3 in
    let nValidVerts := Nat.max (length (vertIdx e)) 3 in
    let* roiIdxS1 := get_roi e roi in
    let* roiIdxB1 := set_true roiIdxS1 (replicate nValidVerts false) in
    let* roiIdxB2 := scatter (vertIdx e) roiIdxB1 (replicate nVerts false) in
    let roiIdxS2 := nonzero roiIdxB2 in
    Py.ok (map (fun i => bool_decide (i ∈ roiIdxS2)) (voxIdxF e)).

(** [tmpMask] is a boolean array of shape (voxels, ROIs, 2): a list of
    rows, one per voxel, each a list over the ROIs of the pair
    (left, right). *)
Definition tmp_mask : Type := list (list (bool * bool)).

(** [np.all(np.array([a, b, c]), axis=0)] *)
Definition all3 (a b c : list bool) : list bool :=
  zip_with (fun x yz => x && yz.1 && yz.2) a (zip b c).

(** [tmpMask[:, ir, 0] = colL; tmpMask[:, ir, 1] = colR] *)
Definition set_columns (ir : nat) (colL colR : list bool) (tmp : tmp_mask) : tmp_mask :=
  zip_with (fun row (lr : bool * bool) => <[ir := lr]> row) tmp (zip colL colR).

(** The first loop: the candidate volume of every (ROI, hemisphere). *)
Definition candidate_masks (e : env) (roiList : list string) (Dst : R)
  : Py.result tmp_mask :=
  Py.foldM (fun tmp (ir_roi : nat * string) =>
              let* roiIdxB3 := roi_candidates e ir_roi.2 in
              Py.ok (set_columns ir_roi.1
                       (all3 roiIdxB3 (Lmask e) (CxMask e Dst))
                       (all3 roiIdxB3 (Rmask e) (CxMask e Dst)) tmp))
           (imap (fun ir roi => (ir, roi)) roiList)
           (replicate (nvox e) (replicate (length roiList) (false, false))).

(** [np.any(tmpMask[v, np.arange(n) != cIdx, h])] for one voxel. *)
Definition any_other (h : bool * bool -> bool) (cIdx : nat) (row : list (bool * bool)) : bool :=
  existsb (fun x => x) (imap (fun ir lr => negb (ir =? cIdx) && h lr) row).

(** "Kill all overlap btw. Cortex and other ROIs": on one voxel. *)
Definition cortex_row (cIdx : nat) (row : list (bool * bool)) : list (bool * bool) :=
  match row !! cIdx with
  | Some (l, r) => <[cIdx := (negb (any_other fst cIdx row) && l,
                              negb (any_other snd cIdx row) && r)]> row
  | None => row
  end.

Definition cortex_precedence (roiList : list string) (tmp : tmp_mask) : tmp_mask :=
  match index_of "cortex" (map lower roiList) with
  | Some cIdx => map (cortex_row cIdx) tmp
  | None => tmp
  end.

(** [np.sum(tmpMask, axis=1)] for one voxel: the numbers of ROIs that
    claim it on the left and on the right. *)
Definition claims (row : list (bool * bool)) : nat * nat :=
  (length (filter (fun lr => lr.1 = true) row), length (filter (fun lr => lr.2 = true) row)).

(** [toCut = np.sum(tmpMask, axis=1) > 1], of shape (voxels, 2). *)
Definition toCut (tmp : tmp_mask) : list (bool * bool) :=
  map (fun row => (1 <? (claims row).1, 1 <? (claims row).2)) tmp.

(** [tmpMask[toCut] = False].  The boolean index has two axes and selects
    along the first two axes of [tmpMask], voxel and ROI: the shapes agree
    only for two ROIs, and then the entry (voxel, k) of the index clears
    [tmpMask[voxel, k, :]]. *)
Definition clear_row (row : list (bool * bool)) (c : bool * bool) : list (bool * bool) :=
  imap (fun k lr => if (k =? 0) && c.1 then (false, false)
                    else if (k =? 1) && c.2 then (false, false) else lr) row.

Definition cut_overlap (nroi : nat) (tmp : tmp_mask) : Py.result tmp_mask :=
  if decide (nroi = 2) then Py.ok (zip_with clear_row tmp (toCut tmp))
  else Py.raise Py.IndexError.

(** [mask[tmpMask[:, ir, 0]] = -ir-1; mask[tmpMask[:, ir, 1]] = ir+1] for
    ir = 0, 1, ...: the value one voxel ends with. *)
Definition assign_row (row : list (bool * bool)) : Z :=
  fold_left (fun (m : Z) (x : nat * (bool * bool)) =>
               let m1 := if x.2.1 then (- Z.of_nat x.1 - 1)%Z else m in
               if x.2.2 then (Z.of_nat x.1 + 1)%Z else m1)
            (imap (fun ir lr => (ir, lr)) row) 0%Z.

(** [roiIdx[roi] = ir+1] for ir = 0, 1, ... *)
Definition number_rois (roiList : list string) : gmap string Z :=
  fold_left (fun (d : gmap string Z) (x : nat * string) => <[x.2 := (Z.of_nat x.1 + 1)%Z]> d)
            (imap (fun ir roi => (ir, roi)) roiList) ∅.

Definition resolve_roiList (e : env) (roiList : roi_arg) : list string :=
  match roiList with
  | AllRois => roi_names e
  | OneRoi name => [name]
  | Rois names => names
  end.

Definition get_roi_masks (e : env) (roiList : roi_arg) (Dst : R) (overlapOpt : string)
  : Py.result roi_masks :=
  (* coords = coords[vertIdx] *)
  let* _ := Py.forM (fun i => if decide (i < ncoords e) then Py.ok i
                              else Py.raise Py.IndexError) (vertIdx e) in
  let roiList := resolve_roiList e roiList in
  let* tmpMask := candidate_masks e roiList Dst in
  let tmpMask := cortex_precedence roiList tmpMask in
  if String.eqb overlapOpt "cut" then
    let* tmpMask := cut_overlap (length roiList) tmpMask in
    let '(s0, s1, s2) := shape e in
    Py.ok {| mask := map assign_row tmpMask;
             mask_shape := [s0; s1; s2];
             roiIdx := number_rois roiList |}
  else
    (* 'split' passes, any other value falls through *)
    Py.ok {| mask := replicate (nvox e) 0%Z;
             mask_shape := [nvox e];
             roiIdx := ∅ |}.

(** The candidate volumes after the cortex step, as the overlap policy
    finds them. *)
Definition candidates_after_precedence (e : env) (roiList : roi_arg) (Dst : R)
  : Py.result tmp_mask :=
  let* _ := Py.forM (fun i => if decide (i < ncoords e) then Py.ok i
                              else Py.raise Py.IndexError) (vertIdx e) in
  let* tmpMask := candidate_masks e (resolve_roiList e roiList) Dst in
  Py.ok (cortex_precedence (resolve_roiList e roiList) tmpMask).

(** An overlap policy other than 'cut' is rejected: the call raises. *)
Definition rejects_other_policies (e : env) (roiList : roi_arg) (Dst : R)
    (overlapOpt : string) : Prop :=
  overlapOpt <> "cut"%string ->
  exists err, get_roi_masks e roiList Dst overlapOpt = Py.raise err.

(** A one-voxel volume whose voxel lies 1 mm from vertex 0 of the left
    hemisphere; the ROIs "V1" and "V2" both hold vertex 0. *)
Definition overlap_env : env :=
  {| roi_names := ["V1"; "V2"]%string;
     get_roi := fun name =>
       if String.eqb name "V1" then Py.ok [0]
       else if String.eqb name "V2" then Py.ok [0]
       else Py.raise Py.LookupFailure;
     vertIdx := [0; 1; 2];
     shape := (1, 1, 1);
     ncoords := 3;
     vox := fun _ => (1%R, 0);
     L := {| hemi_pts := [(0, 0, 0); (1, 0, 0); (0, 1, 0)]%R;
             hemi_polys := [(0, 1, 2)] |} |}.

(** Two hemispheres of four vertices each, the last vertex of each on the
    medial wall (in no flat triangle); the voxel is nearest to vertex 3,
    the medial-wall vertex of the left hemisphere. *)
Definition medial_env : env :=
  {| roi_names := ["V1"]%string;
     get_roi := fun name =>
       if String.eqb name "V1" then Py.ok [0] else Py.raise Py.LookupFailure;
     vertIdx := [0; 1; 2; 4; 5; 6];
     shape := (1, 1, 1);
     ncoords := 8;
     vox := fun _ => (1%R, 3);
     L := {| hemi_pts := [(0, 0, 0); (1, 0, 0); (0, 1, 0); (0, 0, 1)]%R;
             hemi_polys := [(0, 1, 2)] |} |}.

End RoiMasks.

(** ** Flat-map distortion: [get_flatmap_distortion], areal mode *)

Module Distortion.
Import Mesh.

(** A float that may be infinite or NaN. *)
Inductive xfloat : Type :=
| Fin (x : R)
| PInf
| NInf
| NaN.

Definition xadd (a b : xfloat) : xfloat :=
  match a, b with
  | NaN, _ | _, NaN => NaN
  | Fin x, Fin y => Fin (x + y)
  | PInf, NInf | NInf, PInf => NaN
  | PInf, _ | _, PInf => PInf
  | NInf, _ | _, NInf => NInf
  end.

(** [x / y] for finite floats, the divisor an area or a count: never
    negative, its zero is +0. *)
Definition fdiv (x y : R) : xfloat :=
  if Req_dec_T y 0 then
    if Rlt_dec 0 x then PInf else if Rlt_dec x 0 then NInf else NaN
  else Fin (x / y).

(** [a / y] for such a divisor. *)
Definition xdiv (a : xfloat) (y : R) : xfloat :=
  match a with
  | Fin x => fdiv x y
  | other => other
  end.

(** The largest finite double. *)
Definition fmax : R := ((2 - / 2 ^ 52) * 2 ^ 1023)%R.

(** [np.nan_to_num]: NaN becomes 0 and the infinities the largest finite
    floats. *)
Definition nan_to_num (a : xfloat) : xfloat :=
  match a with
  | Fin x => Fin x
  | PInf => Fin fmax
  | NInf => Fin (- fmax)
  | NaN => Fin 0
  end.

(** [a[a == 0] = 1] on one entry. *)
Definition zero_to_one (a : xfloat) : xfloat :=
  match a with
  | Fin x => if Req_dec_T x 0 then Fin 1 else Fin x
  | other => other
  end.

(** [np.log] *)
Definition xlog (a : xfloat) : xfloat :=
  match a with
  | Fin x => if Rlt_dec 0 x then Fin (ln x) else if Req_dec_T x 0 then NInf else NaN
  | PInf => PInf
  | NInf => NaN
  | NaN => NaN
  end.

(** [np.cross] *)
Definition cross (u v : vec3) : vec3 :=
  let '(ux, uy, uz) := u in let '(vx, vy, vz) := v in
  (uy * vz - uz * vy, uz * vx - ux * vz, ux * vy - uy * vx)%R.

(** [np.linalg.norm] *)
Definition norm (v : vec3) : R := sqrt (sqnorm v).

(** One hemisphere: the fiducial vertices, the flat vertices and the
    triangles of the flat surface. *)
Record hemi_pair : Type := {
  fidvert : list vec3;
  flatvert : list vec3;
  flattri : list tri
}.

(** [np.linalg.norm(np.cross(a-b, a-c))/2] *)
Definition area (a b c : vec3) : R := (norm (cross (vsub a b) (vsub a c)) / 2)%R.

(** The lambda [triareas(tr, v)]. *)
Definition triareas (tr : list tri) (v : list vec3) : Py.result (list R) :=
  Py.forM (fun t : tri =>
             let '(i, j, k) := t in
             let* a := Py.getitem v i in
             let* b := Py.getitem v j in
             let* c := Py.getitem v k in
             Py.ok (area a b c)) tr.

(** The entry [k] of a row of the triangle array. *)
Definition corner (k : nat) (t : tri) : nat :=
  let '(a, b, c) := t in match k with 0 => a | 1 => b | _ => c end.

(** The columns [tr[:,0]], [tr[:,1]], [tr[:,2]]. *)
Definition column (k : nat) (tr : list tri) : list nat := map (corner k) tr.

(** [arr[idx] += vals]: numpy reads [arr[idx]], adds, and writes the sums
    back one index after the other; an index that occurs twice keeps the
    sum written last. *)
Definition iadd_at (arr : list xfloat) (idx : list nat) (vals : list xfloat)
  : Py.result (list xfloat) :=
  let* old := Py.forM (Py.getitem arr) idx in
  Py.ok (fold_left (fun a (ix : nat * xfloat) => <[ix.1 := ix.2]> a)
                   (zip idx (zip_with xadd old vals)) arr).

(** [np.bincount] *)
Definition bincount (l : list nat) : list nat :=
  match l with
  | [] => []
  | _ => map (fun i => length (filter (fun j => j = i) l)) (seq 0 (S (max_list l)))
  end.

(** [arr /= counts]: the counts have the length of [arr], or length 1. *)
Definition idiv_counts (arr : list xfloat) (counts : list nat) : Py.result (list xfloat) :=
  if decide (length counts = length arr) then
    Py.ok (zip_with (fun a c => xdiv a (INR c)) arr counts)
  else
    match counts with
    | [c] => Py.ok (map (fun a => xdiv a (INR c)) arr)
    | _ => Py.raise Py.ValueError
    end.

(** The areal branch, for one hemisphere. *)
Definition areal_distortion (h : hemi_pair) : Py.result (list xfloat) :=
  let* fidareas := triareas (flattri h) (fidvert h) in
  let* flatareas := triareas (flattri h) (flatvert h) in
  let ratios := zip_with fdiv flatareas fidareas in
  let vertratios := replicate (length (fidvert h)) (Fin 0) in
  let* vertratios := iadd_at vertratios (column 0 (flattri h)) ratios in
  let* vertratios := iadd_at vertratios (column 1 (flattri h)) ratios in
  let* vertratios := iadd_at vertratios (column 2 (flattri h)) ratios in
  let* vertratios := idiv_counts vertratios (bincount (ravel (flattri h))) in
  let vertratios := map nan_to_num vertratios in
  let vertratios := map zero_to_one vertratios in
  Py.ok (map xlog vertratios).

(** The metric branch, for one hemisphere: for every vertex of a triangle
    the mean over its graph neighbours of flat distance minus fiducial
    distance. *)
Definition neighbor_dists (verts : list vec3) (G : gmap nat (gset nat)) (ii : nat)
  : Py.result (list R) :=
  match G !! ii with
  | Some nbrs =>
      let* qs := Py.forM (Py.getitem verts) (elements nbrs) in
      let* p := Py.getitem verts ii in
      Py.ok (map (fun q => dist q p) qs)
  | None => Py.raise Py.KeyError
  end.

Definition metric_distortion (h : hemi_pair) : Py.result (list xfloat) :=
  let G := SurfaceGraph.make_surface_graph (flattri h) in
  let selverts := elements (list_to_set (ravel (flattri h)) : gset nat) in
  let* fid_dists := Py.forM (neighbor_dists (fidvert h) G) selverts in
  let* flat_dists := Py.forM (neighbor_dists (flatvert h) G) selverts in
  let msdists :=
    zip_with (fun fi fl => fdiv (Rsum (zip_with Rminus fl fi))
                                (INR (length (zip_with Rminus fl fi))))
             fid_dists flat_dists in
  Py.foldM (fun (a : list xfloat) (vm : nat * xfloat) =>
              if decide (vm.1 < length a) then Py.ok (<[vm.1 := vm.2]> a)
              else Py.raise Py.IndexError)
           (zip selverts msdists) (replicate (length (fidvert h)) (Fin 0)).

(** [get_flatmap_distortion(sub, type)]: one array for "lh" and one for
    "rh"; a type that is neither 'areal' nor 'metric' appends nothing. *)
Definition get_flatmap_distortion (lh rh : hemi_pair) (type : string)
  : Py.result (list (list xfloat)) :=
  if String.eqb type "areal" then Py.forM areal_distortion [lh; rh]
  else if String.eqb type "metric" then Py.forM metric_distortion [lh; rh]
  else Py.ok [].

(** *** The quantities the properties speak of *)

Definition vertex (v : list vec3) (i : nat) : vec3 := default origin (v !! i).

(** The area of the triangle [t] on the vertices [v]. *)
Definition tri_area (v : list vec3) (t : tri) : R :=
  let '(i, j, k) := t in area (vertex v i) (vertex v j) (vertex v k).

(** flat area over fiducial area, for one triangle *)
Definition tri_ratio (h : hemi_pair) (t : tri) : xfloat :=
  fdiv (tri_area (flatvert h) t) (tri_area (fidvert h) t).

(** Triangle indices are valid into both vertex arrays, which have one
    length, and the last vertex is named by a triangle. *)
Definition valid_pair (h : hemi_pair) : Prop :=
  length (flatvert h) = length (fidvert h) /\
  (forall a, a ∈ ravel (flattri h) -> a < length (fidvert h)) /\
  length (bincount (ravel (flattri h))) = length (fidvert h).


(** The ratios of the triangles that name [v] at corner [k]. *)
Definition corner_ratios (h : hemi_pair) (k : nat) (v : nat) : list xfloat :=
  map (tri_ratio h) (filter (fun t => corner k t = v) (flattri h)).

(** The number of corners at which triangles name [v]. *)
Definition corner_count (h : hemi_pair) (v : nat) : nat :=
  length (filter (fun j => j = v) (ravel (flattri h))).

Definition xsum (l : list xfloat) : xfloat := fold_left xadd l (Fin 0).

(** The log as the source takes it: NaN and zero replaced by 1, an
    infinity by the largest finite float. *)
Definition log_ratio (a : xfloat) : xfloat := xlog (zero_to_one (nan_to_num a)).



(** Every vertex holds distortion 0. *)
Definition zero_array (h : hemi_pair) (arr : list xfloat) : Prop :=
  forall v, v < length (fidvert h) -> arr !! v = Some (Fin 0).

(** The call returns, for each hemisphere, an array as [P] describes. *)
Definition areal_returns (P : hemi_pair -> list xfloat -> Prop) (lh rh : hemi_pair) : Prop :=
  exists al ar, get_flatmap_distortion lh rh "areal" = Py.ok [al; ar] /\ P lh al /\ P rh ar.

(** The mean, over the corners at which triangles name [v], of the ratio
    of the triangle. *)
Definition mean_ratio (h : hemi_pair) (v : nat) : xfloat :=
  xdiv (xsum (corner_ratios h 0 v ++ corner_ratios h 1 v ++ corner_ratios h 2 v))
       (INR (corner_count h v)).

(** No column of the triangle array lists [v] twice. *)
Definition once_per_column (h : hemi_pair) (v : nat) : Prop :=
  forall k, length (filter (fun t => corner k t = v) (flattri h)) <= 1.

(** What [arr[idx] += vals] adds to an entry whose index has the values
    [l], in order: the last of them. *)
Definition last_add (a : xfloat) (l : list xfloat) : xfloat :=
  match last l with
  | Some x => xadd a x
  | None => a
  end.

(** What the three in-place additions leave at the vertex [v]. *)
Definition written_sum (h : hemi_pair) (v : nat) : xfloat :=
  last_add (last_add (last_add (Fin 0) (corner_ratios h 0 v)) (corner_ratios h 1 v))
           (corner_ratios h 2 v).

(** Every vertex of a triangle that no column lists twice holds the log
    of the mean ratio. *)
Definition log_mean_ratio_array (h : hemi_pair) (arr : list xfloat) : Prop :=
  length arr = length (fidvert h) /\
  forall v, v ∈ ravel (flattri h) -> once_per_column h v ->
    arr !! v = Some (log_ratio (mean_ratio h v)).

(** Every triangle has the same, non-zero, area on both surfaces. *)
Definition isometric (h : hemi_pair) : Prop :=
  forall t, t ∈ flattri h ->
    tri_area (flatvert h) t = tri_area (fidvert h) t /\ tri_area (fidvert h) t <> 0%R.


(** The unit square cut along a diagonal, flat map the identity. *)
Definition square_pair : hemi_pair :=
  {| fidvert := [(0, 0, 0); (1, 0, 0); (1, 1, 0); (0, 1, 0)]%R;
     flatvert := [(0, 0, 0); (1, 0, 0); (1, 1, 0); (0, 1, 0)]%R;
     flattri := [(0, 1, 2); (0, 2, 3)] |}.

End Distortion.

(** ** Tissot sampler: [get_tissots_indicatrix] *)

Module Tissot.
Import Mesh SurfaceGraph.

(** One hemisphere of the fiducial surface. *)
Record surface : Type := { fidvert : list vec3; fidtri : list tri }.

(** *** networkx: [single_source_shortest_path] (breadth first, level by
    level, as in networkx 1.x) *)

(** [if w not in paths: paths[w] = paths[v] + [w]; nextlevel[w] = 1] *)
Definition visit_neighbor (v : nat) (st : gmap nat (list nat) * gset nat) (w : nat)
  : gmap nat (list nat) * gset nat :=
  match st.1 !! w with
  | Some _ => st
  | None => (<[w := default [] (st.1 !! v) ++ [w]]> st.1, {[w]} ∪ st.2)
  end.

(** [for w in G[v]: ...]; [G[v]] raises KeyError for a vertex that is not
    a node. The neighbours are walked in the order of [elements], which
    need not be the order of the dict: where several paths have the
    fewest hops, the search may keep another one of them. *)
Definition visit_node (G : gmap nat (gset nat)) (st : gmap nat (list nat) * gset nat)
    (v : nat) : Py.result (gmap nat (list nat) * gset nat) :=
  match G !! v with
  | Some nbrs => Py.ok (fold_left (visit_neighbor v) (elements nbrs) st)
  | None => Py.raise Py.KeyError
  end.

(** At most [n] rounds of [while nextlevel: ...]. *)
Fixpoint bfs_levels (G : gmap nat (gset nat)) (n : nat) (nextlevel : gset nat)
    (paths : gmap nat (list nat)) : Py.result (gmap nat (list nat)) :=
  match n with
  | 0 => Py.ok paths
  | S n' =>
      if decide (nextlevel = ∅) then Py.ok paths
      else
        let* st := Py.foldM (visit_node G) (elements nextlevel) (paths, ∅) in
        bfs_levels G n' st.2 st.1
  end.

(** With a cutoff: 0 returns at once; otherwise the loop breaks after the
    round that takes [level] to [cutoff] (after the first round for a
    negative cutoff). *)
Definition single_source_shortest_path (G : gmap nat (gset nat)) (source : nat) (cutoff : Z)
  : Py.result (gmap nat (list nat)) :=
  if (cutoff =? 0)%Z then Py.ok {[source := [source]]}
  else bfs_levels G (Z.to_nat (Z.max 1 cutoff)) {[source]} {[source := [source]]}.

(** Without a cutoff the loop runs until a level is empty, which takes no
    more rounds than the graph has nodes. *)
Definition all_shortest_paths (G : gmap nat (gset nat)) (source : nat)
  : Py.result (gmap nat (list nat)) :=
  bfs_levels G (S (size G)) {[source]} {[source := [source]]}.

(** *** Path lengths *)

Definition hop_len (verts : list vec3) (ab : nat * nat) : Py.result R :=
  let* pa := Py.getitem verts ab.1 in
  let* pb := Py.getitem verts ab.2 in
  Py.ok (dist pa pb).

(** [get_path_len_mm]: the sum of the world lengths of the hops. *)
Definition get_path_len_mm (path : list nat) (verts : list vec3) : Py.result R :=
  match path with
  | [] => Py.raise Py.ValueError            (* np.vstack of no rows *)
  | [_] => Py.ok 0%R
  | _ =>
      let* hops := Py.forM (hop_len verts) (zip (removelast path) (tail path)) in
      Py.ok (Rsum hops)
  end.

(** [memo_get_path_len_mm] on the reversed path [rp]: [path[-1]] is the
    head of [rp] and [path[:-1]] its tail. *)
Fixpoint memo_len_rev (rp : list nat) (verts : list vec3) (memo : gmap (list nat) R)
  : Py.result (R * gmap (list nat) R) :=
  match rp with
  | [] => Py.raise Py.IndexError
  | [_] => Py.ok (0%R, memo)
  | b :: (a :: _) as rp' =>
      match memo !! rev rp with
      | Some d => Py.ok (d, memo)
      | None =>
          let* lasthoplen := hop_len verts (a, b) in
          let* r := memo_len_rev rp' verts memo in
          let pathlen := (r.1 + lasthoplen)%R in
          Py.ok (pathlen, <[rev rp := pathlen]> r.2)
      end
  end.

Definition memo_get_path_len_mm (path : list nat) (verts : list vec3)
    (memo : gmap (list nat) R) : Py.result (R * gmap (list nat) R) :=
  memo_len_rev (rev path) verts memo.

(** *** The sampling loop *)

Record state : Type := {
  numfails : nat;
  cnum : nat;
  centers : list nat;
  tissot_array : list R
}.

(** The loop over the previous centers: [scrap]. *)
Fixpoint too_close (paths : gmap nat (list nat)) (verts : list vec3) (spacing : Z)
    (cs : list nat) : Py.result bool :=
  match cs with
  | [] => Py.ok false
  | cv :: cs' =>
      match paths !! cv with
      | Some p =>
          let* center_dist := get_path_len_mm p verts in
          if Rlt_dec center_dist (IZR spacing) then Py.ok true
          else too_close paths verts spacing cs'
      | None => too_close paths verts spacing cs'
      end
  end.

(** [distfun] *)
Definition distfun (radius : Z) (d : R) : R := (tanh (IZR radius - d) / 2 + 0.5)%R.

(** The weights of an accepted center: the distances along the paths of
    at most [radius*2] hops, with the memo threaded through, and then
    [tissot_array[verts] += vals] (the indices are the keys of a dict: no
    index occurs twice). *)
Definition paint (s : surface) (G : gmap nat (gset nat)) (radius : Z) (centervert : nat)
    (arr : list R) : Py.result (list R) :=
  let* paths := single_source_shortest_path G centervert (radius * 2) in
  let* dm := Py.foldM (fun (dm : list (nat * R) * gmap (list nat) R) (vp : nat * list nat) =>
                         let* r := memo_get_path_len_mm vp.2 (fidvert s) dm.2 in
                         Py.ok (dm.1 ++ [(vp.1, r.1)], r.2))
                      (map_to_list paths) ([], ∅) in
  Py.foldM (fun (a : list R) (vd : nat * R) =>
              let* old := Py.getitem a vd.1 in
              Py.ok (<[vd.1 := (old + distfun radius vd.2)%R]> a))
           dm.1 arr.

(** One round of [while numfails < maxfails], for the vertex that
    [np.random.randint(nvert)] draws. *)
Definition step (s : surface) (radius spacing : Z) (st : state) (centervert : nat)
  : Py.result state :=
  let G := make_surface_graph (fidtri s) in
  let* paths := single_source_shortest_path G centervert (spacing / 2 + 20) in
  let* scrap := too_close paths (fidvert s) spacing (centers st) in
  if scrap then
    Py.ok {| numfails := S (numfails st); cnum := cnum st;
             centers := centers st; tissot_array := tissot_array st |}
  else
    let* arr := paint s G radius centervert (tissot_array st) in
    Py.ok {| numfails := 0; cnum := S (cnum st);
             centers := centers st ++ [centervert]; tissot_array := arr |}.

Definition init (s : surface) : state :=
  {| numfails := 0; cnum := 0; centers := [];
     tissot_array := replicate (length (fidvert s)) 0%R |}.

(** The loop on the vertices drawn, in order: the state it has reached
    when it leaves, or when the draws are used up. *)
Fixpoint run (s : surface) (radius spacing : Z) (maxfails : nat) (draws : list nat)
    (st : state) : Py.result state :=
  match draws with
  | [] => Py.ok st
  | centervert :: draws' =>
      if decide (numfails st < maxfails) then
        let* st' := step s radius spacing st centervert in
        run s radius spacing maxfails draws' st'
      else Py.ok st
  end.

(** The body of [for hem in ["lh", "rh"]]: the sampling of one
    hemisphere. *)
Definition sample_hemi (s : surface) (radius spacing : Z) (maxfails : nat)
    (draws : list nat) : Py.result state :=
  run s radius spacing maxfails draws (init s).

(** [get_tissots_indicatrix]: the arrays and the centers of the two
    hemispheres. *)
Definition get_tissots_indicatrix (lh rh : surface) (radius spacing : Z) (maxfails : nat)
    (draws_lh draws_rh : list nat) : Py.result (list (list R) * list (list nat)) :=
  let* l := sample_hemi lh radius spacing maxfails draws_lh in
  let* r := sample_hemi rh radius spacing maxfails draws_rh in
  Py.ok ([tissot_array l; tissot_array r], [centers l; centers r]).

(** *** Separation of the centers *)

(** No two centers are nearer than [spacing] along the shortest path
    networkx finds from one to the other. *)
Definition well_separated (s : surface) (spacing : Z) (cs : list nat) : Prop :=
  forall i j ci cj paths p d,
    i <> j -> cs !! i = Some ci -> cs !! j = Some cj ->
    all_shortest_paths (make_surface_graph (fidtri s)) cj = Py.ok paths ->
    paths !! ci = Some p ->
    get_path_len_mm p (fidvert s) = Py.ok d ->
    (IZR spacing <= d)%R.

(** No center is nearer than [spacing] to an earlier center that the
    search of [spacing/2 + 20] hops from it reaches, along the path the
    search finds. *)
Definition separated_within_cutoff (s : surface) (spacing : Z) (cs : list nat) : Prop :=
  forall i j ci cj paths p d,
    i < j -> cs !! i = Some ci -> cs !! j = Some cj ->
    single_source_shortest_path (make_surface_graph (fidtri s)) cj (spacing / 2 + 20)
      = Py.ok paths ->
    paths !! ci = Some p ->
    get_path_len_mm p (fidvert s) = Py.ok d ->
    (IZR spacing <= d)%R.

(** At every point of the loop, the centers accepted so far are well
    separated. *)
Definition centers_always_separated (s : surface) (radius spacing : Z) (maxfails : nat)
  : Prop :=
  forall draws st,
    sample_hemi s radius spacing maxfails draws = Py.ok st ->
    well_separated s spacing (centers st).

(** The centers a run has accepted, if it raised nothing. *)
Definition centers_of (r : Py.result state) : option (list nat) :=
  match r with
  | inr st => Some (centers st)
  | inl _ => None
  end.

(** The path found to [target], if any. *)
Definition path_to (r : Py.result (gmap nat (list nat))) (target : nat) : option (list nat) :=
  match r with
  | inr paths => paths !! target
  | inl _ => None
  end.

(** A strip of 91 triangles on 93 vertices: the vertices are 0.5 mm apart
    along x and zigzag by 0.5 mm in y, so that the edge from vertex i to
    vertex i+2 is 1 mm long. *)
Definition strip_vertex (i : nat) : vec3 :=
  (INR i / 2, INR (i mod 2) / 2, 0)%R.

Definition strip : surface :=
  {| fidvert := map strip_vertex (seq 0 93);
     fidtri := map (fun i => (i, S i, S (S i))) (seq 0 91) |}.

(** One triangle with two sides of 100 mm: every vertex is one hop from
    the other two. *)
Definition wide : surface :=
  {| fidvert := [(0, 0, 0); (100, 0, 0); (0, 100, 0)]%R;
     fidtri := [(0, 1, 2)] |}.

(** The path 92, 90, ..., 2, 0 along the strip: 46 hops of 1 mm. *)
Definition strip_path : list nat := map (fun k => 92 - 2 * k) (seq 0 47).

End Tissot.

(** ** [unmask] *)

Module Unmask.

Section WithDtype.

(** The dtype of [data] and its zero. *)
Context {A : Type} (zero : A).

(** A [data] array of one axis, or of two axes (a list of rows of one
    length). *)
Inductive array : Type :=
| Arr1 (l : list A)
| Arr2 (rows : list (list A)).

(** [a[sel]] for a boolean array [sel] over the buffer of [a]. *)
Fixpoint select (sel : list bool) (a : list A) : list A :=
  match sel, a with
  | true :: sel', x :: a' => x :: select sel' a'
  | false :: sel', _ :: a' => select sel' a'
  | _, _ => []
  end.

(** The number of True entries of [sel]. *)
Definition count_true (sel : list bool) : nat := length (filter (fun b => b = true) sel).

(** [out = np.zeros(...); out[sel] = vals] with as many values as [sel]
    has True entries: the values go to the True positions in order. *)
Fixpoint scatter (sel : list bool) (vals : list A) : list A :=
  match sel with
  | [] => []
  | true :: sel' =>
      match vals with
      | v :: vals' => v :: scatter sel' vals'
      | [] => zero :: scatter sel' []
      end
  | false :: sel' => zero :: scatter sel' vals
  end.

(** [out[sel] = vals] on zeros, with numpy's rule for the number of
    values: as many as True entries, or one value for all of them. *)
Definition assign_masked (sel : list bool) (vals : list A) : Py.result (list A) :=
  if decide (length vals = count_true sel) then Py.ok (scatter sel vals)
  else
    match vals with
    | [x] => Py.ok (scatter sel (replicate (count_true sel) x))
    | _ => Py.raise Py.ValueError
    end.

(** [unmask(mask, data)]; [mask] is the buffer of the mask array, whose
    shape the output (or each of its rows) takes. *)
Definition unmask (mask : list Z) (data : array) : Py.result array :=
  let sel := map (fun m => (0 <? m)%Z) mask in
  match data with
  | Arr2 rows =>
      let* out := Py.forM (assign_masked sel) rows in Py.ok (Arr2 out)
  | Arr1 l =>
      let* out := assign_masked sel l in Py.ok (Arr1 out)
  end.

(** [vol] with the voxels outside the mask set to zero. *)
Definition zero_outside (mask : list Z) (vol : list A) : list A :=
  zip_with (fun m x => if (0 <? m)%Z then x else zero) mask vol.

End WithDtype.

Arguments Arr1 {A} _.
Arguments Arr2 {A} _.

End Unmask.

(** ** [get_roi_verts] *)

Module RoiVerts.
Import RoiMasks.

(** [get_roi_verts(subject, roi)]: the dict name -> vertices of the ROIs
    asked for; [e] holds what [get_roipack(subject)] returns. *)
Definition get_roi_verts (e : env) (roi : roi_arg) : Py.result (gmap string (list nat)) :=
  Py.foldM (fun (roidict : gmap string (list nat)) name =>
              let* verts := get_roi e name in
              Py.ok (<[name := verts]> roidict))
           (resolve_roiList e roi) ∅.

End RoiVerts.

(** ** Invariants of the candidate volumes of [get_roi_masks] *)

Module RoiRows.
Import RoiMasks.

(** Every (ROI, hemisphere) entry of the row of voxel [v] that is set lies
    in the mask of its hemisphere and in the cortex-distance mask. *)
Definition within (e : env) (Dst : R) (v : nat) (row : list (bool * bool)) : Prop :=
  forall lr, lr ∈ row ->
    (lr.1 = true -> Lmask e !! v = Some true /\ CxMask e Dst !! v = Some true) /\
    (lr.2 = true -> Rmask e !! v = Some true /\ CxMask e Dst !! v = Some true).

(** [tmpMask] has one row per voxel, each with one entry per ROI, all
    within the masks. *)
Definition rows_within (e : env) (Dst : R) (nroi : nat) (tmp : tmp_mask) : Prop :=
  length tmp = nvox e /\
  forall v row, tmp !! v = Some row -> length row = nroi /\ within e Dst v row.

End RoiRows.

(** ** Inputs for the examples *)

Module Examples.

(** A hemisphere of one vertex whose only triangle names two vertices
    that do not exist. *)
Definition dangling_hemi : Curvature.hemi :=
  {| Curvature.pts := [(0, 0, 0)%R]; Curvature.polys := [(0, 1, 2)] |}.

End Examples.

Module RoiExamples.
Import RoiMasks.

(** What [get_roi_masks] returns on [overlap_env] for the ROIs "V1" and
    "V2" under the policy 'cut', with [Dst = 2] and with [Dst = 1]. *)
Definition overlap_result (m : Z) : roi_masks :=
  {| mask := [m]; mask_shape := [1; 1; 1];
     roiIdx := <["V2"%string := 2%Z]> (<["V1"%string := 1%Z]> ∅) |}.

End RoiExamples.

Module DistortionExamples.
Import Distortion.

(** Every vertex of a triangle that no column lists twice holds 0. *)
Definition zero_where_once (h : hemi_pair) (arr : list xfloat) : Prop :=
  forall v, v ∈ Mesh.ravel (flattri h) -> once_per_column h v -> arr !! v = Some (Fin 0).

(** Every vertex that is in no triangle holds 0. *)
Definition zero_where_untouched (h : hemi_pair) (arr : list xfloat) : Prop :=
  forall v, v < length (fidvert h) -> v ∉ Mesh.ravel (flattri h) -> arr !! v = Some (Fin 0).

(** Four vertices and one triangle that leaves vertex 2 out. *)
Definition gap_pair : hemi_pair :=
  {| fidvert := [(0, 0, 0); (1, 0, 0); (5, 5, 5); (0, 1, 0)]%R;
     flatvert := [(0, 0, 0); (1, 0, 0); (5, 5, 0); (0, 1, 0)]%R;
     flattri := [(0, 1, 3)] |}.

(** Four vertices and one triangle that leaves the last vertex out. *)
Definition trailing_pair : hemi_pair :=
  {| fidvert := [(0, 0, 0); (1, 0, 0); (0, 1, 0); (5, 5, 5)]%R;
     flatvert := [(0, 0, 0); (1, 0, 0); (0, 1, 0); (5, 5, 0)]%R;
     flattri := [(0, 1, 2)] |}.

(** A triangle that names vertices the arrays do not have. *)
Definition dangling_pair : hemi_pair :=
  {| fidvert := [(0, 0, 0)%R]; flatvert := [(0, 0, 0)%R]; flattri := [(0, 1, 2)] |}.

End DistortionExamples.


Module MetricSpec.
Import Mesh Distortion.

(** The mean, over the neighbours [nbrs] of vertex [v], of the flat edge
    length minus the fiducial edge length. *)
Definition mean_stretch (h : hemi_pair) (nbrs : gset nat) (v : nat) : R :=
  (Rsum (map (fun j => dist (vertex (flatvert h) j) (vertex (flatvert h) v)
                       - dist (vertex (fidvert h) j) (vertex (fidvert h) v))
             (elements nbrs))
   / INR (size nbrs))%R.

(** Every triangle corner is a row of both vertex arrays. *)
Definition in_range (h : hemi_pair) : Prop :=
  forall a, a ∈ ravel (flattri h) ->
    a < length (fidvert h) /\ a < length (flatvert h).

(** Three vertices, one triangle; the flat surface is the fiducial one
    scaled by two. *)
Definition doubled_pair : hemi_pair :=
  {| fidvert := [(0, 0, 0); (1, 0, 0); (0, 1, 0); (7, 7, 7)]%R;
     flatvert := [(0, 0, 0); (2, 0, 0); (0, 2, 0); (9, 9, 0)]%R;
     flattri := [(0, 1, 2)] |}.

(** The same three vertices and triangle for both surfaces. *)
Definition same_pair : hemi_pair :=
  {| fidvert := [(0, 0, 0); (1, 0, 0); (0, 1, 0); (7, 7, 7)]%R;
     flatvert := [(0, 0, 0); (1, 0, 0); (0, 1, 0); (7, 7, 7)]%R;
     flattri := [(0, 1, 2)] |}.

End MetricSpec.

Module Paths.
Import Mesh SurfaceGraph.

(** [p] walks from [source] to [w] along edges of [G]. *)
Definition is_path (G : gmap nat (gset nat)) (source w : nat) (p : list nat) : Prop :=
  head p = Some source /\ last p = Some w /\
  forall i a b, p !! i = Some a -> p !! S i = Some b -> has_edge G a b.

(** Every entry of [paths] is a walk from the source on at most [k]
    vertices. *)
Definition good (G : gmap nat (gset nat)) (source : nat) (k : nat)
    (paths : gmap nat (list nat)) : Prop :=
  forall w p, paths !! w = Some p -> is_path G source w p /\ length p <= k.

(** The state of a round of the search that started from [paths0]: the
    entries of [paths0] are kept, and the next level has entries. *)
Definition round_inv (G : gmap nat (gset nat)) (source : nat) (k : nat)
    (paths0 : gmap nat (list nat)) (st : gmap nat (list nat) * gset nat) : Prop :=
  good G source (S k) st.1 /\
  (forall x q, paths0 !! x = Some q -> st.1 !! x = Some q) /\
  (forall x, x ∈ st.2 -> is_Some (st.1 !! x)).

(** The graph of a single triangle. *)
Definition triangle_graph : gmap nat (gset nat) := make_surface_graph [(0, 1, 2)].

End Paths.

Module Memo.
Import Mesh Tissot.

(** Every entry of the memo holds the length [get_path_len_mm] gives its
    key. *)
Definition consistent (verts : list vec3) (memo : gmap (list nat) R) : Prop :=
  forall q d, memo !! q = Some d -> get_path_len_mm q verts = Py.ok d.

(** What the memoised length has to do with the plain one: the same
    length and a memo that is still consistent, or the same exception. *)
Definition agrees (verts : list vec3) (p : list nat)
    (r : Py.result (R * gmap (list nat) R)) : Prop :=
  match r with
  | inr dm => get_path_len_mm p verts = Py.ok dm.1 /\ consistent verts dm.2
  | inl e => get_path_len_mm p verts = Py.raise e
  end.

End Memo.

Module Dilate.
Import Mesh SurfaceGraph.

(** [for v in outset: newset.update(graph[v].keys())], with [newset]
    starting as a copy of [outset]; [graph[v]] raises KeyError for a
    vertex that is not a node. *)
Definition dilate_round (graph : gmap nat (gset nat)) (outset : gset nat)
  : Py.result (gset nat) :=
  Py.foldM (fun (newset : gset nat) (v : nat) =>
              match graph !! v with
              | Some nbrs => Py.ok (newset ∪ nbrs)
              | None => Py.raise Py.KeyError
              end)
           (elements outset) outset.

(** [for ii in range(iters): ...] *)
Fixpoint dilate_loop (graph : gmap nat (gset nat)) (iters : nat) (outset : gset nat)
  : Py.result (gset nat) :=
  match iters with
  | 0 => Py.ok outset
  | S n =>
      let* newset := dilate_round graph outset in
      dilate_loop graph n newset
  end.

(** [dilate_vertset(vset, graph, iters)] *)
Definition dilate_vertset (vset : gset nat) (graph : gmap nat (gset nat)) (iters : nat)
  : Py.result (gset nat) :=
  dilate_loop graph iters vset.

(** [w] is reached from [v] by at most [n] edges of the graph. *)
Fixpoint within_hops (graph : gmap nat (gset nat)) (n : nat) (v w : nat) : Prop :=
  match n with
  | 0 => v = w
  | S n' => exists u, (u = v \/ has_edge graph v u) /\ within_hops graph n' u w
  end.

End Dilate.

Module TissotExamples.
Import Tissot.

(** One triangle and a fourth vertex that is in no triangle. *)
Definition lonely : surface :=
  {| fidvert := [(0, 0, 0); (1, 0, 0); (0, 1, 0); (5, 5, 5)]%R;
     fidtri := [(0, 1, 2)] |}.

End TissotExamples.
(* ===================================================================== *)
(** * Properties *)
(* ===================================================================== *)

Section SurfaceGraphFacts.
Import Mesh SurfaceGraph.

Lemma has_edge_add_node n g a b :
  has_edge (add_node n g) a b <-> has_edge g a b.
Proof.
  unfold add_node, has_edge. destruct (g !! n) eqn:E; [done|].
  split; intros (s & Hs & Hb).
  - destruct (decide (n = a)) as [->|Hne].
    + rewrite lookup_insert_eq in Hs. simplify_eq. set_solver.
    + rewrite lookup_insert_ne in Hs by done. eauto.
  - exists s. split; [|done]. rewrite lookup_insert_ne; [done|]. congruence.
Qed.

Lemma has_edge_insert_union u w g a b :
  has_edge (<[u := {[w]} ∪ default ∅ (g !! u)]> g) a b <->
  has_edge g a b \/ (a = u /\ b = w).
Proof.
  unfold has_edge. split.
  - intros (s & Hs & Hb). destruct (decide (u = a)) as [->|Hne].
    + rewrite lookup_insert_eq in Hs. simplify_eq.
      apply elem_of_union in Hb as [Hb|Hb].
      * right. set_solver.
      * left. destruct (g !! a) as [s|] eqn:E; simpl in Hb; [eauto|set_solver].
    + rewrite lookup_insert_ne in Hs by done. eauto.
  - intros [(s & Hs & Hb)|[-> ->]].
    + destruct (decide (u = a)) as [->|Hne].
      * eexists. rewrite lookup_insert_eq. split; [done|]. rewrite Hs. set_solver.
      * exists s. by rewrite lookup_insert_ne.
    + eexists. rewrite lookup_insert_eq. split; [done|]. set_solver.
Qed.

Lemma has_edge_add_edge g u v a b :
  has_edge (add_edge g (u, v)) a b <->
  has_edge g a b \/ (a = u /\ b = v) \/ (a = v /\ b = u).
Proof.
  unfold add_edge. rewrite !has_edge_insert_union, !has_edge_add_node. tauto.
Qed.

Lemma has_edge_add_edges_from es g a b :
  has_edge (add_edges_from g es) a b <->
  has_edge g a b \/ (a, b) ∈ es \/ (b, a) ∈ es.
Proof.
  unfold add_edges_from. revert g.
  induction es as [|[u v] es IH]; intros g; cbn [fold_left].
  - set_solver.
  - rewrite IH, has_edge_add_edge, !elem_of_cons. split.
    + intros [[H|[[-> ->]|[-> ->]]]|[H|H]]; eauto 6.
    + intros [H|[[H|H]|[H|H]]]; simplify_eq; eauto 6.
Qed.

Lemma has_edge_empty a b : ~ has_edge ∅ a b.
Proof. intros (s & Hs & _). by rewrite lookup_empty in Hs. Qed.

Lemma elem_of_iter_surfedges tris a b :
  (a, b) ∈ iter_surfedges tris <->
  exists x y z, (x, y, z) ∈ tris /\
    ((a = x /\ b = y) \/ (a = y /\ b = z) \/ (a = x /\ b = z)).
Proof.
  unfold iter_surfedges. rewrite list_elem_of_In, in_flat_map. split.
  - intros ([[x y] z] & Hin & He). apply list_elem_of_In in Hin.
    exists x, y, z. split; [done|].
    simpl in He. destruct He as [He|[He|[He|[]]]]; simplify_eq; tauto.
  - intros (x & y & z & Hin & He). exists (x, y, z). split.
    + by apply list_elem_of_In.
    + simpl. destruct He as [[-> ->]|[[-> ->]|[-> ->]]]; tauto.
Qed.

Lemma has_edge_make_surface_graph tris a b :
  has_edge (make_surface_graph tris) a b <->
  (a, b) ∈ iter_surfedges tris \/ (b, a) ∈ iter_surfedges tris.
Proof.
  unfold make_surface_graph. rewrite has_edge_add_edges_from.
  pose proof (has_edge_empty a b). tauto.
Qed.

Lemma make_surface_graph_symmetric tris : symmetric (make_surface_graph tris).
Proof. intros a b. rewrite !has_edge_make_surface_graph. tauto. Qed.

Lemma make_surface_graph_loops tris :
  loops_only_degenerate tris (make_surface_graph tris).
Proof.
  intros a. rewrite has_edge_make_surface_graph, elem_of_iter_surfedges.
  intros [H|H]; destruct H as (x & y & z & Hin & He);
    exists (x, y, z); (split; [done|]); simpl; intuition congruence.
Qed.

Lemma has_edge_add_face_pt poly faces pt a b :
  has_edge (add_face_pt poly faces pt) a b <->
  has_edge faces a b \/ (a = pt /\ b ∈ corners poly).
Proof.
  unfold add_face_pt, has_edge. split.
  - intros (s & Hs & Hb). destruct (decide (pt = a)) as [->|Hne].
    + rewrite lookup_insert_eq in Hs. simplify_eq.
      apply elem_of_union in Hb as [Hb|Hb].
      * left. destruct (faces !! a) as [s|] eqn:E; simpl in Hb; [eauto|set_solver].
      * right. split; [done|]. by apply elem_of_list_to_set in Hb.
    + rewrite lookup_insert_ne in Hs by done. eauto.
  - intros [(s & Hs & Hb)|[-> Hb]].
    + destruct (decide (pt = a)) as [->|Hne].
      * eexists. rewrite lookup_insert_eq. split; [done|]. rewrite Hs. set_solver.
      * exists s. by rewrite lookup_insert_ne.
    + eexists. rewrite lookup_insert_eq. split; [done|].
      apply elem_of_union_r. by apply elem_of_list_to_set.
Qed.

Lemma has_edge_add_face_pts poly pts faces a b :
  has_edge (fold_left (add_face_pt poly) pts faces) a b <->
  has_edge faces a b \/ (a ∈ pts /\ b ∈ corners poly).
Proof.
  revert faces. induction pts as [|p pts IH]; intros faces; simpl.
  - set_solver.
  - rewrite IH, has_edge_add_face_pt, elem_of_cons. split.
    + intros [[H|[-> H]]|[H1 H2]]; eauto.
    + intros [H|[[->|H1] H2]]; eauto.
Qed.

Lemma has_edge_build_faces_from polys faces a b :
  has_edge (fold_left add_face polys faces) a b <->
  has_edge faces a b \/
  exists t, t ∈ polys /\ a ∈ corners t /\ b ∈ corners t.
Proof.
  revert faces. induction polys as [|p polys IH]; intros faces; simpl.
  - split; [tauto|]. intros [H|(t & Ht & _)]; [done|]. by apply elem_of_nil in Ht.
  - rewrite IH. unfold add_face at 1. rewrite has_edge_add_face_pts. split.
    + intros [[H|H]|(t & Ht & H)]; [tauto| |].
      * right. exists p. split; [left|done].
      * right. exists t. split; [by right|done].
    + intros [H|(t & Ht & H)]; [tauto|].
      apply elem_of_cons in Ht as [->|Ht]; [tauto|]. right. eauto.
Qed.

Lemma has_edge_build_faces polys a b :
  has_edge (build_faces polys) a b <->
  exists t, t ∈ polys /\ a ∈ corners t /\ b ∈ corners t.
Proof.
  unfold build_faces. rewrite has_edge_build_faces_from.
  pose proof (has_edge_empty a b). tauto.
Qed.

Lemma build_faces_symmetric polys : symmetric (build_faces polys).
Proof.
  intros a b. rewrite !has_edge_build_faces.
  intros (t & Ht & Ha & Hb). eauto.
Qed.

(** C10, as stated, fails on the neighbour sets of the curvature smoother:
    the triangle (0,1,2) has three distinct corners, yet vertex 0 is in its
    own neighbour set. *)
Lemma adjacency_self_loop_counterexample :
  ~ well_formed_adjacency [(0, 1, 2)].
Proof.
  intros (_ & _ & _ & Hloop).
  destruct (Hloop 0) as (t & Ht & Hd).
  - apply has_edge_build_faces. exists (0, 1, 2). simpl. set_solver.
  - apply list_elem_of_singleton in Ht as ->. simpl in Hd. lia.
Qed.

(** C10 (amended): the networkx graph and the neighbour sets are both
    symmetric; the networkx graph has a self-loop only at a vertex that a
    degenerate triangle names twice; in the neighbour sets every vertex
    of a triangle is its own neighbour, and no other vertex is. *)
Theorem adjacency_symmetric_and_loops (tris : list tri) :
  symmetric (make_surface_graph tris) /\
  loops_only_degenerate tris (make_surface_graph tris) /\
  symmetric (build_faces tris) /\
  (forall a, has_edge (build_faces tris) a a <->
             exists t, t ∈ tris /\ a ∈ corners t).
Proof.
  split; [apply make_surface_graph_symmetric|].
  split; [apply make_surface_graph_loops|].
  split; [apply build_faces_symmetric|].
  intros a. rewrite has_edge_build_faces. naive_solver.
Qed.

End SurfaceGraphFacts.

Section CurvatureFacts.
Import Mesh SurfaceGraph Curvature.

Lemma forM_ok_map {A B} (f : A -> Py.result B) (g : A -> B) (l : list A) :
  (forall x, x ∈ l -> f x = Py.ok (g x)) -> Py.forM f l = Py.ok (map g l).
Proof.
  induction l as [|x l IH]; intros Hf; simpl; [done|].
  rewrite (Hf x) by left. simpl.
  rewrite IH; [done|]. intros y Hy. apply Hf. by right.
Qed.

(** C8: with [smooth = 0] the smoother returns, for every hemisphere, the
    raw curvature array of the estimator, unchanged. *)
Theorem get_curvature_smooth_zero (mean_curvature : hemi -> list R)
    (hemis : list hemi) (neighborhood : nat) :
  get_curvature mean_curvature hemis 0 neighborhood = Py.ok (map mean_curvature hemis).
Proof.
  unfold get_curvature. apply forM_ok_map. intros h _.
  destruct (Req_dec_T 0 0) as [_|Hne]; [done|]. by destruct Hne.
Qed.

Lemma forM_imap_ok {A B C} (f : C -> Py.result B) (h : nat -> A -> C)
    (g : nat -> A -> B) (l : list A) :
  (forall i x, l !! i = Some x -> f (h i x) = Py.ok (g i x)) ->
  Py.forM f (imap h l) = Py.ok (imap g l).
Proof.
  revert h g. induction l as [|x l IH]; intros h g Hf; simpl; [done|].
  rewrite (Hf 0 x) by done. simpl.
  rewrite (IH (h ∘ S) (g ∘ S)); [done|].
  intros i y Hy. simpl. by apply (Hf (S i)).
Qed.

Lemma getpts_corner polys n i j :
  j ∈ getpts (build_faces polys) n i -> exists t, t ∈ polys /\ j ∈ corners t.
Proof.
  revert i. induction n as [|n IH]; intros i; simpl;
    destruct (build_faces polys !! i) as [s|] eqn:E;
    try (intros H; by apply elem_of_nil in H).
  - intros Hj. apply elem_of_elements in Hj.
    assert (has_edge (build_faces polys) i j) as He by (exists s; done).
    apply has_edge_build_faces in He as (t & Ht & _ & Hc). eauto.
  - intros Hj. apply list_elem_of_In, in_flat_map in Hj as (p & _ & Hj).
    apply list_elem_of_In in Hj. eauto.
Qed.

Lemma neighbors_of_corner polys n i j :
  j ∈ neighbors_of (build_faces polys) n i -> exists t, t ∈ polys /\ j ∈ corners t.
Proof.
  unfold neighbors_of. rewrite elem_of_elements, elem_of_list_to_set.
  apply getpts_corner.
Qed.

Lemma gauss_weight smooth pt q : smooth <> 0%R -> gauss smooth pt q = weight smooth pt q.
Proof.
  intros Hs. unfold gauss, weight, sqnorm.
  destruct (vsub q pt) as [[dx dy] dz]. f_equal. field. done.
Qed.

Lemma zip_with_map_map {A B C D} (f : B -> C -> D) (g : A -> B) (g' : A -> C)
    (l : list A) :
  zip_with f (map g l) (map g' l) = map (fun x => f (g x) (g' x)) l.
Proof. induction l as [|x l IH]; simpl; [done|]. by rewrite IH. Qed.

Lemma smooth_vertex_mean h curv smooth neighborhood i pt :
  valid_hemi h curv -> smooth <> 0%R ->
  smooth_vertex (build_faces (polys h)) h curv smooth neighborhood i pt =
  Py.ok (smoothed_by mean_of_weighted h curv smooth neighborhood i pt).
Proof.
  intros [Hidx Hlen] Hs. unfold smooth_vertex, smoothed_by.
  pose proof (neighbors_of_corner (polys h) neighborhood i) as Hnb.
  destruct (neighbors_of (build_faces (polys h)) neighborhood i) as [|j0 nb] eqn:E.
  - done.
  - set (nbrs := j0 :: nb) in *.
    destruct (decide (0 < length nbrs)) as [_|Hn]; [|simpl in Hn; lia].
    rewrite (forM_ok_map _ (fun j => default origin (pts h !! j))); cycle 1.
    { intros j Hj. destruct (Hnb j Hj) as (t & Ht & Hc).
      unfold Py.getitem.
      destruct (lookup_lt_is_Some_2 (pts h) j (Hidx t j Ht Hc)) as [q Hq].
      cbv beta. rewrite Hq. reflexivity. }
    cbn [Py.bind Py.ok].
    rewrite (forM_ok_map _ (fun j => default 0%R (curv !! j))); cycle 1.
    { intros j Hj. destruct (Hnb j Hj) as (t & Ht & Hc).
      unfold Py.getitem.
      assert (j < length curv) as Hj' by (rewrite Hlen; eauto).
      destruct (lookup_lt_is_Some_2 curv j Hj') as [c Hc'].
      cbv beta. rewrite Hc'. reflexivity. }
    unfold Py.ok, Py.bind. cbv beta iota zeta.
    rewrite map_map, zip_with_map_map, length_map.
    unfold mean_of_weighted, weighted_values. do 3 f_equal.
    apply map_ext. intros j. by rewrite gauss_weight.
Qed.

Lemma smooth_hemi_mean h curv smooth neighborhood :
  valid_hemi h curv -> smooth <> 0%R ->
  exists arr, smooth_hemi h curv smooth neighborhood = Py.ok arr /\
    smoothed_array mean_of_weighted h curv smooth neighborhood arr.
Proof.
  intros Hv Hs. eexists. split; [|split].
  - unfold smooth_hemi. apply forM_imap_ok. intros i pt _. simpl.
    by apply smooth_vertex_mean.
  - apply length_imap.
  - intros i pt Hpt. rewrite list_lookup_imap, Hpt. done.
Qed.

Lemma forM_Forall2 {A B} (f : A -> Py.result B) (P : A -> B -> Prop) (l : list A) :
  (forall x, x ∈ l -> exists y, f x = Py.ok y /\ P x y) ->
  exists ys, Py.forM f l = Py.ok ys /\ Forall2 P l ys.
Proof.
  induction l as [|x l IH]; intros Hf; simpl.
  - exists []. by split.
  - destruct (Hf x) as (y & Hy & HP); [left|].
    destruct IH as (ys & Hys & HF); [intros z Hz; apply Hf; by right|].
    exists (y :: ys). rewrite Hy. simpl. rewrite Hys. simpl. split; [done|].
    by constructor.
Qed.

Lemma get_curvature_mean mean_curvature hemis smooth neighborhood :
  smooth <> 0%R ->
  (forall h, h ∈ hemis -> valid_hemi h (mean_curvature h)) ->
  smooths_by mean_of_weighted mean_curvature hemis smooth neighborhood.
Proof.
  intros Hs Hv. unfold smooths_by, get_curvature.
  apply forM_Forall2. intros h Hh.
  destruct (Req_dec_T smooth 0) as [?|_]; [done|].
  apply smooth_hemi_mean; auto.
Qed.

Lemma corner_hemi_valid : valid_hemi corner_hemi [1; 1; 1]%R.
Proof.
  split; [|done]. intros t a Ht Ha. simpl in *.
  apply list_elem_of_singleton in Ht as ->. simpl in Ha.
  set_unfold. lia.
Qed.

Lemma corner_hemis_valid h :
  h ∈ [corner_hemi] -> valid_hemi h ((fun _ => [1; 1; 1]%R) h).
Proof. intros ->%list_elem_of_singleton. apply corner_hemi_valid. Qed.

Lemma corner_hemi_neighbors :
  neighbors_of (build_faces (polys corner_hemi)) 0 0 = [2; 1; 0].
Proof. vm_compute. reflexivity. Qed.

(** C7, as stated, fails: on the right triangle with constant raw
    curvature 1 the Gaussian-weighted average at vertex 0 is 1, and the
    smoother returns (1 + 2 exp(-1/2)) / 3. *)
Lemma curvature_weighted_average_counterexample :
  ~ smooths_by weighted_average (fun _ => [1; 1; 1]%R) [corner_hemi] 1 0.
Proof.
  intros (res & Hres & HF).
  destruct (get_curvature_mean (fun _ => [1; 1; 1]%R) [corner_hemi] 1 0)
    as (res' & Hres' & HF'); [lra|apply corner_hemis_valid|].
  rewrite Hres in Hres'. injection Hres' as <-.
  destruct res as [|arr res]; [inversion HF|].
  apply Forall2_cons in HF as [[_ Hval] _].
  apply Forall2_cons in HF' as [[_ Hval'] _].
  specialize (Hval 0 (0, 0, 0)%R eq_refl). specialize (Hval' 0 (0, 0, 0)%R eq_refl).
  rewrite Hval in Hval'. injection Hval' as Heq. revert Heq.
  unfold smoothed_by. rewrite corner_hemi_neighbors.
  unfold weighted_average, mean_of_weighted, weighted_values, weights, weight.
  cbn [map length corner_hemi pts lookup list_lookup default Rsum fold_right
       vsub sqnorm INR].
  unfold Datatypes.id. cbn [vsub sqnorm].
  replace (- (((0 - 0) * (0 - 0) + (1 - 0) * (1 - 0) + (0 - 0) * (0 - 0)) / (2 * 1 ^ 2)))%R
    with (- (1 / 2))%R by field.
  replace (- (((1 - 0) * (1 - 0) + (0 - 0) * (0 - 0) + (0 - 0) * (0 - 0)) / (2 * 1 ^ 2)))%R
    with (- (1 / 2))%R by field.
  replace (- (((0 - 0) * (0 - 0) + (0 - 0) * (0 - 0) + (0 - 0) * (0 - 0)) / (2 * 1 ^ 2)))%R
    with 0%R by field.
  rewrite exp_0.
  pose proof (exp_pos (- (1 / 2))) as Hpos.
  pose proof (exp_increasing (- (1 / 2)) 0 ltac:(lra)) as Hlt.
  rewrite exp_0 in Hlt.
  set (e := exp (- (1 / 2))) in *. intros Heq.
  assert ((e * 1 + (e * 1 + (1 * 1 + 0))) / (e + (e + (1 + 0))) = 1)%R as H1.
  { field. lra. }
  rewrite H1 in Heq. lra.
Qed.

(** C7 (amended): with smoothing enabled ([smooth <> 0]), on hemispheres
    whose triangle indices are valid and whose raw curvature has one value
    per vertex, [get_curvature] returns for every hemisphere an array in
    which every vertex with a non-empty neighbourhood holds the mean over
    its neighbourhood of weight times raw curvature, with weight
    exp(-|dposition|^2 / (2 smooth^2)): the weighted sum is divided by the
    number of neighbours, not by the sum of the weights.  A vertex with an
    empty neighbourhood holds 0. *)
Theorem get_curvature_smoothed_mean (mean_curvature : hemi -> list R)
    (hemis : list hemi) (smooth : R) (neighborhood : nat) :
  smooth <> 0%R ->
  (forall h, h ∈ hemis -> valid_hemi h (mean_curvature h)) ->
  smooths_by mean_of_weighted mean_curvature hemis smooth neighborhood.
Proof. apply get_curvature_mean. Qed.

Lemma get_curvature_smoothed_mean_witness :
  (1 <> 0)%R /\
  (forall h, h ∈ [corner_hemi] -> valid_hemi h ((fun _ => [1; 1; 1]%R) h)) /\
  smooths_by mean_of_weighted (fun _ => [1; 1; 1]%R) [corner_hemi] 1 0.
Proof.
  split; [lra|]. split; [apply corner_hemis_valid|].
  apply (get_curvature_smoothed_mean (fun _ => [1; 1; 1]%R) [corner_hemi] 1 0);
    [lra|apply corner_hemis_valid].
Defined.

End CurvatureFacts.

Section VoxDistFacts.
Import Mesh VoxDist.

Lemma lookup_flat_map_blocks {A} (f : nat -> list A) (k : nat) :
  (forall i, length (f i) = k) ->
  forall n s a r, a < n -> r < k ->
    flat_map f (seq s n) !! (a * k + r) = f (s + a) !! r.
Proof.
  intros Hlen. induction n as [|n IH]; intros s a r Ha Hr; [lia|].
  cbn [seq flat_map]. destruct a as [|a].
  - rewrite Nat.add_0_r. simpl. rewrite lookup_app_l by (rewrite Hlen; lia). done.
  - rewrite Nat.mul_succ_l.
    rewrite lookup_app_r by (rewrite Hlen; lia).
    rewrite Hlen. replace (a * k + k + r - k) with (a * k + r) by lia.
    rewrite IH by lia. by replace (S s + a) with (s + S a) by lia.
Qed.

Lemma length_flat_map_blocks {A} (f : nat -> list A) (k : nat) :
  (forall i, length (f i) = k) ->
  forall n s, length (flat_map f (seq s n)) = n * k.
Proof.
  intros Hlen. induction n as [|n IH]; intros s; [done|].
  cbn [seq flat_map]. rewrite length_app, Hlen, IH. simpl. lia.
Qed.

Lemma mgrid_rows_lookup s0 s1 s2 a b c :
  a < s0 -> b < s1 -> c < s2 ->
  Ndarray.mgrid_rows (s0, s1, s2) !! Ndarray.offset (s0, s1, s2) a b c = Some (a, b, c).
Proof.
  intros Ha Hb Hc. unfold Ndarray.mgrid_rows, Ndarray.offset.
  replace ((a * s1 + b) * s2 + c) with (a * (s1 * s2) + (b * s2 + c)) by lia.
  rewrite (lookup_flat_map_blocks _ (s1 * s2)); [| |done|nia].
  - rewrite (lookup_flat_map_blocks _ s2); [| |done|done].
    + rewrite list_lookup_fmap, lookup_seq_lt by done. done.
    + intros i. by rewrite length_map, length_seq.
  - intros i. apply length_flat_map_blocks. intros j.
    by rewrite length_map, length_seq.
Qed.

Lemma get_vox_dist_entry linalg_inv kd_query fiducial xfm inv s0 s1 s2 a b c :
  linalg_inv xfm = Py.ok inv ->
  a < s0 -> b < s1 -> c < s2 ->
  exists r, get_vox_dist linalg_inv kd_query fiducial xfm (s0, s1, s2) = Py.ok r /\
    Ndarray.get r.1 a b c = Some (kd_query fiducial (world inv (a, b, c))).1 /\
    Ndarray.get r.2 a b c = Some (kd_query fiducial (world inv (a, b, c))).2.
Proof.
  intros Hinv Ha Hb Hc. unfold get_vox_dist. rewrite Hinv. cbn [Py.bind Py.ok].
  eexists. split; [reflexivity|].
  unfold Ndarray.get. cbn [fst snd Ndarray.shape Ndarray.data].
  assert (Ndarray.in_bounds (s0, s1, s2) a b c = true) as ->.
  { unfold Ndarray.in_bounds. by rewrite !bool_decide_eq_true_2. }
  pose proof (mgrid_rows_lookup s0 s1 s2 a b c Ha Hb Hc) as Hrow.
  split; rewrite !list_lookup_fmap, Hrow; done.
Qed.

(** A singular transform: the exception of [np.linalg.inv] leaves the
    call. *)
Lemma get_vox_dist_singular linalg_inv kd_query fiducial xfm shape err :
  linalg_inv xfm = Py.raise err ->
  get_vox_dist linalg_inv kd_query fiducial xfm shape = Py.raise err.
Proof. intros Hinv. unfold get_vox_dist. by rewrite Hinv. Qed.

Ltac tuple_eq :=
  repeat match goal with |- pair _ _ = pair _ _ => apply (f_equal2 pair) end.

Lemma apply4_mul4 (m n : mat4) (v : vec4) :
  apply4 m (apply4 n v) = apply4 (mul4 m n) v.
Proof.
  destruct m as [[[[[[a00 a01] a02] a03] [[[a10 a11] a12] a13]]
                   [[[a20 a21] a22] a23]] [[[a30 a31] a32] a33]].
  destruct n as [[[[[[b00 b01] b02] b03] [[[b10 b11] b12] b13]]
                   [[[b20 b21] b22] b23]] [[[b30 b31] b32] b33]].
  destruct v as [[[x y] z] t].
  unfold mul4, apply4, col4. tuple_eq; ring.
Qed.

Lemma apply4_identity4 (v : vec4) : apply4 identity4 v = v.
Proof.
  destruct v as [[[x y] z] t]. unfold apply4, identity4. tuple_eq; ring.
Qed.

(** The model's column product is the product in plain arithmetic. *)
Lemma world_first3 (inv : mat4) (a b c : nat) :
  world inv (a, b, c) = first3 (apply4 inv (voxel_column a b c)).
Proof.
  destruct inv as [[[[[[a00 a01] a02] a03] [[[a10 a11] a12] a13]]
                     [[[a20 a21] a22] a23]] [[[a30 a31] a32] a33]].
  reflexivity.
Qed.

Lemma world_is_world_coordinate (xfm inv : mat4) (a b c : nat) :
  is_inverse xfm inv -> world_coordinate xfm a b c (world inv (a, b, c)).
Proof.
  intros [Hr Hl]. exists (apply4 inv (voxel_column a b c)).
  split; [by rewrite world_first3|]. split.
  - by rewrite apply4_mul4, Hr, apply4_identity4.
  - intros v4 Hv. rewrite <- Hv, apply4_mul4, Hl, apply4_identity4. done.
Qed.

Lemma scan_from_nearest rest q : forall seen i best,
  i = length seen ->
  nearest_at seen q best.1 best.2 ->
  nearest_at (seen ++ rest) q (scan_from rest q i best).1 (scan_from rest q i best).2.
Proof.
  induction rest as [|p rest IH]; intros seen i best Hi Hbest; simpl.
  - by rewrite app_nil_r.
  - replace (seen ++ p :: rest) with ((seen ++ [p]) ++ rest) by (by rewrite <- app_assoc).
    apply IH; [rewrite length_app; simpl; lia|].
    destruct Hbest as [(p0 & Hp0 & Hd) Hmin].
    destruct (Rlt_dec (euclidean p q) best.1) as [Hlt|Hge]; simpl.
    + split.
      * exists p. split; [|done]. subst i. rewrite lookup_app_r by done.
        by rewrite Nat.sub_diag.
      * intros j p' Hj. apply lookup_app_Some in Hj as [Hj|[_ Hj]].
        -- specialize (Hmin j p' Hj). lra.
        -- apply list_lookup_singleton_Some in Hj as [_ <-]. lra.
    + split.
      * exists p0. split; [|done]. by apply lookup_app_l_Some.
      * intros j p' Hj. apply lookup_app_Some in Hj as [Hj|[_ Hj]].
        -- exact (Hmin j p' Hj).
        -- apply list_lookup_singleton_Some in Hj as [_ <-]. simpl. lra.
Qed.

Lemma scan_query_nearest : nearest_neighbour_query scan_query.
Proof.
  intros [|p rest] q Hne; [done|]. unfold scan_query.
  apply (scan_from_nearest rest q [p] 1 (euclidean p q, 0)); [done|].
  split.
  - exists p. done.
  - intros [|j] p' Hj; simpl in Hj; [|by rewrite lookup_nil in Hj].
    injection Hj as <-. simpl. lra.
Qed.

Lemma half4_inverse : is_inverse double4 half4.
Proof.
  split; unfold mul4, apply4, col4, double4, half4, identity4;
    tuple_eq; lra.
Qed.

Lemma table_inv_double4 : table_inv double4 = Py.ok half4.
Proof. unfold table_inv. by rewrite decide_True. Qed.

(** C1: when [np.linalg.inv] returns the inverse of the affine and the
    k-d tree answers nearest-neighbour queries, the call returns, and for
    every voxel [a, b, c] of the grid there is the world coordinate [w] of
    the voxel (the first three components of the one homogeneous column
    that the affine sends to (c, b, a, 1), which is the inverse applied to
    that column) such that the distance array holds at [a, b, c] the
    minimum Euclidean distance from [w] to the fiducial vertices, and the
    index array the index of a vertex at that distance. *)
Theorem get_vox_dist_nearest (linalg_inv : mat4 -> Py.result mat4)
    (kd_query : list vec3 -> vec3 -> R * nat)
    (fiducial : list vec3) (xfm inv : mat4) (s0 s1 s2 a b c : nat) :
  linalg_inv xfm = Py.ok inv -> is_inverse xfm inv ->
  nearest_neighbour_query kd_query ->
  fiducial <> [] ->
  a < s0 -> b < s1 -> c < s2 ->
  exists r d i w,
    get_vox_dist linalg_inv kd_query fiducial xfm (s0, s1, s2) = Py.ok r /\
    Ndarray.get r.1 a b c = Some d /\
    Ndarray.get r.2 a b c = Some i /\
    world_coordinate xfm a b c w /\
    w = first3 (apply4 inv (INR c, INR b, INR a, 1%R)) /\
    (exists p, fiducial !! i = Some p /\ d = euclidean p w) /\
    (forall j p, fiducial !! j = Some p -> (d <= euclidean p w)%R).
Proof.
  intros Hinv Hxfm Hq Hne Ha Hb Hc.
  destruct (get_vox_dist_entry linalg_inv kd_query fiducial xfm inv s0 s1 s2 a b c
              Hinv Ha Hb Hc) as (r & Hr & Hd & Hi).
  exists r, (kd_query fiducial (world inv (a, b, c))).1,
            (kd_query fiducial (world inv (a, b, c))).2, (world inv (a, b, c)).
  split; [exact Hr|]. split; [exact Hd|]. split; [exact Hi|].
  split; [by apply world_is_world_coordinate|].
  split; [apply world_first3|].
  apply (Hq fiducial _ Hne).
Qed.

Lemma get_vox_dist_nearest_witness :
  table_inv double4 = Py.ok half4 /\ is_inverse double4 half4 /\
  nearest_neighbour_query scan_query /\
  [(0, 0, 0); (1, 0, 0)]%R <> ([] : list vec3) /\
  exists r d i w,
    get_vox_dist table_inv scan_query [(0, 0, 0); (1, 0, 0)]%R double4 (1, 1, 2)
      = Py.ok r /\
    Ndarray.get r.1 0 0 1 = Some d /\
    Ndarray.get r.2 0 0 1 = Some i /\
    world_coordinate double4 0 0 1 w /\
    w = first3 (apply4 half4 (INR 1, INR 0, INR 0, 1%R)) /\
    (exists p, [(0, 0, 0); (1, 0, 0)]%R !! i = Some p /\ d = euclidean p w) /\
    (forall j p, [(0, 0, 0); (1, 0, 0)]%R !! j = Some p -> (d <= euclidean p w)%R).
Proof.
  split; [apply table_inv_double4|]. split; [apply half4_inverse|].
  split; [apply scan_query_nearest|]. split; [done|].
  apply (get_vox_dist_nearest table_inv scan_query [(0, 0, 0); (1, 0, 0)]%R
           double4 half4 1 1 2 0 0 1);
    [apply table_inv_double4|apply half4_inverse|apply scan_query_nearest|done|lia|lia|lia].
Defined.

End VoxDistFacts.

Section RoiMasksFacts.
Import Mesh RoiMasks.

Lemma Rltb_true x y : (x < y)%R -> Rltb x y = true.
Proof. intros H. unfold Rltb. by destruct (Rlt_dec x y). Qed.

Lemma Rltb_false x y : (y <= x)%R -> Rltb x y = false.
Proof. intros H. unfold Rltb. destruct (Rlt_dec x y); [lra|done]. Qed.

Lemma length_Lmask e : length (Lmask e) = nvox e.
Proof. unfold Lmask, voxIdxF. by rewrite !length_map, length_seq. Qed.

(** The two hemisphere masks partition the voxels: each voxel is in
    exactly one of them. *)
Lemma hemisphere_masks_partition e v :
  v < nvox e ->
  exists b, Lmask e !! v = Some b /\ Rmask e !! v = Some (negb b).
Proof.
  intros Hv. destruct (lookup_lt_is_Some_2 (Lmask e) v) as [b Hb].
  - by rewrite length_Lmask.
  - exists b. split; [done|]. unfold Rmask. by rewrite list_lookup_fmap, Hb.
Qed.

Lemma overlap_env_CxMask : CxMask overlap_env 2 = [true].
Proof.
  unfold CxMask, voxDstF. cbn [nvox overlap_env shape vox seq map fst Nat.mul Nat.add].
  rewrite Rltb_true; [done|simpl; lra].
Qed.

Lemma overlap_env_candidates :
  candidates_after_precedence overlap_env (Rois ["V1"; "V2"]%string) 2 =
  Py.ok [[(true, false); (true, false)]].
Proof.
  unfold candidates_after_precedence, candidate_masks.
  rewrite overlap_env_CxMask. vm_compute. reflexivity.
Qed.

(** C2 fails on the code.  Both ROIs claim the one voxel on the left, so
    it is to be cut; [tmpMask[toCut] = False] reads the hemisphere axis of
    [toCut] as the ROI axis and clears ROI 0 only, and the voxel leaves
    the call assigned to ROI 2 of the left hemisphere (-2), not 0. *)
Theorem cut_keeps_overlapping_voxel :
  (exists tmp, candidates_after_precedence overlap_env (Rois ["V1"; "V2"]%string) 2
               = Py.ok tmp /\ toCut tmp = [(true, false)]) /\
  get_roi_masks overlap_env (Rois ["V1"; "V2"]%string) 2 "cut" =
  Py.ok {| mask := [(-2)%Z]; mask_shape := [1; 1; 1];
           roiIdx := <["V2"%string := 2%Z]> (<["V1"%string := 1%Z]> ∅) |}.
Proof.
  split.
  - eexists. split; [apply overlap_env_candidates|]. vm_compute. reflexivity.
  - unfold get_roi_masks, candidate_masks.
    rewrite overlap_env_CxMask. vm_compute. reflexivity.
Qed.

(** C4 fails on the code.  The left hemisphere has four vertices, so the
    nearest-vertex index 3 is a left vertex; the boundary [nL] counts the
    vertices the flat triangles name, 3, and the voxel goes to the right
    mask. *)
Theorem medial_wall_voxel_in_right_mask :
  length (hemi_pts (L medial_env)) = 4 /\
  voxIdxF medial_env = [3] /\
  nL medial_env = 3 /\
  Lmask medial_env = [false] /\
  Rmask medial_env = [true].
Proof. repeat split; vm_compute; reflexivity. Qed.

Lemma get_roi_masks_other_policy e roiList Dst overlapOpt :
  overlapOpt <> "cut"%string ->
  get_roi_masks e roiList Dst overlapOpt =
  let* _ := candidates_after_precedence e roiList Dst in
  Py.ok {| mask := replicate (nvox e) 0%Z; mask_shape := [nvox e]; roiIdx := ∅ |}.
Proof.
  intros Hopt. unfold get_roi_masks, candidates_after_precedence.
  apply String.eqb_neq in Hopt. rewrite Hopt.
  destruct (Py.forM _ (vertIdx e)) as [err|idx]; [done|]. cbn [Py.bind Py.ok].
  destruct (candidate_masks e (resolve_roiList e roiList) Dst) as [err|tmp]; done.
Qed.

(** C6, as stated, fails: with the policy 'split' the call raises nothing
    and returns a mask. *)
Lemma split_policy_counterexample :
  ~ rejects_other_policies overlap_env (Rois ["V1"; "V2"]%string) 2 "split".
Proof.
  intros H. destruct H as [err Herr]; [discriminate|].
  rewrite get_roi_masks_other_policy in Herr by discriminate.
  rewrite overlap_env_candidates in Herr. discriminate.
Qed.

(** C6 (amended): with an overlap policy other than 'cut' the call raises
    no error of its own: once the candidate volumes are built (an error
    of that step is passed on), it returns the flat all-zero mask, never
    reshaped, and an empty name -> number mapping. *)
Theorem other_policy_returns_zero_mask (e : env) (roiList : roi_arg) (Dst : R)
    (overlapOpt : string) :
  overlapOpt <> "cut"%string ->
  get_roi_masks e roiList Dst overlapOpt =
  let* _ := candidates_after_precedence e roiList Dst in
  Py.ok {| mask := replicate (nvox e) 0%Z; mask_shape := [nvox e]; roiIdx := ∅ |}.
Proof. apply get_roi_masks_other_policy. Qed.

Lemma other_policy_returns_zero_mask_witness :
  "split"%string <> "cut"%string /\
  get_roi_masks overlap_env (Rois ["V1"; "V2"]%string) 2 "split" =
  Py.ok {| mask := [0%Z]; mask_shape := [1]; roiIdx := ∅ |}.
Proof.
  split; [discriminate|].
  rewrite (other_policy_returns_zero_mask overlap_env (Rois ["V1"; "V2"]%string) 2 "split")
    by discriminate.
  rewrite overlap_env_candidates. reflexivity.
Defined.

End RoiMasksFacts.

Section DistortionFacts.
Import Mesh Distortion.

Lemma fold_insert_length {X} (l : list (nat * X)) (arr : list X) :
  length (fold_left (fun a (ix : nat * X) => <[ix.1 := ix.2]> a) l arr) = length arr.
Proof.
  revert arr. induction l as [|p l IH]; intros arr; simpl; [done|].
  by rewrite IH, length_insert.
Qed.

(** Writing the pairs of [l] one after the other: an index keeps the value
    written last. *)
Lemma fold_insert_lookup {X} (l : list (nat * X)) (arr : list X) (v : nat) :
  v < length arr ->
  fold_left (fun a (ix : nat * X) => <[ix.1 := ix.2]> a) l arr !! v =
  match last (filter (fun p : nat * X => p.1 = v) l) with
  | Some p => Some p.2
  | None => arr !! v
  end.
Proof.
  revert arr. induction l as [|p l IH]; intros arr Hv; simpl; [done|].
  rewrite IH by (by rewrite length_insert).
  rewrite filter_cons. destruct (decide (p.1 = v)) as [Hp|Hp].
  - rewrite last_cons. destruct (last (filter _ l)); [done|].
    rewrite <- Hp. apply list_lookup_insert_eq. by rewrite Hp.
  - destruct (last (filter _ l)); [done|]. by apply list_lookup_insert_ne.
Qed.

Lemma iadd_at_map {T} (c : T -> nat) (r : T -> xfloat) (ts : list T) (arr : list xfloat) :
  (forall t, t ∈ ts -> c t < length arr) ->
  exists arr', iadd_at arr (map c ts) (map r ts) = Py.ok arr' /\
    length arr' = length arr /\
    forall v a, arr !! v = Some a ->
      arr' !! v = Some (last_add a (map r (filter (fun t => c t = v) ts))).
Proof.
  intros Hc. unfold iadd_at.
  rewrite (forM_ok_map _ (fun i => default (Fin 0) (arr !! i))); cycle 1.
  { intros i Hi. apply list_elem_of_fmap in Hi as (t & -> & Ht).
    unfold Py.getitem. destruct (lookup_lt_is_Some_2 arr (c t) (Hc t Ht)) as [x Hx].
    cbv beta. rewrite Hx. done. }
  cbn [Py.bind Py.ok]. eexists. split; [done|]. split; [apply fold_insert_length|].
  intros v a Ha. rewrite fold_insert_lookup by (by apply lookup_lt_Some in Ha).
  assert (zip (map c ts) (zip_with xadd (map (fun i => default (Fin 0) (arr !! i)) (map c ts))
                                   (map r ts))
          = map (fun t => (c t, xadd (default (Fin 0) (arr !! c t)) (r t))) ts) as ->.
  { clear. induction ts as [|t ts IH]; simpl; [done|]. by rewrite IH. }
  assert (filter (fun p : nat * xfloat => p.1 = v)
            (map (fun t => (c t, xadd (default (Fin 0) (arr !! c t)) (r t))) ts)
          = map (fun t => (v, xadd a (r t))) (filter (fun t => c t = v) ts)) as ->.
  { clear Hc. induction ts as [|t ts IH]; simpl; [done|].
    rewrite !filter_cons. simpl. destruct (decide (c t = v)) as [Hv|Hv]; [|done].
    simpl. rewrite IH, Hv, Ha. done. }
  unfold last_add.
  change (map ?f ?l) with (f <$> l). rewrite !fmap_last.
  destruct (last (filter _ ts)); simpl; [done|exact Ha].
Qed.

Lemma triareas_ok (tr : list tri) (v : list vec3) :
  (forall a, a ∈ ravel tr -> a < length v) ->
  triareas tr v = Py.ok (map (tri_area v) tr).
Proof.
  intros Hv. unfold triareas. apply forM_ok_map.
  intros [[i j] k] Ht.
  assert (forall a, a ∈ corners (i, j, k) -> Py.getitem v a = Py.ok (vertex v a)) as Hget.
  { intros a Ha. unfold Py.getitem, vertex.
    destruct (lookup_lt_is_Some_2 v a) as [x Hx]; [|by rewrite Hx].
    apply Hv. unfold ravel. apply list_elem_of_In, in_flat_map.
    exists (i, j, k). split; by apply list_elem_of_In. }
  rewrite !Hget by (simpl; set_solver). done.
Qed.

Lemma bincount_lookup (l : list nat) (v : nat) :
  v < length (bincount l) ->
  bincount l !! v = Some (length (filter (fun j => j = v) l)).
Proof.
  unfold bincount. destruct l as [|x l]; [simpl; lia|].
  rewrite length_map, length_seq. intros Hv.
  rewrite list_lookup_fmap, lookup_seq_lt by done. done.
Qed.

(** The array of the areal branch, entry by entry. *)
Lemma areal_distortion_entries h :
  valid_pair h ->
  exists arr, areal_distortion h = Py.ok arr /\
    length arr = length (fidvert h) /\
    forall v, v < length (fidvert h) ->
      arr !! v = Some (log_ratio (xdiv (written_sum h v) (INR (corner_count h v)))).
Proof.
  intros (Hlen & Hidx & Hbin). unfold areal_distortion.
  rewrite !triareas_ok by (try rewrite Hlen; done). cbn [Py.bind Py.ok]. cbv zeta.
  rewrite zip_with_map_map. fold (tri_ratio h).
  assert (forall k t, t ∈ flattri h -> corner k t < length (fidvert h)) as Hcorner.
  { intros k [[a b] c] Ht. apply Hidx. unfold ravel.
    apply list_elem_of_In, in_flat_map. exists (a, b, c).
    split; [by apply list_elem_of_In|].
    simpl. destruct k as [|[|k]]; simpl; tauto. }
  set (a0 := replicate (length (fidvert h)) (Fin 0)).
  destruct (iadd_at_map (corner 0) (tri_ratio h) (flattri h) a0) as (a1 & E1 & L1 & H1).
  { intros t Ht. unfold a0. rewrite length_replicate. by apply Hcorner. }
  unfold column. rewrite E1. cbn [Py.bind Py.ok].
  destruct (iadd_at_map (corner 1) (tri_ratio h) (flattri h) a1) as (a2 & E2 & L2 & H2).
  { intros t Ht. rewrite L1. unfold a0. rewrite length_replicate. by apply Hcorner. }
  rewrite E2. cbn [Py.bind Py.ok].
  destruct (iadd_at_map (corner 2) (tri_ratio h) (flattri h) a2) as (a3 & E3 & L3 & H3).
  { intros t Ht. rewrite L2, L1. unfold a0. rewrite length_replicate. by apply Hcorner. }
  rewrite E3. cbn [Py.bind Py.ok].
  assert (length a3 = length (fidvert h)) as La3.
  { rewrite L3, L2, L1. unfold a0. by rewrite length_replicate. }
  unfold idiv_counts. rewrite decide_True by (by rewrite Hbin, La3). cbn [Py.bind Py.ok].
  eexists. split; [done|]. split.
  { rewrite !length_map, length_zip_with, La3, Hbin. lia. }
  intros v Hv.
  assert (a0 !! v = Some (Fin 0)) as Hv0 by (by apply lookup_replicate_2).
  specialize (H1 v _ Hv0). specialize (H2 v _ H1). specialize (H3 v _ H2).
  change (map ?f ?l) with (f <$> l).
  rewrite !list_lookup_fmap, lookup_zip_with, H3. simpl.
  rewrite bincount_lookup by (by rewrite Hbin). simpl. done.
Qed.

Lemma get_flatmap_distortion_areal_entries lh rh :
  valid_pair lh -> valid_pair rh ->
  areal_returns (fun h arr =>
    length arr = length (fidvert h) /\
    forall v, v < length (fidvert h) ->
      arr !! v = Some (log_ratio (xdiv (written_sum h v) (INR (corner_count h v)))))
    lh rh.
Proof.
  intros Hl Hr. unfold areal_returns, get_flatmap_distortion. cbn [String.eqb Ascii.eqb Bool.eqb].
  destruct (areal_distortion_entries lh Hl) as (al & El & Pl).
  destruct (areal_distortion_entries rh Hr) as (ar & Er & Pr).
  exists al, ar. simpl. rewrite El, Er. done.
Qed.

Lemma last_add_once (a : xfloat) (l : list xfloat) :
  length l <= 1 -> last_add a l = fold_left xadd l a.
Proof.
  unfold last_add. destruct l as [|x [|y l]]; simpl; [done|done|lia].
Qed.

Lemma written_sum_once h v :
  once_per_column h v ->
  written_sum h v = xsum (corner_ratios h 0 v ++ corner_ratios h 1 v ++ corner_ratios h 2 v).
Proof.
  intros Honce. unfold written_sum, xsum.
  rewrite !fold_left_app.
  rewrite !last_add_once; [done|..]; unfold corner_ratios; rewrite length_map; apply Honce.
Qed.

Lemma log_mean_ratio_of_entries h arr :
  (length arr = length (fidvert h) /\
   forall v, v < length (fidvert h) ->
     arr !! v = Some (log_ratio (xdiv (written_sum h v) (INR (corner_count h v))))) ->
  valid_pair h -> log_mean_ratio_array h arr.
Proof.
  intros [Hlen Hent] (_ & Hidx & _). split; [done|].
  intros v Hv Honce. rewrite Hent by auto.
  unfold mean_ratio. by rewrite written_sum_once.
Qed.

Lemma areal_mean_ratio lh rh :
  valid_pair lh -> valid_pair rh -> areal_returns log_mean_ratio_array lh rh.
Proof.
  intros Hl Hr.
  destruct (get_flatmap_distortion_areal_entries lh rh Hl Hr) as (al & ar & E & Pl & Pr).
  exists al, ar. split; [done|]. split; by apply log_mean_ratio_of_entries.
Qed.

(** *** Concrete areas *)

Lemma area_xy x1 y1 x2 y2 x3 y3 :
  area (x1, y1, 0)%R (x2, y2, 0)%R (x3, y3, 0)%R =
  (Rabs ((x1 - x2) * (y1 - y3) - (y1 - y2) * (x1 - x3)) / 2)%R.
Proof.
  unfold area, norm, cross, vsub, sqnorm. f_equal.
  rewrite <- sqrt_Rsqr_abs. f_equal. unfold Rsqr. ring.
Qed.

Lemma tri_area_eq v i j k a b c :
  v !! i = Some a -> v !! j = Some b -> v !! k = Some c ->
  tri_area v (i, j, k) = area a b c.
Proof. intros Hi Hj Hk. unfold tri_area, vertex. by rewrite Hi, Hj, Hk. Qed.

Lemma fdiv_fin x y : y <> 0%R -> fdiv x y = Fin (x / y).
Proof. intros Hy. unfold fdiv. by destruct (Req_dec_T y 0). Qed.

Lemma log_ratio_pos x : (0 < x)%R -> log_ratio (Fin x) = Fin (ln x).
Proof.
  intros Hx. unfold log_ratio, nan_to_num, zero_to_one, xlog.
  destruct (Req_dec_T x 0); [lra|]. by destruct (Rlt_dec 0 x).
Qed.

Lemma Rabs_of x y : (0 <= y)%R -> x = y -> Rabs x = y.
Proof. intros Hy ->. by apply Rabs_pos_eq. Qed.

Ltac tri_area_xy k :=
  erewrite tri_area_eq by reflexivity; rewrite area_xy; rewrite (Rabs_of _ k); lra.





Lemma square_area_1 : tri_area (fidvert square_pair) (0, 1, 2) = (1 / 2)%R.
Proof.
  tri_area_xy 1%R.
Qed.

Lemma square_area_2 : tri_area (fidvert square_pair) (0, 2, 3) = (1 / 2)%R.
Proof.
  tri_area_xy 1%R.
Qed.


Lemma square_pair_valid : valid_pair square_pair.
Proof.
  split; [done|]. split; [|by vm_compute].
  intros a Ha. simpl in Ha. set_unfold. simpl. lia.
Qed.









Lemma square_ratio_2 : tri_ratio square_pair (0, 2, 3) = Fin ((1 / 2) / (1 / 2)).
Proof.
  unfold tri_ratio.
  change (flatvert square_pair) with (fidvert square_pair).
  rewrite square_area_2. apply fdiv_fin. lra.
Qed.

Lemma square_pair_isometric : isometric square_pair.
Proof.
  intros t Ht. split; [done|].
  simpl in Ht. apply elem_of_cons in Ht as [->|Ht].
  - rewrite square_area_1. lra.
  - apply list_elem_of_singleton in Ht as ->. rewrite square_area_2. lra.
Qed.

(** C9 fails on the code.  The unit square is mapped isometrically, and
    vertex 0 is the first corner of both triangles: [vertratios[flattri[:,0]]
    += ...] keeps one of the two ratios, the count is 2, and the call
    returns ln(1/2) at vertex 0, not 0. *)
Theorem areal_isometric_square_nonzero :
  isometric square_pair /\
  exists al ar,
    get_flatmap_distortion square_pair square_pair "areal" = Py.ok [al; ar] /\
    al !! 0 = Some (Fin (ln (1 / 2))) /\ ln (1 / 2) <> 0%R.
Proof.
  split; [apply square_pair_isometric|].
  destruct (get_flatmap_distortion_areal_entries square_pair square_pair
              square_pair_valid square_pair_valid) as (al & ar & E & [_ Pl] & _).
  exists al, ar. split; [done|]. split.
  - rewrite (Pl 0) by (simpl; lia).
    unfold written_sum.
    change (corner_ratios square_pair 0 0)
      with [tri_ratio square_pair (0, 1, 2); tri_ratio square_pair (0, 2, 3)].
    change (corner_ratios square_pair 1 0) with (@nil xfloat).
    change (corner_ratios square_pair 2 0) with (@nil xfloat).
    change (corner_count square_pair 0) with 2.
    unfold last_add. cbn [last]. rewrite square_ratio_2. cbn [xadd xdiv INR].
    rewrite fdiv_fin by lra. rewrite log_ratio_pos by lra. do 3 f_equal. lra.
  - pose proof (ln_increasing (1 / 2) 1 ltac:(lra) ltac:(lra)) as Hlt.
    rewrite ln_1 in Hlt. lra.
Qed.

End DistortionFacts.

Section TissotFacts.
Import Mesh SurfaceGraph Tissot.

Lemma too_close_false paths verts spacing cs :
  too_close paths verts spacing cs = Py.ok false ->
  forall cv p d, cv ∈ cs -> paths !! cv = Some p ->
    get_path_len_mm p verts = Py.ok d -> (IZR spacing <= d)%R.
Proof.
  induction cs as [|c cs IH]; intros Hfar cv p d Hcv Hp Hd.
  - by apply elem_of_nil in Hcv.
  - simpl in Hfar. apply elem_of_cons in Hcv as [->|Hcv].
    + rewrite Hp, Hd in Hfar. simpl in Hfar.
      destruct (Rlt_dec d (IZR spacing)) as [Hlt|Hge]; [discriminate|lra].
    + destruct (paths !! c) as [p0|]; [|by eapply IH].
      destruct (get_path_len_mm p0 verts) as [err|d0]; [discriminate|].
      simpl in Hfar. destruct (Rlt_dec d0 (IZR spacing)); [discriminate|].
      by eapply IH.
Qed.

Lemma step_separated s radius spacing st st' centervert :
  step s radius spacing st centervert = Py.ok st' ->
  separated_within_cutoff s spacing (centers st) ->
  separated_within_cutoff s spacing (centers st').
Proof.
  unfold step. intros Hstep Hinv.
  destruct (single_source_shortest_path _ centervert _) as [err|paths] eqn:Hpaths;
    [discriminate|]. cbn [Py.bind] in Hstep.
  destruct (too_close paths (fidvert s) spacing (centers st)) as [err|scrap] eqn:Hfar;
    [discriminate|]. cbn [Py.bind] in Hstep.
  destruct scrap.
  - injection Hstep as <-. exact Hinv.
  - destruct (paint _ _ _ _ _) as [err|arr]; [discriminate|].
    injection Hstep as <-. cbn [centers].
    intros i j ci cj paths' p d Hij Hi Hj Hpaths' Hp Hd.
    destruct (decide (j < length (centers st))) as [Hlt|Hge].
    + rewrite lookup_app_l in Hi by lia. rewrite lookup_app_l in Hj by lia.
      by eapply (Hinv i j).
    + assert (j = length (centers st)) as ->.
      { apply lookup_lt_Some in Hj. rewrite length_app in Hj. simpl in Hj. lia. }
      rewrite lookup_app_l in Hi by lia.
      rewrite lookup_app_r, Nat.sub_diag in Hj by lia. injection Hj as <-.
      rewrite Hpaths in Hpaths'. injection Hpaths' as <-.
      eapply (too_close_false _ _ _ _ Hfar ci); [|done|done].
      by eapply list_elem_of_lookup_2.
Qed.

Lemma run_separated s radius spacing maxfails draws : forall st st',
  run s radius spacing maxfails draws st = Py.ok st' ->
  separated_within_cutoff s spacing (centers st) ->
  separated_within_cutoff s spacing (centers st').
Proof.
  induction draws as [|c draws IH]; intros st st' Hrun Hinv; simpl in Hrun.
  - by injection Hrun as <-.
  - destruct (decide (numfails st < maxfails)); [|by injection Hrun as <-].
    destruct (step s radius spacing st c) as [err|st1] eqn:Hstep; [discriminate|].
    cbn [Py.bind] in Hrun. eapply IH; [done|]. by eapply step_separated.
Qed.

(** C5 (amended): at every point of the sampling loop of a hemisphere,
    and so in the centers returned, an accepted center is at least
    [spacing] away from every center accepted before it that the search
    of [spacing/2 + 20] hops from it reaches, the distance being the sum
    of the world lengths of the edges of the path that search finds.
    Centers more hops apart are not compared. *)
Theorem tissot_centers_separated_within_cutoff (s : surface) (radius spacing : Z)
    (maxfails : nat) (draws : list nat) (st : state) :
  sample_hemi s radius spacing maxfails draws = Py.ok st ->
  separated_within_cutoff s spacing (centers st).
Proof.
  intros Hrun. eapply run_separated; [exact Hrun|].
  intros i j ci cj paths p d _ Hi. cbn [init centers] in Hi.
  by rewrite lookup_nil in Hi.
Qed.

Lemma foldM_add_length (f : R -> R) (l : list (nat * R)) : forall (a a' : list R),
  Py.foldM (fun (a : list R) (vd : nat * R) =>
              let* old := Py.getitem a vd.1 in
              Py.ok (<[vd.1 := (old + f vd.2)%R]> a)) l a = Py.ok a' ->
  length a' = length a.
Proof.
  induction l as [|vd l IH]; intros a a' Hf.
  - by injection Hf as <-.
  - cbn [Py.foldM] in Hf. unfold Py.getitem in Hf at 1.
    destruct (a !! vd.1) as [old|]; [|discriminate].
    cbn [Py.bind Py.ok] in Hf. rewrite (IH _ _ Hf). apply length_insert.
Qed.

Lemma paint_length s G radius c arr arr' :
  paint s G radius c arr = Py.ok arr' -> length arr' = length arr.
Proof.
  unfold paint. intros Hp.
  destruct (single_source_shortest_path G c (radius * 2)) as [err|paths]; [discriminate|].
  cbn [Py.bind] in Hp.
  destruct (Py.foldM _ (map_to_list paths) ([], ∅)) as [err|dm]; [discriminate|].
  cbn [Py.bind] in Hp. by apply foldM_add_length in Hp.
Qed.

Lemma step_cases s radius spacing st c st' :
  step s radius spacing st c = Py.ok st' ->
  length (tissot_array st') = length (tissot_array st) /\
  ((centers st' = centers st /\ cnum st' = cnum st /\ numfails st' = S (numfails st)) \/
   (centers st' = centers st ++ [c] /\ cnum st' = S (cnum st) /\ numfails st' = 0 /\
    exists paths,
      single_source_shortest_path (make_surface_graph (fidtri s)) c (spacing / 2 + 20)
        = Py.ok paths /\
      too_close paths (fidvert s) spacing (centers st) = Py.ok false)).
Proof.
  unfold step. cbv zeta. intros Hs.
  destruct (single_source_shortest_path _ c _) as [err|paths] eqn:Hp; [discriminate|].
  cbn [Py.bind] in Hs.
  destruct (too_close paths (fidvert s) spacing (centers st)) as [err|[]] eqn:Hc;
    [discriminate| |]; cbn [Py.bind] in Hs.
  - injection Hs as <-. simpl. split; [done|]. by left.
  - destruct (paint _ _ _ _ _) as [err|arr] eqn:Hpaint; [discriminate|].
    injection Hs as <-. simpl. split; [by eapply paint_length|].
    right. split; [done|]. split; [done|]. split; [done|]. by exists paths.
Qed.

(** *** The wide triangle: a run in which the second center is compared
    with the first *)

Lemma centers_of_Some r cs :
  centers_of r = Some cs -> exists st, r = Py.ok st /\ centers st = cs.
Proof.
  destruct r as [err|st]; [discriminate|]. intros H. exists st. split; [done|].
  by injection H.
Qed.

Lemma path_to_Some r target p :
  path_to r target = Some p -> exists paths, r = Py.ok paths /\ paths !! target = Some p.
Proof. destruct r as [err|paths]; [discriminate|]. intros H. by exists paths. Qed.

Lemma wide_first_step : centers_of (step wide 10 50 (init wide) 0) = Some [0].
Proof. vm_compute. reflexivity. Qed.

Lemma wide_search :
  path_to (single_source_shortest_path (make_surface_graph (fidtri wide)) 1 (50 / 2 + 20)) 0
  = Some [1; 0].
Proof. vm_compute. reflexivity. Qed.

Lemma wide_path_len : get_path_len_mm [1; 0] (fidvert wide) = Py.ok 100%R.
Proof.
  unfold get_path_len_mm, hop_len, Py.getitem. cbn. unfold Py.ok. f_equal.
  unfold dist, vsub, sqnorm.
  replace ((100 - 0) * (100 - 0) + (0 - 0) * (0 - 0) + (0 - 0) * (0 - 0))%R
    with (100 * 100)%R by lra.
  rewrite sqrt_square by lra. lra.
Qed.

Lemma wide_paint (a b c : R) :
  match paint wide (make_surface_graph (fidtri wide)) 10 1 [a; b; c] with
  | inr _ => true
  | inl _ => false
  end = true.
Proof. vm_compute. reflexivity. Qed.

Lemma wide_run :
  exists st, sample_hemi wide 10 50 100 [0; 1] = Py.ok st /\ centers st = [0; 1].
Proof.
  apply centers_of_Some.
  unfold sample_hemi. cbn [run]. rewrite decide_True by (simpl; lia).
  destruct (centers_of_Some _ _ wide_first_step) as (st1 & Hstep1 & Hc1).
  rewrite Hstep1. cbn [Py.bind Py.ok].
  destruct (step_cases _ _ _ _ _ _ Hstep1) as [Hlen [(Hcs & _)|(_ & _ & Hnf & _)]].
  { rewrite Hc1 in Hcs. discriminate. }
  rewrite decide_True by lia.
  unfold step. cbv zeta.
  destruct (path_to_Some _ _ _ wide_search) as (paths & -> & Hp0).
  cbn [Py.bind Py.ok]. rewrite Hc1. cbn [too_close]. rewrite Hp0, wide_path_len.
  cbn [Py.bind Py.ok]. destruct (Rlt_dec 100 (IZR 50)) as [Hlt|_]; [exfalso; lra|].
  cbn [Py.bind Py.ok].
  cbn [init tissot_array] in Hlen. rewrite length_replicate in Hlen.
  destruct (tissot_array st1) as [|a [|b [|c [|x arr]]]]; try discriminate.
  pose proof (wide_paint a b c) as Hpaint.
  destruct (paint wide (make_surface_graph (fidtri wide)) 10 1 [a; b; c]) as [err|arr];
    [discriminate|].
  reflexivity.
Qed.

(** *** The strip *)

Lemma strip_run_centers :
  centers_of (sample_hemi strip 10 50 100 [0; 92]) = Some [0; 92].
Proof. vm_compute. reflexivity. Qed.

Lemma strip_run :
  exists st, sample_hemi strip 10 50 100 [0; 92] = Py.ok st /\ centers st = [0; 92].
Proof.
  pose proof strip_run_centers as H.
  destruct (sample_hemi strip 10 50 100 [0; 92]) as [err|st]; [discriminate|].
  exists st. split; [done|]. by injection H.
Qed.

Lemma strip_shortest_path :
  path_to (all_shortest_paths (make_surface_graph (fidtri strip)) 92) 0 = Some strip_path.
Proof. vm_compute. reflexivity. Qed.

Lemma strip_getitem a :
  a < 93 -> Py.getitem (fidvert strip) a = Py.ok (strip_vertex a).
Proof.
  intros Ha. unfold Py.getitem, strip. cbn [fidvert].
  change (map ?f ?l) with (f <$> l).
  rewrite list_lookup_fmap, lookup_seq_lt by done. done.
Qed.

Lemma strip_hop_len b :
  b + 2 < 93 -> hop_len (fidvert strip) (b + 2, b) = Py.ok 1%R.
Proof.
  intros Hb. unfold hop_len. cbn [fst snd].
  rewrite !strip_getitem by lia. cbn [Py.bind Py.ok]. f_equal.
  unfold dist, strip_vertex, vsub, sqnorm.
  replace ((b + 2) mod 2) with (b mod 2)
    by (rewrite <- (Nat.Div0.add_mod_idemp_r b 2 2); simpl; by rewrite Nat.add_0_r).
  rewrite plus_INR. simpl (INR 2).
  match goal with |- sqrt ?e = _ => replace e with 1%R; [apply sqrt_1|] end.
  field.
Qed.

Lemma Rsum_replicate n x : Rsum (replicate n x) = (INR n * x)%R.
Proof.
  induction n as [|n IH]; [simpl; lra|].
  cbn [replicate Rsum fold_right]. fold (Rsum (replicate n x)).
  rewrite IH, S_INR. lra.
Qed.

Lemma strip_path_hops :
  Forall (fun ab : nat * nat => ab.1 = ab.2 + 2 /\ ab.1 < 93)
         (zip (removelast strip_path) (tail strip_path)).
Proof.
  apply Forall_forall. intros [a b] Hab.
  apply list_elem_of_In in Hab. vm_compute in Hab.
  repeat (destruct Hab as [Hab|Hab]; [injection Hab as <- <-; simpl; lia|]). done.
Qed.

Lemma get_path_len_mm_hops a b path verts :
  get_path_len_mm (a :: b :: path) verts =
  let* hops := Py.forM (hop_len verts)
                       (zip (removelast (a :: b :: path)) (tail (a :: b :: path))) in
  Py.ok (Rsum hops).
Proof. reflexivity. Qed.

Lemma strip_path_len :
  get_path_len_mm strip_path (fidvert strip) = Py.ok (INR 46 * 1)%R.
Proof.
  assert (Py.forM (hop_len (fidvert strip)) (zip (removelast strip_path) (tail strip_path))
          = Py.ok (map (fun _ => 1%R) (zip (removelast strip_path) (tail strip_path))))
    as Hhops.
  { apply forM_ok_map. intros [a b] Hab.
    pose proof strip_path_hops as Hall.
    rewrite Forall_forall in Hall. destruct (Hall _ Hab) as [Heq Hlt].
    simpl in Heq, Hlt. subst a. by apply strip_hop_len. }
  change strip_path with (92 :: 90 :: map (fun k => 92 - 2 * k) (seq 2 45)) at 1.
  rewrite get_path_len_mm_hops.
  change (92 :: 90 :: map (fun k => 92 - 2 * k) (seq 2 45)) with strip_path.
  rewrite Hhops. cbn [Py.bind Py.ok]. f_equal.
  rewrite <- Rsum_replicate. f_equal.
Qed.

(** C5, as stated, fails: with the default parameters on the strip, the
    vertices 0 and 92 are both accepted; they are 46 hops apart, one more
    than the search of [spacing/2 + 20] = 45 hops covers, and the shortest
    path between them is 46 mm long, less than the spacing of 50 mm. *)
Lemma tissot_separation_counterexample :
  ~ centers_always_separated strip 10 50 100.
Proof.
  intros Hsep. destruct strip_run as (st & Hrun & Hcenters).
  pose proof strip_shortest_path as Hpath.
  destruct (all_shortest_paths (make_surface_graph (fidtri strip)) 92)
    as [err|paths] eqn:Hpaths; [discriminate|].
  cbn [path_to] in Hpath.
  pose proof (Hsep [0; 92] st Hrun 0 1 0 92 paths strip_path (INR 46 * 1)%R) as H.
  rewrite Hcenters in H.
  specialize (H ltac:(lia) eq_refl eq_refl Hpaths Hpath strip_path_len).
  simpl in H. lra.
Qed.

Lemma tissot_centers_separated_within_cutoff_witness :
  exists st paths p d,
    sample_hemi wide 10 50 100 [0; 1] = Py.ok st /\
    centers st !! 0 = Some 0 /\ centers st !! 1 = Some 1 /\
    single_source_shortest_path (make_surface_graph (fidtri wide)) 1 (50 / 2 + 20)
      = Py.ok paths /\
    paths !! 0 = Some p /\
    get_path_len_mm p (fidvert wide) = Py.ok d /\
    separated_within_cutoff wide 50 (centers st) /\
    (IZR 50 <= d)%R.
Proof.
  destruct wide_run as (st & Hrun & Hcs).
  destruct (path_to_Some _ _ _ wide_search) as (paths & Hpaths & Hp0).
  assert (centers st !! 0 = Some 0) as H0 by (by rewrite Hcs).
  assert (centers st !! 1 = Some 1) as H1 by (by rewrite Hcs).
  assert (0 < 1) as Hlt by lia.
  exists st, paths, [1; 0], 100%R.
  split; [exact Hrun|]. split; [exact H0|]. split; [exact H1|].
  split; [exact Hpaths|]. split; [exact Hp0|]. split; [exact wide_path_len|].
  split; [exact (tissot_centers_separated_within_cutoff wide 10 50 100 [0; 1] st Hrun)|].
  exact (tissot_centers_separated_within_cutoff wide 10 50 100 [0; 1] st Hrun
           0 1 0 1 paths [1; 0] 100%R Hlt H0 H1 Hpaths Hp0 wide_path_len).
Defined.

End TissotFacts.

(* ===================================================================== *)
(** * Further properties of the code *)
(* ===================================================================== *)

Section UnmaskFacts.
Import Unmask.
Context {A : Type} (zero : A).

Lemma scatter_length (sel : list bool) (vals : list A) :
  length (scatter zero sel vals) = length sel.
Proof.
  revert vals. induction sel as [|[] sel IH]; intros vals; simpl; [done| |].
  - destruct vals; simpl; by rewrite IH.
  - by rewrite IH.
Qed.

Lemma count_true_cons b sel :
  count_true (b :: sel) = (if b then S (count_true sel) else count_true sel).
Proof. unfold count_true. rewrite filter_cons. by destruct b. Qed.

Lemma select_scatter (sel : list bool) (vals : list A) :
  length vals = count_true sel -> select sel (scatter zero sel vals) = vals.
Proof.
  revert vals. induction sel as [|b sel IH]; intros vals; rewrite ?count_true_cons.
  - destruct vals; [done|]. simpl. unfold count_true. simpl. lia.
  - destruct b; simpl.
    + destruct vals as [|v vals]; [simpl; lia|]. simpl. intros Hlen.
      f_equal. apply IH. lia.
    + apply IH.
Qed.

Lemma scatter_lookup_false (sel : list bool) (vals : list A) (i : nat) :
  sel !! i = Some false -> scatter zero sel vals !! i = Some zero.
Proof.
  revert vals i. induction sel as [|b sel IH]; intros vals i; [done|].
  destruct i as [|i]; simpl.
  - intros [= ->]. done.
  - intros Hi. destruct b; [destruct vals|]; simpl; by apply IH.
Qed.

Lemma scatter_select (mask : list Z) (vol : list A) :
  length vol = length mask ->
  scatter zero (map (fun m => (0 <? m)%Z) mask)
          (select (map (fun m => (0 <? m)%Z) mask) vol)
  = zero_outside zero mask vol.
Proof.
  revert vol. induction mask as [|m mask IH]; intros vol Hlen; [done|].
  destruct vol as [|x vol]; [done|]. simpl in Hlen. unfold zero_outside. simpl.
  destruct (0 <? m)%Z; simpl; f_equal; apply IH; lia.
Qed.

Lemma select_length (sel : list bool) (a : list A) :
  length a = length sel -> length (select sel a) = count_true sel.
Proof.
  revert a. induction sel as [|b sel IH]; intros a Hlen; [by destruct a|].
  destruct a as [|x a]; [done|]. simpl in Hlen. rewrite count_true_cons.
  destruct b; simpl; rewrite IH; lia.
Qed.

(** X1: for data of one axis with as many entries as the mask has positive
    entries, [unmask] returns an array of the size of the mask that holds
    the data, in order, at the positive entries of the mask (masking it
    again gives the data back) and zero everywhere else. *)
Theorem unmask_round_trip (mask : list Z) (data : list A) :
  length data = count_true (map (fun m => (0 <? m)%Z) mask) ->
  exists out,
    unmask zero mask (Arr1 data) = Py.ok (Arr1 out) /\
    length out = length mask /\
    select (map (fun m => (0 <? m)%Z) mask) out = data /\
    forall i m, mask !! i = Some m -> (m <= 0)%Z -> out !! i = Some zero.
Proof.
  intros Hlen. exists (scatter zero (map (fun m => (0 <? m)%Z) mask) data).
  unfold unmask, assign_masked. rewrite decide_True by done. cbn [Py.bind Py.ok].
  split; [done|]. split; [by rewrite scatter_length, length_map|].
  split; [by apply select_scatter|].
  intros i m Hi Hm. apply scatter_lookup_false.
  change (map ?f ?l) with (f <$> l). rewrite list_lookup_fmap, Hi. simpl.
  f_equal. apply Z.ltb_ge. lia.
Qed.

(** X2: masking a volume and unmasking the result gives the volume back
    with the voxels outside the mask set to zero. *)
Theorem unmask_of_masked (mask : list Z) (vol : list A) :
  length vol = length mask ->
  unmask zero mask (Arr1 (select (map (fun m => (0 <? m)%Z) mask) vol))
  = Py.ok (Arr1 (zero_outside zero mask vol)).
Proof.
  intros Hlen. unfold unmask, assign_masked.
  rewrite decide_True by (apply select_length; by rewrite length_map).
  cbn [Py.bind Py.ok]. by rewrite scatter_select.
Qed.

(** X3: data of one axis whose length is neither the number of positive
    mask entries nor 1 is refused with a ValueError. *)
Theorem unmask_wrong_length (mask : list Z) (data : list A) :
  length data <> count_true (map (fun m => (0 <? m)%Z) mask) ->
  length data <> 1 ->
  unmask zero mask (Arr1 data) = Py.raise Py.ValueError.
Proof.
  intros Hk H1. unfold unmask, assign_masked. rewrite decide_False by done.
  destruct data as [|x [|y data]]; simpl in *; done.
Qed.

(** X4: for data of two axes whose rows have as many entries as the mask
    has positive entries, [unmask] returns one row of the size of the mask
    per row of the data, each holding its data row at the positive entries
    of the mask. *)
Theorem unmask_rows_round_trip (mask : list Z) (rows : list (list A)) :
  Forall (fun row => length row = count_true (map (fun m => (0 <? m)%Z) mask)) rows ->
  exists out,
    unmask zero mask (Arr2 rows) = Py.ok (Arr2 out) /\
    Forall2 (fun row orow =>
               length orow = length mask /\
               select (map (fun m => (0 <? m)%Z) mask) orow = row) rows out.
Proof.
  intros Hrows. unfold unmask.
  destruct (forM_Forall2 (assign_masked zero (map (fun m => (0 <? m)%Z) mask))
              (fun row orow => length orow = length mask /\
                 select (map (fun m => (0 <? m)%Z) mask) orow = row) rows)
    as (out & Hout & HF).
  - intros row Hrow. rewrite Forall_forall in Hrows. specialize (Hrows row Hrow).
    exists (scatter zero (map (fun m => (0 <? m)%Z) mask) row).
    unfold assign_masked. rewrite decide_True by done.
    split; [done|]. split; [by rewrite scatter_length, length_map|].
    by apply select_scatter.
  - exists out. rewrite Hout. done.
Qed.

End UnmaskFacts.

Lemma unmask_round_trip_witness :
  length [7%Z; 9%Z] = Unmask.count_true (map (fun m => (0 <? m)%Z) [1; 0; 2]%Z) /\
  exists out,
    Unmask.unmask 0%Z [1; 0; 2]%Z (Unmask.Arr1 [7; 9]%Z) = Py.ok (Unmask.Arr1 out) /\
    length out = length [1; 0; 2]%Z /\
    Unmask.select (map (fun m => (0 <? m)%Z) [1; 0; 2]%Z) out = [7; 9]%Z /\
    forall i m, [1; 0; 2]%Z !! i = Some m -> (m <= 0)%Z -> out !! i = Some 0%Z.
Proof.
  split; [reflexivity|].
  apply (unmask_round_trip 0%Z [1; 0; 2]%Z [7; 9]%Z). reflexivity.
Defined.

Lemma unmask_of_masked_witness :
  length [7%Z; 8%Z; 9%Z] = length [1; 0; 2]%Z /\
  Unmask.unmask 0%Z [1; 0; 2]%Z
    (Unmask.Arr1 (Unmask.select (map (fun m => (0 <? m)%Z) [1; 0; 2]%Z) [7; 8; 9]%Z))
  = Py.ok (Unmask.Arr1 (Unmask.zero_outside 0%Z [1; 0; 2]%Z [7; 8; 9]%Z)).
Proof.
  split; [reflexivity|].
  apply (unmask_of_masked 0%Z [1; 0; 2]%Z [7; 8; 9]%Z). reflexivity.
Defined.

Lemma unmask_wrong_length_witness :
  length [7%Z; 8%Z; 9%Z] <> Unmask.count_true (map (fun m => (0 <? m)%Z) [1; 0; 2]%Z) /\
  length [7%Z; 8%Z; 9%Z] <> 1 /\
  Unmask.unmask 0%Z [1; 0; 2]%Z (Unmask.Arr1 [7; 8; 9]%Z) = Py.raise Py.ValueError.
Proof.
  split; [vm_compute; lia|]. split; [simpl; lia|].
  apply (unmask_wrong_length 0%Z [1; 0; 2]%Z [7; 8; 9]%Z); [vm_compute; lia|simpl; lia].
Defined.

Lemma unmask_rows_round_trip_witness :
  Forall (fun row => length row = Unmask.count_true (map (fun m => (0 <? m)%Z) [1; 0; 2]%Z))
         [[7; 9]; [3; 4]]%Z /\
  exists out,
    Unmask.unmask 0%Z [1; 0; 2]%Z (Unmask.Arr2 [[7; 9]; [3; 4]]%Z) = Py.ok (Unmask.Arr2 out) /\
    Forall2 (fun row orow =>
               length orow = length [1; 0; 2]%Z /\
               Unmask.select (map (fun m => (0 <? m)%Z) [1; 0; 2]%Z) orow = row)
            [[7; 9]; [3; 4]]%Z out.
Proof.
  assert (Forall (fun row => length row
                    = Unmask.count_true (map (fun m => (0 <? m)%Z) [1; 0; 2]%Z))
                 [[7; 9]; [3; 4]]%Z) as H.
  { repeat constructor. }
  split; [exact H|].
  apply (unmask_rows_round_trip 0%Z [1; 0; 2]%Z [[7; 9]; [3; 4]]%Z H).
Defined.

Section RoiVertsFacts.
Import RoiMasks RoiVerts.

Lemma roi_verts_fold (e : env) (names : list string) :
  forall d0 : gmap string (list nat),
    (forall name, name ∈ names -> exists v, get_roi e name = Py.ok v) ->
    exists d,
      Py.foldM (fun (roidict : gmap string (list nat)) name =>
                  let* verts := get_roi e name in
                  Py.ok (<[name := verts]> roidict)) names d0 = Py.ok d /\
      forall name,
        (name ∈ names -> exists v, get_roi e name = Py.ok v /\ d !! name = Some v) /\
        (name ∉ names -> d !! name = d0 !! name).
Proof.
  induction names as [|n names IH]; intros d0 Hall.
  - exists d0. split; [done|]. intros name. split; [|done].
    intros H. by apply elem_of_nil in H.
  - destruct (Hall n) as [v Hv]; [left|].
    destruct (IH (<[n := v]> d0)) as (d & Hd & Hlook).
    { intros name Hname. apply Hall. by right. }
    exists d. split.
    { cbn [Py.foldM]. rewrite Hv. cbn [Py.bind Py.ok]. exact Hd. }
    intros name. destruct (Hlook name) as [Hin Hout]. split.
    + intros Hname. destruct (decide (name ∈ names)) as [Hn|Hn]; [by apply Hin|].
      apply elem_of_cons in Hname as [->|Hname]; [|done].
      exists v. split; [done|]. rewrite Hout by done. apply lookup_insert_eq.
    + intros Hname. apply not_elem_of_cons in Hname as [Hne Hname].
      rewrite Hout by done. by apply lookup_insert_ne.
Qed.

(** X5: when the ROI pack holds every name asked for, [get_roi_verts]
    returns a dict whose keys are exactly these names, each mapped to the
    vertices the pack returns for it. *)
Theorem get_roi_verts_lookup (e : env) (roi : roi_arg) :
  (forall name, name ∈ resolve_roiList e roi -> exists v, get_roi e name = Py.ok v) ->
  exists d,
    get_roi_verts e roi = Py.ok d /\
    forall name,
      (name ∈ resolve_roiList e roi ->
         exists v, get_roi e name = Py.ok v /\ d !! name = Some v) /\
      (name ∉ resolve_roiList e roi -> d !! name = None).
Proof.
  intros Hall. destruct (roi_verts_fold e (resolve_roiList e roi) ∅ Hall) as (d & Hd & Hl).
  exists d. split; [exact Hd|]. intros name. destruct (Hl name) as [Hin Hout].
  split; [done|]. intros Hname. rewrite Hout by done. apply lookup_empty.
Qed.

Lemma roi_verts_fold_missing (e : env) (before after : list string) (bad : string)
    (err : Py.exn) :
  (forall name, name ∈ before -> exists v, get_roi e name = Py.ok v) ->
  get_roi e bad = Py.raise err ->
  forall d0 : gmap string (list nat),
    Py.foldM (fun (roidict : gmap string (list nat)) name =>
                let* verts := get_roi e name in
                Py.ok (<[name := verts]> roidict)) (before ++ bad :: after) d0
    = Py.raise err.
Proof.
  intros Hbefore Hbad. induction before as [|n before IH]; intros d0.
  - cbn [app Py.foldM]. rewrite Hbad. done.
  - destruct (Hbefore n) as [v Hv]; [left|].
    cbn [app Py.foldM]. rewrite Hv. cbn [Py.bind Py.ok].
    apply IH. intros name Hname. apply Hbefore. by right.
Qed.

(** X6: a name the ROI pack does not hold is not skipped: the error of the
    first such name leaves [get_roi_verts]. *)
Theorem get_roi_verts_missing (e : env) (roi : roi_arg)
    (before after : list string) (bad : string) (err : Py.exn) :
  resolve_roiList e roi = before ++ bad :: after ->
  (forall name, name ∈ before -> exists v, get_roi e name = Py.ok v) ->
  get_roi e bad = Py.raise err ->
  get_roi_verts e roi = Py.raise err.
Proof.
  intros Hnames Hbefore Hbad. unfold get_roi_verts. rewrite Hnames.
  by apply roi_verts_fold_missing.
Qed.

End RoiVertsFacts.

Lemma get_roi_verts_lookup_witness :
  (forall name, name ∈ RoiMasks.resolve_roiList RoiMasks.overlap_env RoiMasks.AllRois ->
     exists v, RoiMasks.get_roi RoiMasks.overlap_env name = Py.ok v) /\
  exists d,
    RoiVerts.get_roi_verts RoiMasks.overlap_env RoiMasks.AllRois = Py.ok d /\
    forall name,
      (name ∈ RoiMasks.resolve_roiList RoiMasks.overlap_env RoiMasks.AllRois ->
         exists v, RoiMasks.get_roi RoiMasks.overlap_env name = Py.ok v /\ d !! name = Some v) /\
      (name ∉ RoiMasks.resolve_roiList RoiMasks.overlap_env RoiMasks.AllRois ->
         d !! name = None).
Proof.
  assert (forall name,
            name ∈ RoiMasks.resolve_roiList RoiMasks.overlap_env RoiMasks.AllRois ->
            exists v, RoiMasks.get_roi RoiMasks.overlap_env name = Py.ok v) as H.
  { intros name Hname. simpl in Hname.
    apply elem_of_cons in Hname as [->|Hname]; [by eexists|].
    apply list_elem_of_singleton in Hname as ->. by eexists. }
  split; [exact H|].
  apply (get_roi_verts_lookup RoiMasks.overlap_env RoiMasks.AllRois H).
Defined.

Lemma get_roi_verts_missing_witness :
  RoiMasks.resolve_roiList RoiMasks.overlap_env (RoiMasks.Rois ["V1"; "V9"; "V2"]%string)
    = ["V1"%string] ++ "V9"%string :: ["V2"%string] /\
  (forall name, name ∈ ["V1"%string] ->
     exists v, RoiMasks.get_roi RoiMasks.overlap_env name = Py.ok v) /\
  RoiMasks.get_roi RoiMasks.overlap_env "V9" = Py.raise Py.LookupFailure /\
  RoiVerts.get_roi_verts RoiMasks.overlap_env (RoiMasks.Rois ["V1"; "V9"; "V2"]%string)
    = Py.raise Py.LookupFailure.
Proof.
  assert (forall name, name ∈ ["V1"%string] ->
            exists v, RoiMasks.get_roi RoiMasks.overlap_env name = Py.ok v) as H.
  { intros name ->%list_elem_of_singleton. by eexists. }
  split; [reflexivity|]. split; [exact H|]. split; [reflexivity|].
  apply (get_roi_verts_missing RoiMasks.overlap_env
           (RoiMasks.Rois ["V1"; "V9"; "V2"]%string) ["V1"%string] ["V2"%string]
           "V9"%string Py.LookupFailure eq_refl H eq_refl).
Defined.

Section SurfaceGraphMore.
Import Mesh SurfaceGraph.

Lemma surface_graph_edge_cases (tris : list tri) (a b : nat) :
  has_edge (make_surface_graph tris) a b <->
  exists x y z, (x, y, z) ∈ tris /\
    ((a = x /\ b = y) \/ (a = y /\ b = x) \/
     (a = y /\ b = z) \/ (a = z /\ b = y) \/
     (a = x /\ b = z) \/ (a = z /\ b = x)).
Proof.
  rewrite has_edge_make_surface_graph, !elem_of_iter_surfedges. split.
  - intros [(x & y & z & Ht & H)|(x & y & z & Ht & H)];
      exists x, y, z; (split; [done|]); tauto.
  - intros (x & y & z & Ht & H).
    destruct H as [H|[H|[H|[H|[H|H]]]]];
      [left|right|left|right|left|right]; exists x, y, z; (split; [done|]); tauto.
Qed.

(** X7: two vertices are adjacent in the graph of [make_surface_graph]
    exactly when some triangle names them at two different corners. *)
Theorem surface_graph_edge_iff (tris : list tri) (a b : nat) :
  has_edge (make_surface_graph tris) a b <->
  exists x y z, (x, y, z) ∈ tris /\
    ((a = x /\ b = y) \/ (a = y /\ b = x) \/
     (a = y /\ b = z) \/ (a = z /\ b = y) \/
     (a = x /\ b = z) \/ (a = z /\ b = x)).
Proof. apply surface_graph_edge_cases. Qed.

Lemma has_edge_is_node (tris : list tri) (a b : nat) :
  has_edge (make_surface_graph tris) a b ->
  is_Some (make_surface_graph tris !! a) /\ is_Some (make_surface_graph tris !! b).
Proof.
  intros Hab. pose proof (make_surface_graph_symmetric tris a b Hab) as Hba.
  destruct Hab as (s & Hs & _). destruct Hba as (s' & Hs' & _).
  rewrite Hs, Hs'. split; eauto.
Qed.

Lemma add_node_is_Some n g v :
  is_Some (add_node n g !! v) <-> v = n \/ is_Some (g !! v).
Proof.
  unfold add_node. destruct (g !! n) eqn:E.
  - split; [tauto|]. intros [->|H]; [by rewrite E|done].
  - rewrite lookup_insert_is_Some. destruct (decide (n = v)); naive_solver.
Qed.

Lemma add_edge_is_Some g u w v :
  is_Some (add_edge g (u, w) !! v) <-> v = u \/ v = w \/ is_Some (g !! v).
Proof.
  unfold add_edge. rewrite !lookup_insert_is_Some, !add_node_is_Some.
  destruct (decide (w = v)), (decide (u = v)); naive_solver.
Qed.

Lemma add_edges_from_is_Some es g v :
  is_Some (add_edges_from g es !! v) <->
  is_Some (g !! v) \/ exists e, e ∈ es /\ (v = e.1 \/ v = e.2).
Proof.
  unfold add_edges_from. revert g.
  induction es as [|[u w] es IH]; intros g; cbn [fold_left].
  - split; [tauto|]. intros [H|(e & He & _)]; [done|]. by apply elem_of_nil in He.
  - rewrite IH, add_edge_is_Some. split.
    + intros [[->|[->|H]]|(e & He & H)].
      * right. exists (u, w). split; [left|]. by left.
      * right. exists (u, w). split; [left|]. by right.
      * by left.
      * right. exists e. split; [by right|done].
    + intros [H|(e & He & H)]; [tauto|].
      apply elem_of_cons in He as [->|He]; [simpl in H; tauto|].
      right. eauto.
Qed.

Lemma surface_graph_nodes_aux (tris : list tri) :
  (forall v, is_Some (make_surface_graph tris !! v) <-> v ∈ ravel tris) /\
  (forall a b, has_edge (make_surface_graph tris) a b ->
               is_Some (make_surface_graph tris !! b)).
Proof.
  split; [|intros a b H; by apply (has_edge_is_node tris a b)].
  intros v. unfold make_surface_graph. rewrite add_edges_from_is_Some.
  unfold ravel. rewrite list_elem_of_In, in_flat_map. split.
  - intros [H|([a b] & He & H)].
    { destruct H as [s Hs]. by rewrite lookup_empty in Hs. }
    apply elem_of_iter_surfedges in He as (x & y & z & Ht & He).
    exists (x, y, z). split; [by apply list_elem_of_In|].
    simpl in *. intuition (subst; tauto).
  - intros ([[x y] z] & Ht & Hv). apply list_elem_of_In in Ht. right.
    simpl in Hv. destruct Hv as [<-|[<-|[<-|[]]]].
    + exists (x, y). split; [|by left]. apply elem_of_iter_surfedges.
      exists x, y, z. tauto.
    + exists (x, y). split; [|by right]. apply elem_of_iter_surfedges.
      exists x, y, z. tauto.
    + exists (y, z). split; [|by right]. apply elem_of_iter_surfedges.
      exists x, y, z. tauto.
Qed.

(** X8: the nodes of the graph are exactly the vertices that occur in a
    triangle, and every neighbour of a node is a node. *)
Theorem surface_graph_nodes (tris : list tri) :
  (forall v, is_Some (make_surface_graph tris !! v) <-> v ∈ ravel tris) /\
  (forall a b, has_edge (make_surface_graph tris) a b ->
               is_Some (make_surface_graph tris !! b)).
Proof. apply surface_graph_nodes_aux. Qed.

Lemma node_has_neighbour (tris : list tri) (v : nat) :
  v ∈ ravel tris -> exists w, has_edge (make_surface_graph tris) v w.
Proof.
  unfold ravel. intros Hv. apply list_elem_of_In, in_flat_map in Hv as ([[x y] z] & Ht & Hv).
  apply list_elem_of_In in Ht. simpl in Hv. destruct Hv as [<-|[<-|[<-|[]]]].
  - exists y. apply surface_graph_edge_cases. exists x, y, z. tauto.
  - exists x. apply surface_graph_edge_cases. exists x, y, z. tauto.
  - exists y. apply surface_graph_edge_cases. exists x, y, z. tauto.
Qed.

(** X9: in the neighbour sets of the curvature smoother, [b] is a
    neighbour of [a] exactly when some triangle has both as corners. *)
Theorem faces_neighbour_iff (polys : list tri) (a b : nat) :
  has_edge (build_faces polys) a b <->
  exists t, t ∈ polys /\ a ∈ corners t /\ b ∈ corners t.
Proof. apply has_edge_build_faces. Qed.

End SurfaceGraphMore.

Section CurvatureMore.
Import Mesh SurfaceGraph Curvature.

Lemma build_faces_lookup_self (polys : list tri) (i : nat) (s : gset nat) :
  build_faces polys !! i = Some s -> i ∈ s.
Proof.
  unfold build_faces.
  assert (forall (faces : gmap nat (gset nat)),
            (forall i s, faces !! i = Some s -> i ∈ s) ->
            forall i s, fold_left add_face polys faces !! i = Some s -> i ∈ s) as Hgen.
  { induction polys as [|p polys IH]; intros faces Hinv; [exact Hinv|].
    cbn [fold_left]. apply IH. unfold add_face.
    assert (forall (qs : list nat) (f : gmap nat (gset nat)),
              (forall q, q ∈ qs -> q ∈ corners p) ->
              (forall i s, f !! i = Some s -> i ∈ s) ->
              forall i s, fold_left (add_face_pt p) qs f !! i = Some s -> i ∈ s) as Hpts.
    { induction qs as [|q qs IHp]; intros f Hsub Hf; [exact Hf|].
      cbn [fold_left]. apply IHp; [intros q' Hq'; apply Hsub; by right|].
      intros j sj. unfold add_face_pt. destruct (decide (q = j)) as [->|Hne].
      - rewrite lookup_insert_eq. intros [= <-].
        apply elem_of_union_r, elem_of_list_to_set, Hsub. left.
      - rewrite lookup_insert_ne by done. apply Hf. }
    apply Hpts; [done|exact Hinv]. }
  apply Hgen. intros j sj Hj. by rewrite lookup_empty in Hj.
Qed.

Lemma build_faces_is_Some (polys : list tri) (i : nat) :
  is_Some (build_faces polys !! i) <-> exists t, t ∈ polys /\ i ∈ corners t.
Proof.
  split.
  - intros [s Hs]. pose proof (build_faces_lookup_self polys i s Hs) as Hi.
    assert (has_edge (build_faces polys) i i) as He by (exists s; done).
    apply has_edge_build_faces in He as (t & Ht & Hc & _). eauto.
  - intros (t & Ht & Hc).
    assert (has_edge (build_faces polys) i i) as (s & Hs & _).
    { apply has_edge_build_faces. eauto. }
    eauto.
Qed.

Lemma getpts_self (polys : list tri) (n i : nat) :
  is_Some (build_faces polys !! i) -> i ∈ getpts (build_faces polys) n i.
Proof.
  intros [s Hs]. pose proof (build_faces_lookup_self polys i s Hs) as Hi.
  induction n as [|n IH]; simpl; rewrite Hs.
  - by apply elem_of_elements.
  - apply list_elem_of_In, in_flat_map. exists i.
    split; apply list_elem_of_In; [by apply elem_of_elements|exact IH].
Qed.

Lemma getpts_mono (polys : list tri) (n : nat) : forall i j,
  j ∈ getpts (build_faces polys) n i -> j ∈ getpts (build_faces polys) (S n) i.
Proof.
  induction n as [|n IH]; intros i j.
  - cbn [getpts]. destruct (build_faces polys !! i) as [s|] eqn:Hs; [|done].
    intros Hj. apply list_elem_of_In, in_flat_map. exists i.
    pose proof (build_faces_lookup_self polys i s Hs) as Hi.
    split; [by apply list_elem_of_In, elem_of_elements|].
    apply list_elem_of_In. rewrite Hs. exact Hj.
  - intros Hj. cbn [getpts] in Hj. cbn [getpts].
    destruct (build_faces polys !! i) as [s|] eqn:Hs; [|done].
    apply list_elem_of_In, in_flat_map in Hj as (p & Hp & Hj).
    apply list_elem_of_In, in_flat_map. exists p. split; [done|].
    apply list_elem_of_In, IH, list_elem_of_In, Hj.
Qed.

(** X10: for every hop count, a vertex that occurs in a triangle is among
    its own neighbours (its own curvature enters its smoothed value), and
    a vertex that occurs in no triangle has no neighbours at all. *)
Theorem neighbors_of_self (polys : list tri) (n i : nat) :
  ((exists t, t ∈ polys /\ i ∈ corners t) ->
     i ∈ neighbors_of (build_faces polys) n i) /\
  ((forall t, t ∈ polys -> i ∉ corners t) ->
     neighbors_of (build_faces polys) n i = []).
Proof.
  split.
  - intros Ht. unfold neighbors_of.
    apply elem_of_elements, elem_of_list_to_set, getpts_self.
    by apply build_faces_is_Some.
  - intros Hno. unfold neighbors_of.
    assert (build_faces polys !! i = None) as Hnone.
    { apply eq_None_not_Some. rewrite build_faces_is_Some.
      intros (t & Ht & Hc). by apply (Hno t). }
    destruct n; simpl; rewrite Hnone; simpl; apply elements_empty.
Qed.

Lemma neighbors_of_mono_aux (polys : list tri) (n i j : nat) :
  j ∈ neighbors_of (build_faces polys) n i ->
  j ∈ neighbors_of (build_faces polys) (S n) i.
Proof.
  unfold neighbors_of. rewrite !elem_of_elements, !elem_of_list_to_set.
  apply getpts_mono.
Qed.

(** X11: the neighbourhood only grows with the hop count. *)
Theorem neighbors_of_mono (polys : list tri) (n i j : nat) :
  j ∈ neighbors_of (build_faces polys) n i ->
  j ∈ neighbors_of (build_faces polys) (S n) i.
Proof. apply neighbors_of_mono_aux. Qed.

Lemma neighbors_of_mono_witness :
  0 ∈ neighbors_of (build_faces (polys corner_hemi)) 0 0 /\
  0 ∈ neighbors_of (build_faces (polys corner_hemi)) 1 0.
Proof.
  assert (0 ∈ neighbors_of (build_faces (polys corner_hemi)) 0 0) as H.
  { rewrite corner_hemi_neighbors. set_solver. }
  split; [exact H|].
  apply (neighbors_of_mono (polys corner_hemi) 0 0 0 H).
Defined.

Lemma Rsum_abs_le (l : list R) (M : R) :
  (forall x, x ∈ l -> (Rabs x <= M)%R) -> (Rabs (Rsum l) <= INR (length l) * M)%R.
Proof.
  induction l as [|x l IH]; intros Hl.
  - simpl. rewrite Rabs_R0. lra.
  - cbn [Rsum fold_right length]. fold (Rsum l). rewrite S_INR.
    pose proof (Rabs_triang x (Rsum l)) as Htri.
    assert (Rabs x <= M)%R by (apply Hl; left).
    assert (Rabs (Rsum l) <= INR (length l) * M)%R
      by (apply IH; intros y Hy; apply Hl; by right).
    lra.
Qed.

Lemma weight_bounds smooth pt q :
  smooth <> 0%R -> (0 < weight smooth pt q <= 1)%R.
Proof.
  intros Hs. unfold weight. split; [apply exp_pos|].
  rewrite <- exp_0. destruct (vsub q pt) as [[dx dy] dz]. unfold sqnorm.
  assert (0 <= (dx * dx + dy * dy + dz * dz) / (2 * smooth ^ 2))%R as Hq.
  { apply Rmult_le_pos; [nra|]. apply Rlt_le, Rinv_0_lt_compat. nra. }
  destruct (Req_dec ((dx * dx + dy * dy + dz * dz) / (2 * smooth ^ 2)) 0) as [->|Hne].
  - rewrite Ropp_0. lra.
  - apply Rlt_le, exp_increasing. lra.
Qed.

Lemma mean_of_weighted_bounded h curv smooth pt nbrs M :
  smooth <> 0%R -> (0 <= M)%R -> nbrs <> [] ->
  (forall c, c ∈ curv -> (Rabs c <= M)%R) ->
  (Rabs (mean_of_weighted h curv smooth pt nbrs) <= M)%R.
Proof.
  intros Hs HM Hne Hc. unfold mean_of_weighted.
  assert (0 < INR (length nbrs))%R as Hn.
  { apply lt_0_INR. destruct nbrs; [done|simpl; lia]. }
  assert (Rabs (Rsum (weighted_values h curv smooth pt nbrs))
          <= INR (length nbrs) * M)%R as Hsum.
  { replace (length nbrs) with (length (weighted_values h curv smooth pt nbrs))
      by (unfold weighted_values; apply length_map).
    apply Rsum_abs_le. intros x Hx. unfold weighted_values in Hx.
    apply list_elem_of_In, in_map_iff in Hx as (j & <- & _).
    rewrite Rabs_mult.
    destruct (weight_bounds smooth pt (default origin (pts h !! j)) Hs) as [Hw0 Hw1].
    rewrite (Rabs_pos_eq (weight _ _ _)) by lra.
    assert (Rabs (default 0%R (curv !! j)) <= M)%R as Hcj.
    { destruct (curv !! j) as [c|] eqn:E; simpl.
      - apply Hc. by eapply list_elem_of_lookup_2.
      - by rewrite Rabs_R0. }
    pose proof (Rabs_pos (default 0%R (curv !! j))). nra. }
  unfold Rdiv. rewrite Rabs_mult, (Rabs_pos_eq (/ _)) by (apply Rlt_le, Rinv_0_lt_compat, Hn).
  apply (Rmult_le_reg_r (INR (length nbrs))); [done|].
  rewrite Rmult_assoc, Rinv_l by lra. lra.
Qed.

(** X12: smoothing never takes the curvature beyond the bound of the raw
    values: when every raw value of a hemisphere is at most [M] in
    absolute value, so is every value [get_curvature] returns for it. *)
Theorem get_curvature_bounded (mean_curvature : hemi -> list R) (hemis : list hemi)
    (smooth : R) (neighborhood : nat) (M : R) :
  smooth <> 0%R ->
  (forall h, h ∈ hemis -> valid_hemi h (mean_curvature h)) ->
  (forall h c, h ∈ hemis -> c ∈ mean_curvature h -> (Rabs c <= M)%R) ->
  exists res,
    get_curvature mean_curvature hemis smooth neighborhood = Py.ok res /\
    forall arr x, arr ∈ res -> x ∈ arr -> (Rabs x <= M)%R.
Proof.
  intros Hs Hvalid Hbound.
  destruct (get_curvature_mean mean_curvature hemis smooth neighborhood Hs Hvalid)
    as (res & Hres & HF).
  exists res. split; [exact Hres|]. intros arr x Harr Hx.
  apply list_elem_of_lookup in Harr as [k Hk].
  destruct (Forall2_lookup_r _ _ _ _ _ HF Hk) as (h & Hh & Hlen & Hval).
  apply list_elem_of_lookup_2 in Hh as Hin.
  apply list_elem_of_lookup in Hx as [i Hi].
  destruct (lookup_lt_is_Some_2 (pts h) i) as [pt Hpt].
  { rewrite <- Hlen. by eapply lookup_lt_Some. }
  rewrite (Hval i pt Hpt) in Hi. injection Hi as <-.
  destruct (Hvalid h Hin) as [_ Hclen].
  assert (0 <= M)%R as HM.
  { destruct (lookup_lt_is_Some_2 (mean_curvature h) i) as [c Hc].
    - rewrite Hclen. by eapply lookup_lt_Some.
    - pose proof (Hbound h c Hin (list_elem_of_lookup_2 _ _ _ Hc)).
      pose proof (Rabs_pos c). lra. }
  unfold smoothed_by.
  destruct (neighbors_of (build_faces (polys h)) neighborhood i) as [|j0 nb] eqn:E.
  - by rewrite Rabs_R0.
  - apply mean_of_weighted_bounded; [done|done|done|]. intros c Hc. by apply (Hbound h).
Qed.

Lemma get_curvature_bounded_witness :
  (1 <> 0)%R /\
  (forall h, h ∈ [corner_hemi] -> valid_hemi h ((fun _ => [1; 1; 1]%R) h)) /\
  (forall h c, h ∈ [corner_hemi] -> c ∈ (fun _ : hemi => [1; 1; 1]%R) h -> (Rabs c <= 1)%R) /\
  exists res,
    get_curvature (fun _ => [1; 1; 1]%R) [corner_hemi] 1 0 = Py.ok res /\
    forall arr x, arr ∈ res -> x ∈ arr -> (Rabs x <= 1)%R.
Proof.
  assert (forall h c, h ∈ [corner_hemi] -> c ∈ (fun _ : hemi => [1; 1; 1]%R) h ->
                      (Rabs c <= 1)%R) as Hb.
  { intros h c _ Hc. simpl in Hc.
    assert (c = 1%R) as -> by (set_unfold; tauto).
    rewrite Rabs_pos_eq; lra. }
  split; [lra|]. split; [apply corner_hemis_valid|]. split; [exact Hb|].
  apply (get_curvature_bounded (fun _ => [1; 1; 1]%R) [corner_hemi] 1 0 1);
    [lra|apply corner_hemis_valid|exact Hb].
Defined.

Lemma forM_raise_uniform {A B} (f : A -> Py.result B) (err : Py.exn) (l : list A) :
  (forall x, x ∈ l -> f x = Py.raise err \/ exists y, f x = Py.ok y) ->
  (exists x, x ∈ l /\ f x = Py.raise err) ->
  Py.forM f l = Py.raise err.
Proof.
  induction l as [|x l IH]; intros Hall (x0 & Hx0 & Hbad).
  - by apply elem_of_nil in Hx0.
  - cbn [Py.forM]. destruct (Hall x) as [Hx|[y Hy]]; [left|by rewrite Hx|].
    rewrite Hy. cbn [Py.bind Py.ok].
    rewrite IH; [done| |].
    + intros z Hz. apply Hall. by right.
    + apply elem_of_cons in Hx0 as [->|Hx0]; [|eauto].
      rewrite Hy in Hbad. discriminate.
Qed.

Lemma forM_getitem_cases {A} (l : list A) (idx : list nat) :
  Py.forM (Py.getitem l) idx = Py.raise Py.IndexError \/
  exists ys, Py.forM (Py.getitem l) idx = Py.ok ys.
Proof.
  induction idx as [|i idx IH]; [right; by eexists|].
  cbn [Py.forM]. unfold Py.getitem at 1 3. destruct (l !! i) as [x|]; [|by left].
  cbn [Py.bind Py.ok]. destruct IH as [->|[ys ->]]; [by left|right; by eexists].
Qed.

Lemma smooth_vertex_cases faces h curv smooth neighborhood i pt :
  smooth_vertex faces h curv smooth neighborhood i pt = Py.raise Py.IndexError \/
  exists y, smooth_vertex faces h curv smooth neighborhood i pt = Py.ok y.
Proof.
  unfold smooth_vertex. destruct (decide _); [|right; by eexists].
  destruct (forM_getitem_cases (pts h) (neighbors_of faces neighborhood i)) as [->|[qs ->]];
    [by left|]. cbn [Py.bind Py.ok].
  destruct (forM_getitem_cases curv (neighbors_of faces neighborhood i)) as [->|[cs ->]];
    [by left|]. right. by eexists.
Qed.

Lemma neighbors_of_from_zero (polys : list tri) (n i j : nat) :
  j ∈ neighbors_of (build_faces polys) 0 i -> j ∈ neighbors_of (build_faces polys) n i.
Proof.
  intros H0. induction n as [|n IH]; [done|]. by apply neighbors_of_mono_aux.
Qed.

(** X13: a triangle that names a vertex outside the vertex array next to
    a vertex inside it makes the smoother raise IndexError; no array is
    returned for the hemisphere. *)
Theorem get_curvature_bad_index (mean_curvature : hemi -> list R) (h : hemi)
    (hemis : list hemi) (smooth : R) (neighborhood : nat) (t : tri) (a b : nat) :
  smooth <> 0%R ->
  t ∈ polys h -> a ∈ corners t -> b ∈ corners t ->
  a < length (pts h) -> length (pts h) <= b ->
  get_curvature mean_curvature (h :: hemis) smooth neighborhood = Py.raise Py.IndexError.
Proof.
  intros Hs Ht Ha Hb Hlt Hge. unfold get_curvature. cbn [Py.forM].
  destruct (Req_dec_T smooth 0) as [?|_]; [done|].
  assert (smooth_hemi h (mean_curvature h) smooth neighborhood = Py.raise Py.IndexError)
    as ->; [|done].
  unfold smooth_hemi. apply forM_raise_uniform.
  - intros [i pt] _. apply smooth_vertex_cases.
  - destruct (lookup_lt_is_Some_2 (pts h) a Hlt) as [pt Hpt].
    exists (a, pt). split.
    { apply list_elem_of_lookup. exists a. by rewrite list_lookup_imap, Hpt. }
    cbn [fst snd]. unfold smooth_vertex.
    assert (b ∈ neighbors_of (build_faces (polys h)) neighborhood a) as Hnb.
    { apply neighbors_of_from_zero. unfold neighbors_of.
      apply elem_of_elements, elem_of_list_to_set.
      assert (has_edge (build_faces (polys h)) a b) as (s & Hsa & Hsb).
      { apply has_edge_build_faces. eauto. }
      cbn [getpts]. rewrite Hsa. by apply elem_of_elements. }
    destruct (decide _) as [_|Hn].
    2:{ destruct (neighbors_of _ _ _); [by apply elem_of_nil in Hnb|simpl in Hn; lia]. }
    rewrite (forM_raise_uniform (Py.getitem (pts h)) Py.IndexError); [done| |].
    + intros j _. unfold Py.getitem. destruct (pts h !! j); [right; by eexists|by left].
    + exists b. split; [done|]. unfold Py.getitem.
      by rewrite (lookup_ge_None_2 (pts h) b Hge).
Qed.

End CurvatureMore.

Lemma neighbors_of_self_witness :
  (exists t, t ∈ [(0, 1, 2)] /\ 0 ∈ Mesh.corners t) /\
  0 ∈ Curvature.neighbors_of (SurfaceGraph.build_faces [(0, 1, 2)]) 1 0 /\
  (forall t, t ∈ [(0, 1, 2)] -> 5 ∉ Mesh.corners t) /\
  Curvature.neighbors_of (SurfaceGraph.build_faces [(0, 1, 2)]) 1 5 = [].
Proof.
  assert (exists t, t ∈ [(0, 1, 2)] /\ 0 ∈ Mesh.corners t) as Hin.
  { exists (0, 1, 2). split; [left|]. simpl. left. }
  assert (forall t, t ∈ [(0, 1, 2)] -> 5 ∉ Mesh.corners t) as Hout.
  { intros t Ht. apply list_elem_of_singleton in Ht as ->. simpl. intros H. set_unfold. lia. }
  split; [exact Hin|].
  split; [exact (proj1 (neighbors_of_self [(0, 1, 2)] 1 0) Hin)|].
  split; [exact Hout|].
  exact (proj2 (neighbors_of_self [(0, 1, 2)] 1 5) Hout).
Defined.

Lemma get_curvature_bad_index_witness :
  (1 <> 0)%R /\
  (0, 1, 2) ∈ Curvature.polys Examples.dangling_hemi /\
  0 ∈ Mesh.corners (0, 1, 2) /\ 1 ∈ Mesh.corners (0, 1, 2) /\
  0 < length (Curvature.pts Examples.dangling_hemi) /\
  length (Curvature.pts Examples.dangling_hemi) <= 1 /\
  Curvature.get_curvature (fun _ => [1%R]) [Examples.dangling_hemi] 1 3
  = Py.raise Py.IndexError.
Proof.
  assert ((0, 1, 2) ∈ Curvature.polys Examples.dangling_hemi) as Ht by (simpl; set_solver).
  assert (0 ∈ Mesh.corners (0, 1, 2)) as Ha by (simpl; set_solver).
  assert (1 ∈ Mesh.corners (0, 1, 2)) as Hb by (simpl; set_solver).
  split; [lra|]. do 3 (split; [done|]). split; [simpl; lia|]. split; [simpl; lia|].
  apply (get_curvature_bad_index (fun _ => [1%R]) Examples.dangling_hemi [] 1 3
           (0, 1, 2) 0 1); [lra|exact Ht|exact Ha|exact Hb|simpl; lia|simpl; lia].
Defined.

Lemma lookup_map {A B} (f : A -> B) (l : list A) (i : nat) :
  map f l !! i = f <$> l !! i.
Proof. apply list_lookup_fmap. Qed.

Section RoiMasksMore.
Import Mesh RoiMasks RoiRows.

Lemma length_CxMask e Dst : length (CxMask e Dst) = nvox e.
Proof. unfold CxMask, voxDstF. by rewrite !length_map, length_seq. Qed.

Lemma length_Rmask e : length (Rmask e) = nvox e.
Proof. unfold Rmask. by rewrite length_map, length_Lmask. Qed.

Lemma length_foldM_insert (idx : list nat) : forall a a' : list bool,
  Py.foldM (fun a i => if decide (i < length a) then Py.ok (<[i := true]> a)
                       else Py.raise Py.IndexError) idx a = Py.ok a' ->
  length a' = length a.
Proof.
  induction idx as [|i idx IH]; intros a a' H; cbn [Py.foldM] in H.
  - by injection H as <-.
  - destruct (decide (i < length a)); [|discriminate]. cbn [Py.bind Py.ok] in H.
    rewrite (IH _ _ H). apply length_insert.
Qed.

Lemma roi_candidates_length e roi cand :
  roi_candidates e roi = Py.ok cand -> length cand = nvox e.
Proof.
  unfold roi_candidates. destruct (String.eqb _ _).
  - intros [= <-]. by rewrite length_replicate, length_Lmask.
  - destruct (get_roi e roi) as [err|s1]; [discriminate|]. cbn [Py.bind].
    destruct (set_true _ _) as [err|b1]; [discriminate|]. cbn [Py.bind].
    destruct (scatter _ _ _) as [err|b2]; [discriminate|]. cbn [Py.bind].
    intros [= <-]. unfold voxIdxF. by rewrite !length_map, length_seq.
Qed.

Lemma all3_lookup a b c v x :
  all3 a b c !! v = Some x ->
  exists xa xb xc, a !! v = Some xa /\ b !! v = Some xb /\ c !! v = Some xc /\
                   x = xa && xb && xc.
Proof.
  unfold all3. intros H. apply lookup_zip_with_Some in H as (xa & [xb xc] & -> & Ha & Hz).
  apply lookup_zip_with_Some in Hz as (xb' & xc' & [= <- <-] & Hb & Hc).
  exists xa, xb, xc. done.
Qed.

Lemma length_all3 a b c n :
  length a = n -> length b = n -> length c = n -> length (all3 a b c) = n.
Proof.
  intros Ha Hb Hc. unfold all3. rewrite length_zip_with, length_zip. lia.
Qed.

Lemma set_columns_within e Dst nroi ir cand tmp :
  length cand = nvox e ->
  rows_within e Dst nroi tmp ->
  rows_within e Dst nroi
    (set_columns ir (all3 cand (Lmask e) (CxMask e Dst))
                    (all3 cand (Rmask e) (CxMask e Dst)) tmp).
Proof.
  intros Hcand [Hlen Hrows]. unfold set_columns. split.
  - rewrite length_zip_with, length_zip, Hlen.
    rewrite !(length_all3 _ _ _ (nvox e)); auto using length_Lmask, length_Rmask, length_CxMask.
    lia.
  - intros v row' Hrow'.
    apply lookup_zip_with_Some in Hrow' as (row & [l r] & -> & Hrow & Hlr).
    apply lookup_zip_with_Some in Hlr as (l' & r' & [= <- <-] & Hl & Hr).
    destruct (Hrows v row Hrow) as [Hn Hin]. split; [by rewrite length_insert|].
    intros lr Hlr. apply list_elem_of_lookup in Hlr as [k Hk].
    destruct (decide (ir = k)) as [->|Hne].
    + destruct (decide (k < length row)) as [Hlt|Hge].
      * rewrite list_lookup_insert_eq in Hk by done. injection Hk as <-. cbn [fst snd].
        apply all3_lookup in Hl as (xa & xb & xc & _ & HL & HC & ->).
        apply all3_lookup in Hr as (ya & yb & yc & _ & HR & HC' & ->).
        split; intros Htrue.
        -- apply andb_true_iff in Htrue as [Htrue ->].
           apply andb_true_iff in Htrue as [_ ->]. done.
        -- apply andb_true_iff in Htrue as [Htrue ->].
           apply andb_true_iff in Htrue as [_ ->]. done.
      * rewrite list_insert_ge in Hk by lia. apply Hin. by eapply list_elem_of_lookup_2.
    + rewrite list_lookup_insert_ne in Hk by done.
      apply Hin. by eapply list_elem_of_lookup_2.
Qed.

Lemma candidate_masks_within e roiList Dst tmp :
  candidate_masks e roiList Dst = Py.ok tmp ->
  rows_within e Dst (length roiList) tmp.
Proof.
  unfold candidate_masks.
  generalize (imap (fun (ir : nat) (roi : string) => (ir, roi)) roiList).
  assert (rows_within e Dst (length roiList)
            (replicate (nvox e) (replicate (length roiList) (false, false)))) as Hinit.
  { split; [apply length_replicate|]. intros v row Hrow.
    apply lookup_replicate in Hrow as [-> _]. split; [apply length_replicate|].
    intros lr Hlr. apply elem_of_replicate in Hlr as [-> _]. done. }
  revert Hinit. generalize (replicate (nvox e) (replicate (length roiList) (false, false))).
  intros tmp0 Hinit l. revert tmp0 Hinit.
  induction l as [|[ir roi] l IH]; intros tmp0 Hinit H; cbn [Py.foldM] in H.
  - by injection H as <-.
  - cbn [fst snd] in H.
    destruct (roi_candidates e roi) as [err|cand] eqn:Hc; [discriminate|].
    cbn [Py.bind Py.ok] in H. apply (IH _ (set_columns_within e Dst _ ir cand tmp0
      (roi_candidates_length e roi cand Hc) Hinit) H).
Qed.

Lemma any_other_true h cIdx row :
  any_other h cIdx row = true <->
  exists ir lr, row !! ir = Some lr /\ ir <> cIdx /\ h lr = true.
Proof.
  unfold any_other. rewrite existsb_exists. split.
  - intros (x & Hx & ->). apply list_elem_of_In, list_elem_of_lookup in Hx as [ir Hir].
    rewrite list_lookup_imap in Hir.
    destruct (row !! ir) as [lr|] eqn:E; [|done]. simpl in Hir. injection Hir as Hir.
    apply andb_true_iff in Hir as [Hne Hh].
    exists ir, lr. split; [done|]. split; [|done].
    apply negb_true_iff, Nat.eqb_neq in Hne. done.
  - intros (ir & lr & Hir & Hne & Hh). exists true. split; [|done].
    apply list_elem_of_In, list_elem_of_lookup. exists ir.
    rewrite list_lookup_imap, Hir. simpl.
    apply Nat.eqb_neq in Hne. by rewrite Hne, Hh.
Qed.

Lemma cortex_row_within e Dst v cIdx row :
  within e Dst v row -> within e Dst v (cortex_row cIdx row).
Proof.
  intros Hin. unfold cortex_row. destruct (row !! cIdx) as [[l r]|] eqn:E; [|done].
  intros lr Hlr. apply list_elem_of_lookup in Hlr as [k Hk].
  destruct (decide (cIdx = k)) as [->|Hne].
  - rewrite list_lookup_insert_eq in Hk by (by eapply lookup_lt_Some).
    injection Hk as <-. cbn [fst snd].
    destruct (Hin (l, r) (list_elem_of_lookup_2 _ _ _ E)) as [HL HR]. cbn [fst snd] in *.
    split; intros H; apply andb_true_iff in H as [_ H]; auto.
  - rewrite list_lookup_insert_ne in Hk by done.
    apply Hin. by eapply list_elem_of_lookup_2.
Qed.

Lemma length_cortex_row cIdx row : length (cortex_row cIdx row) = length row.
Proof.
  unfold cortex_row. destruct (row !! cIdx) as [[l r]|]; [|done]. apply length_insert.
Qed.

Lemma cortex_precedence_within e Dst nroi roiList tmp :
  rows_within e Dst nroi tmp -> rows_within e Dst nroi (cortex_precedence roiList tmp).
Proof.
  intros [Hlen Hrows]. unfold cortex_precedence.
  destruct (index_of _ _) as [cIdx|]; [|done]. split; [by rewrite length_map|].
  intros v row' Hrow'. unfold tmp_mask in *. rewrite lookup_map in Hrow'.
  destruct (tmp !! v) as [row|] eqn:E; [|done]. injection Hrow' as <-.
  destruct (Hrows v row E) as [Hn Hin].
  split; [by rewrite length_cortex_row|by apply cortex_row_within].
Qed.

Lemma cut_overlap_within e Dst nroi tmp tmp' :
  rows_within e Dst nroi tmp -> cut_overlap nroi tmp = Py.ok tmp' ->
  rows_within e Dst nroi tmp'.
Proof.
  intros [Hlen Hrows]. unfold cut_overlap. destruct (decide (nroi = 2)); [|discriminate].
  intros [= <-]. split.
  - unfold toCut. rewrite length_zip_with, length_map. lia.
  - intros v row' Hrow'.
    apply lookup_zip_with_Some in Hrow' as (row & c & -> & Hrow & _).
    destruct (Hrows v row Hrow) as [Hn Hin]. unfold clear_row.
    split; [by rewrite length_imap|].
    intros lr Hlr. apply list_elem_of_lookup in Hlr as [k Hk].
    rewrite list_lookup_imap in Hk. destruct (row !! k) as [lr0|] eqn:E; [|done].
    simpl in Hk. injection Hk as <-.
    destruct ((k =? 0) && c.1); [done|]. destruct ((k =? 1) && c.2); [done|].
    apply Hin. by eapply list_elem_of_lookup_2.
Qed.

Lemma assign_fold_cases (l : list (nat * (bool * bool))) : forall m0 : Z,
  let m := fold_left (fun (m : Z) (x : nat * (bool * bool)) =>
                        let m1 := if x.2.1 then (- Z.of_nat x.1 - 1)%Z else m in
                        if x.2.2 then (Z.of_nat x.1 + 1)%Z else m1) l m0 in
  m = m0 \/
  (exists x, x ∈ l /\ x.2.1 = true /\ m = (- Z.of_nat x.1 - 1)%Z) \/
  (exists x, x ∈ l /\ x.2.2 = true /\ m = (Z.of_nat x.1 + 1)%Z).
Proof.
  induction l as [|[ir [lb rb]] l IH]; intros m0; cbn [fold_left fst snd]; [by left|].
  cbv zeta.
  match goal with |- context [fold_left ?f l ?start] =>
    destruct (IH start) as [H|[(x & Hx & Hb & H)|(x & Hx & Hb & H)]] end.
  - cbv zeta in H. rewrite H. destruct rb.
    + right. right. exists (ir, (lb, true)). split; [left|done].
    + destruct lb; [|by left].
      right. left. exists (ir, (true, false)). split; [left|done].
  - right. left. exists x. split; [by right|done].
  - right. right. exists x. split; [by right|done].
Qed.

Lemma assign_row_cases (row : list (bool * bool)) :
  assign_row row = 0%Z \/
  (exists ir lr, row !! ir = Some lr /\ lr.1 = true /\ assign_row row = (- Z.of_nat ir - 1)%Z) \/
  (exists ir lr, row !! ir = Some lr /\ lr.2 = true /\ assign_row row = (Z.of_nat ir + 1)%Z).
Proof.
  unfold assign_row.
  destruct (assign_fold_cases (imap (fun ir lr => (ir, lr)) row) 0%Z)
    as [H|[([ir lr] & Hx & Hb & H)|([ir lr] & Hx & Hb & H)]]; [by left| |].
  - right. left. apply list_elem_of_lookup in Hx as [k Hk].
    rewrite list_lookup_imap in Hk. destruct (row !! k) as [lr'|] eqn:E; [|done].
    simpl in Hk. injection Hk as <- <-. exists k, lr'. done.
  - right. right. apply list_elem_of_lookup in Hx as [k Hk].
    rewrite list_lookup_imap in Hk. destruct (row !! k) as [lr'|] eqn:E; [|done].
    simpl in Hk. injection Hk as <- <-. exists k, lr'. done.
Qed.

(** The rows from which the 'cut' branch assigns the mask. *)
Lemma get_roi_masks_cut_rows e roiList Dst res :
  get_roi_masks e roiList Dst "cut" = Py.ok res ->
  exists tmp,
    rows_within e Dst (length (resolve_roiList e roiList)) tmp /\
    mask res = map assign_row tmp /\
    roiIdx res = number_rois (resolve_roiList e roiList).
Proof.
  unfold get_roi_masks. intros H.
  destruct (Py.forM _ (vertIdx e)) as [err|idx]; [discriminate|]. cbn [Py.bind] in H.
  destruct (candidate_masks e (resolve_roiList e roiList) Dst) as [err|tmp0] eqn:Hc;
    [discriminate|]. cbn [Py.bind] in H.
  change (String.eqb "cut" "cut") with true in H. cbv iota in H.
  destruct (cut_overlap _ _) as [err|tmp] eqn:Hcut; [discriminate|]. cbn [Py.bind] in H.
  destruct (shape e) as [[s0 s1] s2]. injection H as <-. exists tmp.
  split; [|done].
  eapply cut_overlap_within; [|exact Hcut].
  apply cortex_precedence_within. by apply candidate_masks_within.
Qed.

Lemma CxMask_lookup e Dst v :
  v < nvox e -> CxMask e Dst !! v = Some (Rltb (vox e v).1 Dst).
Proof.
  intros Hv. unfold CxMask, voxDstF.
  rewrite !lookup_map, lookup_seq_lt by done. done.
Qed.

Lemma Lmask_lookup e v :
  v < nvox e -> Lmask e !! v = Some (bool_decide ((vox e v).2 < nL e)).
Proof.
  intros Hv. unfold Lmask, voxIdxF.
  rewrite !lookup_map, lookup_seq_lt by done. done.
Qed.

(** X14: under the policy 'cut', a voxel whose distance to the surface is
    not below [Dst] is assigned to no ROI: its mask value is 0. *)
Theorem far_voxels_unassigned (e : env) (roiList : roi_arg) (Dst : R) (res : roi_masks)
    (v : nat) :
  get_roi_masks e roiList Dst "cut" = Py.ok res ->
  v < nvox e ->
  (Dst <= (vox e v).1)%R ->
  mask res !! v = Some 0%Z.
Proof.
  intros Hres Hv Hfar.
  destruct (get_roi_masks_cut_rows e roiList Dst res Hres) as (tmp & [Hlen Hrows] & -> & _).
  unfold tmp_mask in *. rewrite lookup_map.
  destruct (lookup_lt_is_Some_2 tmp v) as [row Hrow]; [lia|]. rewrite Hrow. simpl.
  destruct (Hrows v row Hrow) as [_ Hin]. f_equal.
  assert (CxMask e Dst !! v = Some false) as Hcx.
  { rewrite CxMask_lookup by done. by rewrite Rltb_false. }
  destruct (assign_row_cases row) as [H|[(ir & lr & Hir & Hb & _)|(ir & lr & Hir & Hb & _)]];
    [done| |].
  - destruct (Hin lr (list_elem_of_lookup_2 _ _ _ Hir)) as [HL _].
    destruct (HL Hb) as [_ Hc]. congruence.
  - destruct (Hin lr (list_elem_of_lookup_2 _ _ _ Hir)) as [_ HR].
    destruct (HR Hb) as [_ Hc]. congruence.
Qed.

(** X15: under the policy 'cut', a negative mask value marks a voxel of
    the left mask (nearest-vertex index below [nL]) and a positive value a
    voxel of the right mask, and the value is a ROI number: its absolute
    value is at most the number of ROIs asked for. *)
Theorem mask_sign_is_hemisphere (e : env) (roiList : roi_arg) (Dst : R) (res : roi_masks)
    (v : nat) (m : Z) :
  get_roi_masks e roiList Dst "cut" = Py.ok res ->
  mask res !! v = Some m ->
  ((m < 0)%Z -> (vox e v).2 < nL e) /\
  ((0 < m)%Z -> nL e <= (vox e v).2) /\
  (- Z.of_nat (length (resolve_roiList e roiList)) <= m
   <= Z.of_nat (length (resolve_roiList e roiList)))%Z.
Proof.
  intros Hres Hm.
  destruct (get_roi_masks_cut_rows e roiList Dst res Hres) as (tmp & [Hlen Hrows] & Hmask & _).
  unfold tmp_mask in *. rewrite Hmask in Hm. rewrite lookup_map in Hm.
  destruct (tmp !! v) as [row|] eqn:Hrow; [|done]. simpl in Hm. injection Hm as <-.
  assert (v < nvox e) as Hv by (rewrite <- Hlen; by eapply lookup_lt_Some).
  destruct (Hrows v row Hrow) as [Hn Hin]. rewrite <- Hn.
  destruct (assign_row_cases row)
    as [H|[(ir & lr & Hir & Hb & H)|(ir & lr & Hir & Hb & H)]]; rewrite H.
  - lia.
  - apply lookup_lt_Some in Hir as Hlt.
    destruct (Hin lr (list_elem_of_lookup_2 _ _ _ Hir)) as [HL _].
    destruct (HL Hb) as [HLm _]. rewrite Lmask_lookup in HLm by done.
    injection HLm as HLm. apply bool_decide_eq_true_1 in HLm. lia.
  - apply lookup_lt_Some in Hir as Hlt.
    destruct (Hin lr (list_elem_of_lookup_2 _ _ _ Hir)) as [_ HR].
    destruct (HR Hb) as [HRm _]. unfold Rmask in HRm.
    rewrite lookup_map, Lmask_lookup in HRm by done. simpl in HRm.
    injection HRm as HRm. apply negb_true_iff, bool_decide_eq_false_1 in HRm. lia.
Qed.

Lemma number_rois_fold (l : list (nat * string)) : forall (d0 : gmap string Z) name ir,
  NoDup l.*2 ->
  (ir, name) ∈ l ->
  fold_left (fun (d : gmap string Z) (x : nat * string) => <[x.2 := (Z.of_nat x.1 + 1)%Z]> d)
            l d0 !! name = Some (Z.of_nat ir + 1)%Z.
Proof.
  induction l as [|[k r] l IH]; intros d0 name ir Hnd Hin.
  - by apply elem_of_nil in Hin.
  - cbn [fold_left fst snd]. rewrite fmap_cons in Hnd. apply NoDup_cons in Hnd as [Hr Hnd].
    apply elem_of_cons in Hin as [[= -> ->]|Hin]; [|by apply IH].
    clear IH. revert d0. induction l as [|[k' r'] l IH]; intros d0.
    + apply lookup_insert_eq.
    + cbn [fold_left fst snd]. rewrite fmap_cons in Hr, Hnd.
      apply not_elem_of_cons in Hr as [Hne Hr]. apply NoDup_cons in Hnd as [_ Hnd].
      simpl in Hne. rewrite insert_insert_ne by done. by apply IH.
Qed.

Lemma imap_pair_snd {A} (l : list A) : (imap (fun i x => (i, x)) l).*2 = l.
Proof.
  apply list_eq. intros i. rewrite list_lookup_fmap, list_lookup_imap.
  by destruct (l !! i).
Qed.

(** X16: under the policy 'cut', when the ROI names asked for are
    distinct, the returned dict numbers them from 1 in request order. *)
Theorem roiIdx_numbers_in_order (e : env) (roiList : roi_arg) (Dst : R) (res : roi_masks)
    (ir : nat) (name : string) :
  get_roi_masks e roiList Dst "cut" = Py.ok res ->
  NoDup (resolve_roiList e roiList) ->
  resolve_roiList e roiList !! ir = Some name ->
  roiIdx res !! name = Some (Z.of_nat ir + 1)%Z.
Proof.
  intros Hres Hnd Hname.
  destruct (get_roi_masks_cut_rows e roiList Dst res Hres) as (tmp & _ & _ & ->).
  unfold number_rois. apply number_rois_fold.
  - by rewrite imap_pair_snd.
  - apply list_elem_of_lookup. exists ir. by rewrite list_lookup_imap, Hname.
Qed.

Lemma cortex_row_other cIdx row ir :
  ir <> cIdx -> cortex_row cIdx row !! ir = row !! ir.
Proof.
  intros Hne. unfold cortex_row. destruct (row !! cIdx) as [[l r]|]; [|done].
  by apply list_lookup_insert_ne.
Qed.

Lemma cortex_row_cortex cIdx row c :
  cortex_row cIdx row !! cIdx = Some c ->
  exists l r, row !! cIdx = Some (l, r) /\
    c = (negb (any_other fst cIdx row) && l, negb (any_other snd cIdx row) && r).
Proof.
  unfold cortex_row. destruct (row !! cIdx) as [[l r]|] eqn:E; [|by rewrite E].
  rewrite list_lookup_insert_eq by (by eapply lookup_lt_Some).
  intros [= <-]. by exists l, r.
Qed.

(** X17: when 'cortex' is among the ROIs asked for, after the cortex step
    no voxel is a candidate for 'cortex' and, in the same hemisphere, for
    another ROI: the other ROI takes the voxel. *)
Theorem cortex_never_overlaps (e : env) (roiList : roi_arg) (Dst : R) (tmp : tmp_mask)
    (cIdx v ir : nat) (row : list (bool * bool)) (c lr : bool * bool) :
  candidates_after_precedence e roiList Dst = Py.ok tmp ->
  index_of "cortex" (map lower (resolve_roiList e roiList)) = Some cIdx ->
  tmp !! v = Some row ->
  row !! cIdx = Some c -> row !! ir = Some lr -> ir <> cIdx ->
  (lr.1 = true -> c.1 = false) /\ (lr.2 = true -> c.2 = false).
Proof.
  unfold candidates_after_precedence. intros Htmp Hidx Hrow Hc Hlr Hne.
  destruct (Py.forM _ (vertIdx e)) as [err|idx]; [discriminate|]. cbn [Py.bind] in Htmp.
  destruct (candidate_masks e (resolve_roiList e roiList) Dst) as [err|tmp0];
    [discriminate|]. cbn [Py.bind Py.ok] in Htmp. injection Htmp as <-.
  unfold cortex_precedence in Hrow. rewrite Hidx in Hrow.
  unfold tmp_mask in *. rewrite lookup_map in Hrow.
  destruct (tmp0 !! v) as [row0|]; [|done]. simpl in Hrow. injection Hrow as <-.
  rewrite cortex_row_other in Hlr by done.
  apply cortex_row_cortex in Hc as (l & r & _ & ->). cbn [fst snd].
  split; intros Hb.
  - assert (any_other fst cIdx row0 = true) as ->; [|done].
    apply any_other_true. by exists ir, lr.
  - assert (any_other snd cIdx row0 = true) as ->; [|done].
    apply any_other_true. by exists ir, lr.
Qed.

End RoiMasksMore.

Section RoiMasksWitnesses.
Import Mesh RoiMasks RoiRows RoiExamples.

Lemma overlap_env_CxMask_far : CxMask overlap_env 1 = [false].
Proof.
  unfold CxMask, voxDstF. cbn [nvox overlap_env shape vox seq map fst Nat.mul Nat.add].
  rewrite Rltb_false; [done|simpl; lra].
Qed.

Lemma overlap_env_cut :
  get_roi_masks overlap_env (Rois ["V1"; "V2"]%string) 2 "cut" = Py.ok (overlap_result (-2)).
Proof.
  unfold get_roi_masks, candidate_masks.
  rewrite overlap_env_CxMask. vm_compute. reflexivity.
Qed.

Lemma overlap_env_cut_far :
  get_roi_masks overlap_env (Rois ["V1"; "V2"]%string) 1 "cut" = Py.ok (overlap_result 0).
Proof.
  unfold get_roi_masks, candidate_masks.
  rewrite overlap_env_CxMask_far. vm_compute. reflexivity.
Qed.

Lemma overlap_env_cortex :
  candidates_after_precedence overlap_env (Rois ["cortex"; "V1"]%string) 2 =
  Py.ok [[(false, false); (true, false)]].
Proof.
  unfold candidates_after_precedence, candidate_masks.
  rewrite overlap_env_CxMask. vm_compute. reflexivity.
Qed.

End RoiMasksWitnesses.

Lemma far_voxels_unassigned_witness :
  RoiMasks.get_roi_masks RoiMasks.overlap_env (RoiMasks.Rois ["V1"; "V2"]%string) 1 "cut"
    = Py.ok (RoiExamples.overlap_result 0) /\
  0 < RoiMasks.nvox RoiMasks.overlap_env /\
  (1 <= (RoiMasks.vox RoiMasks.overlap_env 0).1)%R /\
  RoiMasks.mask (RoiExamples.overlap_result 0) !! 0 = Some 0%Z.
Proof.
  assert (0 < RoiMasks.nvox RoiMasks.overlap_env) as Hv by (vm_compute; lia).
  assert (1 <= (RoiMasks.vox RoiMasks.overlap_env 0).1)%R as Hd by (simpl; lra).
  split; [apply overlap_env_cut_far|]. split; [exact Hv|]. split; [exact Hd|].
  apply (far_voxels_unassigned RoiMasks.overlap_env (RoiMasks.Rois ["V1"; "V2"]%string) 1
           (RoiExamples.overlap_result 0) 0 overlap_env_cut_far Hv Hd).
Defined.

Lemma mask_sign_is_hemisphere_witness :
  RoiMasks.get_roi_masks RoiMasks.overlap_env (RoiMasks.Rois ["V1"; "V2"]%string) 2 "cut"
    = Py.ok (RoiExamples.overlap_result (-2)) /\
  RoiMasks.mask (RoiExamples.overlap_result (-2)) !! 0 = Some (-2)%Z /\
  (((-2 < 0)%Z -> (RoiMasks.vox RoiMasks.overlap_env 0).2 < RoiMasks.nL RoiMasks.overlap_env) /\
   ((0 < -2)%Z -> RoiMasks.nL RoiMasks.overlap_env <= (RoiMasks.vox RoiMasks.overlap_env 0).2) /\
   (- Z.of_nat (length (RoiMasks.resolve_roiList RoiMasks.overlap_env
                          (RoiMasks.Rois ["V1"; "V2"]%string))) <= -2
    <= Z.of_nat (length (RoiMasks.resolve_roiList RoiMasks.overlap_env
                           (RoiMasks.Rois ["V1"; "V2"]%string))))%Z).
Proof.
  split; [apply overlap_env_cut|]. split; [reflexivity|].
  apply (mask_sign_is_hemisphere RoiMasks.overlap_env (RoiMasks.Rois ["V1"; "V2"]%string) 2
           (RoiExamples.overlap_result (-2)) 0 (-2)%Z overlap_env_cut eq_refl).
Defined.

Lemma roiIdx_numbers_in_order_witness :
  RoiMasks.get_roi_masks RoiMasks.overlap_env (RoiMasks.Rois ["V1"; "V2"]%string) 2 "cut"
    = Py.ok (RoiExamples.overlap_result (-2)) /\
  NoDup (RoiMasks.resolve_roiList RoiMasks.overlap_env (RoiMasks.Rois ["V1"; "V2"]%string)) /\
  RoiMasks.resolve_roiList RoiMasks.overlap_env (RoiMasks.Rois ["V1"; "V2"]%string) !! 1
    = Some "V2"%string /\
  RoiMasks.roiIdx (RoiExamples.overlap_result (-2)) !! "V2"%string = Some (Z.of_nat 1 + 1)%Z.
Proof.
  assert (NoDup (RoiMasks.resolve_roiList RoiMasks.overlap_env
                   (RoiMasks.Rois ["V1"; "V2"]%string))) as Hnd.
  { simpl. apply NoDup_cons. split; [|apply NoDup_singleton].
    intros H%list_elem_of_singleton. discriminate. }
  split; [apply overlap_env_cut|]. split; [exact Hnd|]. split; [reflexivity|].
  apply (roiIdx_numbers_in_order RoiMasks.overlap_env (RoiMasks.Rois ["V1"; "V2"]%string) 2
           (RoiExamples.overlap_result (-2)) 1 "V2"%string overlap_env_cut Hnd eq_refl).
Defined.

Lemma cortex_never_overlaps_witness :
  RoiMasks.candidates_after_precedence RoiMasks.overlap_env
    (RoiMasks.Rois ["cortex"; "V1"]%string) 2 = Py.ok [[(false, false); (true, false)]] /\
  RoiMasks.index_of "cortex"
    (map RoiMasks.lower (RoiMasks.resolve_roiList RoiMasks.overlap_env
                           (RoiMasks.Rois ["cortex"; "V1"]%string))) = Some 0 /\
  ((true, false).1 = true -> (false, false).1 = false) /\
  ((true, false).2 = true -> (false, false).2 = false).
Proof.
  split; [apply overlap_env_cortex|]. split; [reflexivity|].
  apply (cortex_never_overlaps RoiMasks.overlap_env (RoiMasks.Rois ["cortex"; "V1"]%string) 2
           [[(false, false); (true, false)]] 0 0 1 [(false, false); (true, false)]
           (false, false) (true, false) overlap_env_cortex eq_refl eq_refl eq_refl eq_refl).
  lia.
Defined.

Lemma filter_none {A} (P : A -> Prop) `{forall x, Decision (P x)} (l : list A) :
  (forall x, x ∈ l -> ~ P x) -> filter P l = [].
Proof.
  intros Hno. destruct (filter P l) as [|x l'] eqn:E; [done|].
  assert (x ∈ filter P l) as Hx by (rewrite E; left).
  apply list_elem_of_filter in Hx as [HP Hx]. by destruct (Hno x Hx).
Qed.

Section DistortionMore.
Import Mesh Distortion DistortionExamples.

Lemma corner_ratios_untouched h k v :
  v ∉ ravel (flattri h) -> corner_ratios h k v = [].
Proof.
  intros Hv. unfold corner_ratios.
  assert (filter (fun t => corner k t = v) (flattri h) = []) as ->; [|done].
  apply filter_none. intros [[a b] c] Ht Hc. apply Hv. unfold ravel.
  apply list_elem_of_In, in_flat_map. exists (a, b, c).
  split; [by apply list_elem_of_In|]. simpl in *.
  destruct k as [|[|k]]; simpl in Hc; tauto.
Qed.

Lemma corner_count_untouched h v :
  v ∉ ravel (flattri h) -> corner_count h v = 0.
Proof.
  intros Hv. unfold corner_count.
  assert (filter (fun j => j = v) (ravel (flattri h)) = []) as ->; [|done].
  apply filter_none. intros j Hj ->. done.
Qed.

Lemma log_ratio_untouched : log_ratio (xdiv (Fin 0) (INR 0)) = Fin 0.
Proof.
  simpl. unfold fdiv. destruct (Req_dec_T 0 0) as [_|H]; [|lra].
  destruct (Rlt_dec 0 0) as [H|_]; [lra|].
  unfold log_ratio, nan_to_num, zero_to_one.
  destruct (Req_dec_T 0 0) as [_|H]; [|lra].
  unfold xlog. destruct (Rlt_dec 0 1) as [_|H]; [|lra]. by rewrite ln_1.
Qed.

(** X18: in areal mode a vertex that is in no triangle gets distortion 0
    (its 0/0 ratio is turned into 1 before the log). *)
Theorem areal_untouched_vertex_zero (lh rh : hemi_pair) :
  valid_pair lh -> valid_pair rh -> areal_returns zero_where_untouched lh rh.
Proof.
  intros Hl Hr.
  destruct (get_flatmap_distortion_areal_entries lh rh Hl Hr)
    as (al & ar & E & [_ Pl] & [_ Pr]).
  exists al, ar. split; [done|].
  split; intros v Hv Hno; [rewrite Pl by done|rewrite Pr by done];
    unfold written_sum; rewrite !corner_ratios_untouched, corner_count_untouched by done;
    cbn [last_add last]; by rewrite log_ratio_untouched.
Qed.

Lemma isometric_ratio h t :
  isometric h -> t ∈ flattri h -> tri_ratio h t = Fin 1.
Proof.
  intros Hiso Ht. destruct (Hiso t Ht) as [Heq Hne]. unfold tri_ratio.
  rewrite Heq, fdiv_fin by done. f_equal. by field.
Qed.

Lemma xsum_ones h (ts : list tri) (x : R) :
  isometric h -> (forall t, t ∈ ts -> t ∈ flattri h) ->
  fold_left xadd (map (tri_ratio h) ts) (Fin x) = Fin (x + INR (length ts)).
Proof.
  intros Hiso. revert x. induction ts as [|t ts IH]; intros x Hsub.
  - simpl. f_equal. lra.
  - cbn [map fold_left length]. rewrite (isometric_ratio h t Hiso) by (apply Hsub; left).
    cbn [xadd]. rewrite IH by (intros t' Ht'; apply Hsub; by right).
    f_equal. rewrite S_INR. lra.
Qed.

Lemma corner_count_columns (tris : list tri) (v : nat) :
  length (filter (fun j => j = v) (ravel tris)) =
  length (filter (fun t => corner 0 t = v) tris)
  + length (filter (fun t => corner 1 t = v) tris)
  + length (filter (fun t => corner 2 t = v) tris).
Proof.
  induction tris as [|[[a b] c] tris IH]; [done|].
  unfold ravel in *. cbn [flat_map corners app].
  rewrite !filter_cons. cbn [corner].
  destruct (decide (a = v)), (decide (b = v)), (decide (c = v));
    cbn [length]; rewrite IH; lia.
Qed.

Lemma filter_sub {A} (P : A -> Prop) `{forall x, Decision (P x)} (l : list A) x :
  x ∈ filter P l -> x ∈ l.
Proof. intros Hx. by apply list_elem_of_filter in Hx as [_ Hx]. Qed.

Lemma isometric_mean_ratio h v :
  isometric h -> v ∈ ravel (flattri h) -> log_ratio (mean_ratio h v) = Fin 0.
Proof.
  intros Hiso Hv. unfold mean_ratio, xsum, corner_ratios.
  rewrite <- !map_app. rewrite xsum_ones; [|done|].
  2:{ intros t Ht. apply elem_of_app in Ht as [Ht|Ht]; [by eapply filter_sub|].
      apply elem_of_app in Ht as [Ht|Ht]; by eapply filter_sub. }
  rewrite !length_app. unfold corner_count. rewrite corner_count_columns.
  set (k := _ + _ + _).
  replace (length (filter (fun t => corner 0 t = v) (flattri h))
           + (length (filter (fun t => corner 1 t = v) (flattri h))
              + length (filter (fun t => corner 2 t = v) (flattri h)))) with k
    by (unfold k; lia).
  assert (0 < k) as Hk.
  { unfold k. rewrite <- corner_count_columns.
    destruct (filter (fun j => j = v) (ravel (flattri h))) as [|j l] eqn:E; [|simpl; lia].
    assert (v ∈ filter (fun j => j = v) (ravel (flattri h))) as Hin
      by (by apply list_elem_of_filter).
    rewrite E in Hin. by apply elem_of_nil in Hin. }
  assert (0 < INR k)%R as HkR by (by apply lt_0_INR).
  cbn [xdiv]. rewrite fdiv_fin by lra.
  assert ((0 + INR k) / INR k = 1)%R as -> by (field; lra).
  rewrite log_ratio_pos by lra. by rewrite ln_1.
Qed.

(** X19: in areal mode, when every triangle has the same non-zero area on
    both surfaces, every vertex of a triangle that no column of the
    triangle array lists twice gets distortion 0. *)
Theorem areal_isometric_zero_where_once (lh rh : hemi_pair) :
  valid_pair lh -> valid_pair rh -> isometric lh -> isometric rh ->
  areal_returns zero_where_once lh rh.
Proof.
  intros Hl Hr Il Ir.
  destruct (areal_mean_ratio lh rh Hl Hr) as (al & ar & E & [_ Pl] & [_ Pr]).
  exists al, ar. split; [done|].
  split; intros v Hv Honce; [rewrite Pl by done|rewrite Pr by done];
    by rewrite isometric_mean_ratio.
Qed.

Lemma tri_area_cases (v : list vec3) (t : tri) :
  (let '(i, j, k) := t in
   let* a := Py.getitem v i in
   let* b := Py.getitem v j in
   let* c := Py.getitem v k in
   Py.ok (area a b c)) = Py.raise Py.IndexError \/
  exists y, (let '(i, j, k) := t in
             let* a := Py.getitem v i in
             let* b := Py.getitem v j in
             let* c := Py.getitem v k in
             Py.ok (area a b c)) = Py.ok y.
Proof.
  destruct t as [[i j] k]. unfold Py.getitem.
  destruct (v !! i); [|by left]. cbn [Py.bind Py.ok].
  destruct (v !! j); [|by left]. cbn [Py.bind Py.ok].
  destruct (v !! k); [|by left]. cbn [Py.bind Py.ok].
  right. by eexists.
Qed.

Lemma triareas_bad_index (tr : list tri) (v : list vec3) (a : nat) :
  a ∈ ravel tr -> length v <= a -> triareas tr v = Py.raise Py.IndexError.
Proof.
  intros Ha Hge. unfold triareas. apply forM_raise_uniform.
  - intros t _. apply tri_area_cases.
  - unfold ravel in Ha. apply list_elem_of_In, in_flat_map in Ha as ([[i j] k] & Ht & Hc).
    exists (i, j, k). split; [by apply list_elem_of_In|]. unfold Py.getitem.
    simpl in Hc. destruct Hc as [<-|[<-|[<-|[]]]].
    + by rewrite (lookup_ge_None_2 v i Hge).
    + destruct (v !! i); [|done]. cbn [Py.bind Py.ok].
      by rewrite (lookup_ge_None_2 v j Hge).
    + destruct (v !! i); [|done]. cbn [Py.bind Py.ok].
      destruct (v !! j); [|done]. cbn [Py.bind Py.ok].
      by rewrite (lookup_ge_None_2 v k Hge).
Qed.

(** X20: in areal mode a triangle index outside the fiducial vertex array
    of the left hemisphere makes the call raise IndexError. *)
Theorem areal_bad_index (lh rh : hemi_pair) (a : nat) :
  a ∈ ravel (flattri lh) -> length (fidvert lh) <= a ->
  get_flatmap_distortion lh rh "areal" = Py.raise Py.IndexError.
Proof.
  intros Ha Hge. unfold get_flatmap_distortion. cbn [String.eqb Ascii.eqb Bool.eqb Py.forM].
  unfold areal_distortion at 1. by rewrite (triareas_bad_index _ _ a Ha Hge).
Qed.

Lemma areal_up_to_counts h :
  length (flatvert h) = length (fidvert h) ->
  (forall a, a ∈ ravel (flattri h) -> a < length (fidvert h)) ->
  exists a3, length a3 = length (fidvert h) /\
    areal_distortion h =
    let* v := idiv_counts a3 (bincount (ravel (flattri h))) in
    Py.ok (map xlog (map zero_to_one (map nan_to_num v))).
Proof.
  intros Hlen Hidx. unfold areal_distortion.
  rewrite !triareas_ok by (try rewrite Hlen; done). cbn [Py.bind Py.ok]. cbv zeta.
  rewrite zip_with_map_map. fold (tri_ratio h).
  assert (forall k t, t ∈ flattri h -> corner k t < length (fidvert h)) as Hcorner.
  { intros k [[a b] c] Ht. apply Hidx. unfold ravel.
    apply list_elem_of_In, in_flat_map. exists (a, b, c).
    split; [by apply list_elem_of_In|].
    simpl. destruct k as [|[|k]]; simpl; tauto. }
  set (a0 := replicate (length (fidvert h)) (Fin 0)).
  destruct (iadd_at_map (corner 0) (tri_ratio h) (flattri h) a0) as (a1 & E1 & L1 & _).
  { intros t Ht. unfold a0. rewrite length_replicate. by apply Hcorner. }
  unfold column. rewrite E1. cbn [Py.bind Py.ok].
  destruct (iadd_at_map (corner 1) (tri_ratio h) (flattri h) a1) as (a2 & E2 & L2 & _).
  { intros t Ht. rewrite L1. unfold a0. rewrite length_replicate. by apply Hcorner. }
  rewrite E2. cbn [Py.bind Py.ok].
  destruct (iadd_at_map (corner 2) (tri_ratio h) (flattri h) a2) as (a3 & E3 & L3 & _).
  { intros t Ht. rewrite L2, L1. unfold a0. rewrite length_replicate. by apply Hcorner. }
  rewrite E3. cbn [Py.bind Py.ok].
  exists a3. split; [|done]. rewrite L3, L2, L1. unfold a0. by rewrite length_replicate.
Qed.

(** X21: in areal mode with every triangle index of the left hemisphere
    valid, the call raises ValueError at the division by the counts
    whenever [np.bincount(flattri.ravel())] has neither as many entries
    as the vertex array nor exactly one entry (one entry would be
    broadcast). This is the case when the vertices of highest index are
    in no triangle and some triangle names a vertex other than 0. *)
Theorem areal_short_bincount (lh rh : hemi_pair) :
  length (flatvert lh) = length (fidvert lh) ->
  (forall a, a ∈ ravel (flattri lh) -> a < length (fidvert lh)) ->
  length (bincount (ravel (flattri lh))) <> length (fidvert lh) ->
  length (bincount (ravel (flattri lh))) <> 1 ->
  get_flatmap_distortion lh rh "areal" = Py.raise Py.ValueError.
Proof.
  intros Hlen Hidx Hbin H1. unfold get_flatmap_distortion.
  cbn [String.eqb Ascii.eqb Bool.eqb Py.forM].
  destruct (areal_up_to_counts lh Hlen Hidx) as (a3 & La3 & ->).
  unfold idiv_counts. rewrite decide_False by (by rewrite La3).
  destruct (bincount (ravel (flattri lh))) as [|c [|c' l]]; simpl in *; done.
Qed.

End DistortionMore.

Lemma gap_pair_valid : Distortion.valid_pair DistortionExamples.gap_pair.
Proof.
  split; [done|]. split; [|by vm_compute].
  intros a Ha. simpl in Ha. set_unfold. simpl. lia.
Qed.

Lemma areal_untouched_vertex_zero_witness :
  Distortion.valid_pair DistortionExamples.gap_pair /\
  Distortion.valid_pair DistortionExamples.gap_pair /\
  Distortion.areal_returns DistortionExamples.zero_where_untouched
    DistortionExamples.gap_pair DistortionExamples.gap_pair.
Proof.
  split; [apply gap_pair_valid|]. split; [apply gap_pair_valid|].
  apply (areal_untouched_vertex_zero DistortionExamples.gap_pair DistortionExamples.gap_pair
           gap_pair_valid gap_pair_valid).
Defined.

Lemma areal_isometric_zero_where_once_witness :
  Distortion.valid_pair Distortion.square_pair /\
  Distortion.isometric Distortion.square_pair /\
  Distortion.areal_returns DistortionExamples.zero_where_once
    Distortion.square_pair Distortion.square_pair.
Proof.
  split; [apply square_pair_valid|]. split; [apply square_pair_isometric|].
  apply (areal_isometric_zero_where_once Distortion.square_pair Distortion.square_pair
           square_pair_valid square_pair_valid square_pair_isometric square_pair_isometric).
Defined.

Lemma areal_bad_index_witness :
  1 ∈ Mesh.ravel (Distortion.flattri DistortionExamples.dangling_pair) /\
  length (Distortion.fidvert DistortionExamples.dangling_pair) <= 1 /\
  Distortion.get_flatmap_distortion DistortionExamples.dangling_pair
    DistortionExamples.dangling_pair "areal" = Py.raise Py.IndexError.
Proof.
  assert (1 ∈ Mesh.ravel (Distortion.flattri DistortionExamples.dangling_pair)) as Ha
    by (simpl; set_solver).
  assert (length (Distortion.fidvert DistortionExamples.dangling_pair) <= 1) as Hge
    by (simpl; lia).
  split; [exact Ha|]. split; [exact Hge|].
  apply (areal_bad_index DistortionExamples.dangling_pair DistortionExamples.dangling_pair
           1 Ha Hge).
Defined.

Lemma areal_short_bincount_witness :
  length (Distortion.flatvert DistortionExamples.trailing_pair)
    = length (Distortion.fidvert DistortionExamples.trailing_pair) /\
  (forall a, a ∈ Mesh.ravel (Distortion.flattri DistortionExamples.trailing_pair) ->
             a < length (Distortion.fidvert DistortionExamples.trailing_pair)) /\
  length (Distortion.bincount (Mesh.ravel (Distortion.flattri DistortionExamples.trailing_pair)))
    <> length (Distortion.fidvert DistortionExamples.trailing_pair) /\
  length (Distortion.bincount (Mesh.ravel (Distortion.flattri DistortionExamples.trailing_pair)))
    <> 1 /\
  Distortion.get_flatmap_distortion DistortionExamples.trailing_pair
    DistortionExamples.trailing_pair "areal" = Py.raise Py.ValueError.
Proof.
  assert (forall a, a ∈ Mesh.ravel (Distortion.flattri DistortionExamples.trailing_pair) ->
                    a < length (Distortion.fidvert DistortionExamples.trailing_pair)) as Hidx.
  { intros a Ha. simpl in Ha. set_unfold. simpl. lia. }
  split; [reflexivity|]. split; [exact Hidx|].
  split; [vm_compute; lia|]. split; [vm_compute; lia|].
  apply (areal_short_bincount DistortionExamples.trailing_pair DistortionExamples.trailing_pair
           eq_refl Hidx); vm_compute; lia.
Defined.

Section MetricMore.
Import Mesh SurfaceGraph Distortion MetricSpec.

Lemma forM_getitem_ok {A} (d : A) (l : list A) (js : list nat) :
  (forall j, j ∈ js -> j < length l) ->
  Py.forM (Py.getitem l) js = Py.ok (map (fun j => default d (l !! j)) js).
Proof.
  intros Hjs. apply forM_ok_map. intros j Hj. unfold Py.getitem.
  destruct (lookup_lt_is_Some_2 l j (Hjs j Hj)) as [x ->]. done.
Qed.

Lemma neighbor_dists_ok (verts : list vec3) (tris : list tri) (ii : nat) :
  (forall a, a ∈ ravel tris -> a < length verts) -> ii ∈ ravel tris ->
  exists nbrs, make_surface_graph tris !! ii = Some nbrs /\ elements nbrs <> [] /\
    neighbor_dists verts (make_surface_graph tris) ii =
    Py.ok (map (fun j => dist (vertex verts j) (vertex verts ii)) (elements nbrs)).
Proof.
  intros Hr Hii.
  destruct (surface_graph_nodes_aux tris) as [Hnode Hnb].
  destruct (proj2 (Hnode ii) Hii) as [nbrs Hn]. exists nbrs. split; [done|].
  split.
  - destruct (node_has_neighbour tris ii Hii) as (w & s & Hs & Hw).
    rewrite Hn in Hs. injection Hs as <-. intros He.
    apply elem_of_elements in Hw. rewrite He in Hw. by apply elem_of_nil in Hw.
  - unfold neighbor_dists. rewrite Hn.
    rewrite (forM_getitem_ok origin).
    + cbn [Py.bind Py.ok]. unfold Py.getitem.
      destruct (lookup_lt_is_Some_2 verts ii (Hr ii Hii)) as [p Hp]. rewrite Hp.
      cbn [Py.bind Py.ok]. unfold Py.ok. f_equal. rewrite map_map.
      apply map_ext. intros j. unfold vertex. by rewrite Hp.
    + intros j Hj. apply Hr, Hnode, (Hnb ii). exists nbrs. split; [done|].
      by apply elem_of_elements.
Qed.

Lemma foldM_write {X} (l : list (nat * X)) (arr : list X) :
  (forall p, p ∈ l -> p.1 < length arr) ->
  Py.foldM (fun (a : list X) (vm : nat * X) =>
              if decide (vm.1 < length a) then Py.ok (<[vm.1 := vm.2]> a)
              else Py.raise Py.IndexError) l arr =
  Py.ok (fold_left (fun a (ix : nat * X) => <[ix.1 := ix.2]> a) l arr).
Proof.
  revert arr. induction l as [|p l IH]; intros arr Hl; simpl; [done|].
  destruct (decide (p.1 < length arr)) as [Hp|Hp].
  - cbn [Py.bind Py.ok]. apply IH. intros q Hq. rewrite length_insert. apply Hl. by right.
  - exfalso. apply Hp, Hl. by left.
Qed.

Lemma Rsum_zip_minus (f g : nat -> R) (js : list nat) :
  Rsum (zip_with Rminus (map f js) (map g js)) = Rsum (map (fun j => (f j - g j)%R) js).
Proof. by rewrite zip_with_map_map. Qed.

Lemma last_filter_zip_map {B} (g : nat -> B) (sel : list nat) (v : nat) :
  NoDup sel ->
  last (filter (fun p : nat * B => p.1 = v) (zip sel (map g sel))) =
  if decide (v ∈ sel) then Some (v, g v) else None.
Proof.
  induction sel as [|x sel IH]; intros Hnd; simpl.
  - destruct (decide (v ∈ [])) as [H|H]; [by apply elem_of_nil in H|done].
  - apply NoDup_cons in Hnd as [Hx Hnd]. rewrite filter_cons. simpl.
    destruct (decide (x = v)) as [->|Hxv].
    + rewrite decide_True by left. rewrite last_cons, IH by done.
      by rewrite decide_False.
    + rewrite IH by done. destruct (decide (v ∈ sel)) as [Hv|Hv].
      * rewrite decide_True; [done|by right].
      * rewrite decide_False; [done|]. intros [?|?]%elem_of_cons; congruence.
Qed.

Lemma metric_mean_signed_stretch_aux (h : hemi_pair) :
  in_range h ->
  exists out, metric_distortion h = Py.ok out /\
    length out = length (fidvert h) /\
    (forall v, v ∈ ravel (flattri h) ->
       exists nbrs, make_surface_graph (flattri h) !! v = Some nbrs /\
                    out !! v = Some (Fin (mean_stretch h nbrs v))) /\
    (forall v, v < length (fidvert h) -> v ∉ ravel (flattri h) ->
       out !! v = Some (Fin 0)).
Proof.
  intros Hr. unfold metric_distortion. cbv zeta.
  set (G := make_surface_graph (flattri h)).
  set (sel := elements (list_to_set (ravel (flattri h)) : gset nat)).
  assert (forall v, v ∈ sel <-> v ∈ ravel (flattri h)) as Hsel.
  { intros v. unfold sel. rewrite elem_of_elements. apply elem_of_list_to_set. }
  set (nb := fun ii => elements (default ∅ (G !! ii))).
  set (fd := fun (verts : list vec3) ii =>
               map (fun j => dist (vertex verts j) (vertex verts ii)) (nb ii)).
  assert (forall verts, (forall a, a ∈ ravel (flattri h) -> a < length verts) ->
            Py.forM (neighbor_dists verts G) sel = Py.ok (map (fd verts) sel)) as Hfor.
  { intros verts Hv. apply forM_ok_map. intros ii Hii. apply Hsel in Hii.
    destruct (neighbor_dists_ok verts (flattri h) ii Hv Hii) as (nbrs & Hn & _ & Hd).
    fold G in Hn, Hd. rewrite Hd. unfold fd, nb. by rewrite Hn. }
  rewrite (Hfor (fidvert h)) by (intros a Ha; apply (Hr a Ha)).
  cbn [Py.bind Py.ok].
  rewrite (Hfor (flatvert h)) by (intros a Ha; apply (Hr a Ha)).
  cbn [Py.bind Py.ok].
  rewrite zip_with_map_map.
  set (ms := fun ii => fdiv _ _).
  rewrite foldM_write.
  2:{ intros [p1 p2] Hp. apply elem_of_zip_l in Hp. simpl. rewrite length_replicate.
      apply Hr. by apply Hsel. }
  eexists. split; [reflexivity|]. split.
  { by rewrite fold_insert_length, length_replicate. }
  assert (NoDup sel) as Hnd by apply NoDup_elements.
  split.
  - intros v Hv.
    destruct (neighbor_dists_ok (fidvert h) (flattri h) v
                (fun a Ha => proj1 (Hr a Ha)) Hv) as (nbrs & Hn & Hne & _).
    exists nbrs. split; [done|].
    rewrite fold_insert_lookup by (rewrite length_replicate; apply (Hr v Hv)).
    rewrite last_filter_zip_map by done.
    rewrite decide_True by (by apply Hsel). simpl. f_equal.
    unfold ms, fd, nb. fold G in Hn. rewrite Hn. simpl.
    rewrite zip_with_map_map. rewrite length_map.
    unfold fdiv. destruct (Req_dec_T (INR (length (elements nbrs))) 0) as [H0|H0].
    + exfalso. destruct (elements nbrs) as [|j js]; [done|].
      simpl length in H0. rewrite S_INR in H0. pose proof (pos_INR (length js)). lra.
    + done.
  - intros v Hv Hnv.
    rewrite fold_insert_lookup by (by rewrite length_replicate).
    rewrite last_filter_zip_map by done.
    rewrite decide_False by (by rewrite Hsel).
    by apply lookup_replicate_2.
Qed.

(** X22: when every triangle corner is a row of both vertex arrays, the
    'metric' array of a hemisphere has one entry per fiducial vertex; a
    vertex of some triangle holds the mean over its graph neighbours of the
    flat edge length minus the fiducial edge length (signed, not squared),
    and a vertex of no triangle holds 0. *)
Theorem metric_mean_signed_stretch (h : hemi_pair) :
  in_range h ->
  exists out, metric_distortion h = Py.ok out /\
    length out = length (fidvert h) /\
    (forall v, v ∈ ravel (flattri h) ->
       exists nbrs, make_surface_graph (flattri h) !! v = Some nbrs /\
                    out !! v = Some (Fin (mean_stretch h nbrs v))) /\
    (forall v, v < length (fidvert h) -> v ∉ ravel (flattri h) ->
       out !! v = Some (Fin 0)).
Proof. apply metric_mean_signed_stretch_aux. Qed.

(** X23: when the flat surface has the fiducial coordinates, the 'metric'
    arrays of both hemispheres are zero everywhere. *)
Theorem metric_identical_surfaces_zero (lh rh : hemi_pair) :
  in_range lh -> in_range rh ->
  flatvert lh = fidvert lh -> flatvert rh = fidvert rh ->
  get_flatmap_distortion lh rh "metric" =
  Py.ok [replicate (length (fidvert lh)) (Fin 0);
         replicate (length (fidvert rh)) (Fin 0)].
Proof.
  assert (forall h, in_range h -> flatvert h = fidvert h ->
            metric_distortion h = Py.ok (replicate (length (fidvert h)) (Fin 0))) as Hone.
  { intros h Hr Heq.
    destruct (metric_mean_signed_stretch_aux h Hr) as (out & -> & Hlen & Hin & Hout).
    unfold Py.ok. f_equal. apply list_eq_same_length with (length out);
      [by rewrite length_replicate|done|].
    intros i x y Hi Hx Hy. apply lookup_replicate in Hy as [-> _].
    destruct (decide (i ∈ ravel (flattri h))) as [Hv|Hv].
    - destruct (Hin i Hv) as (nbrs & _ & Ho). rewrite Ho in Hx. injection Hx as <-.
      f_equal. unfold mean_stretch. rewrite Heq.
      assert (Rsum (map (fun j => (dist (vertex (fidvert h) j) (vertex (fidvert h) i)
                                   - dist (vertex (fidvert h) j) (vertex (fidvert h) i))%R)
                        (elements nbrs)) = 0%R) as ->.
      { induction (elements nbrs) as [|j js IH]; simpl; [done|]. rewrite IH. lra. }
      unfold Rdiv. apply Rmult_0_l.
    - rewrite Hout in Hx; [congruence| |done]. lia. }
  intros Hl Hr El Er. unfold get_flatmap_distortion. simpl String.eqb. cbv iota.
  simpl Py.forM. rewrite (Hone lh Hl El), (Hone rh Hr Er). done.
Qed.

Lemma neighbor_dists_cases (verts : list vec3) (tris : list tri) (ii : nat) :
  ii ∈ ravel tris ->
  neighbor_dists verts (make_surface_graph tris) ii = Py.raise Py.IndexError \/
  exists y, neighbor_dists verts (make_surface_graph tris) ii = Py.ok y.
Proof.
  intros Hii. destruct (surface_graph_nodes_aux tris) as [Hnode _].
  destruct (proj2 (Hnode ii) Hii) as [nbrs Hn].
  unfold neighbor_dists. rewrite Hn.
  destruct (forM_getitem_cases verts (elements nbrs)) as [->|[qs ->]]; [by left|].
  cbn [Py.bind Py.ok]. unfold Py.getitem.
  destruct (verts !! ii); [right; by eexists|by left].
Qed.

(** X24: in metric mode a triangle index outside the fiducial vertex array
    of the left hemisphere makes the call raise IndexError. *)
Theorem metric_bad_index (lh rh : hemi_pair) (a : nat) :
  a ∈ ravel (flattri lh) -> length (fidvert lh) <= a ->
  get_flatmap_distortion lh rh "metric" = Py.raise Py.IndexError.
Proof.
  intros Ha Hge. unfold get_flatmap_distortion. simpl String.eqb. cbv iota.
  cbn [Py.forM]. unfold metric_distortion at 1. cbv zeta.
  rewrite (forM_raise_uniform _ Py.IndexError); [done| |].
  - intros x Hx. apply neighbor_dists_cases.
    by apply elem_of_elements, elem_of_list_to_set in Hx.
  - exists a. split; [by apply elem_of_elements, elem_of_list_to_set|].
    destruct (surface_graph_nodes_aux (flattri lh)) as [Hnode _].
    destruct (proj2 (Hnode a) Ha) as [nbrs Hn].
    unfold neighbor_dists. rewrite Hn.
    destruct (forM_getitem_cases (fidvert lh) (elements nbrs)) as [->|[qs ->]]; [done|].
    cbn [Py.bind Py.ok]. unfold Py.getitem.
    by rewrite (lookup_ge_None_2 (fidvert lh) a Hge).
Qed.

End MetricMore.

Lemma doubled_pair_in_range : MetricSpec.in_range MetricSpec.doubled_pair.
Proof.
  intros a Ha. simpl in Ha. set_unfold. simpl. lia.
Qed.

Lemma same_pair_in_range : MetricSpec.in_range MetricSpec.same_pair.
Proof.
  intros a Ha. simpl in Ha. set_unfold. simpl. lia.
Qed.

Lemma metric_mean_signed_stretch_witness :
  MetricSpec.in_range MetricSpec.doubled_pair /\
  exists out, Distortion.metric_distortion MetricSpec.doubled_pair = Py.ok out /\
    length out = length (Distortion.fidvert MetricSpec.doubled_pair) /\
    (forall v, v ∈ Mesh.ravel (Distortion.flattri MetricSpec.doubled_pair) ->
       exists nbrs,
         SurfaceGraph.make_surface_graph (Distortion.flattri MetricSpec.doubled_pair) !! v
           = Some nbrs /\
         out !! v = Some (Distortion.Fin (MetricSpec.mean_stretch MetricSpec.doubled_pair nbrs v))) /\
    (forall v, v < length (Distortion.fidvert MetricSpec.doubled_pair) ->
       v ∉ Mesh.ravel (Distortion.flattri MetricSpec.doubled_pair) ->
       out !! v = Some (Distortion.Fin 0)).
Proof.
  split; [apply doubled_pair_in_range|].
  apply (metric_mean_signed_stretch MetricSpec.doubled_pair doubled_pair_in_range).
Defined.

Lemma metric_identical_surfaces_zero_witness :
  MetricSpec.in_range MetricSpec.same_pair /\
  Distortion.flatvert MetricSpec.same_pair = Distortion.fidvert MetricSpec.same_pair /\
  Distortion.get_flatmap_distortion MetricSpec.same_pair MetricSpec.same_pair "metric" =
  Py.ok [replicate (length (Distortion.fidvert MetricSpec.same_pair)) (Distortion.Fin 0);
         replicate (length (Distortion.fidvert MetricSpec.same_pair)) (Distortion.Fin 0)].
Proof.
  split; [apply same_pair_in_range|]. split; [reflexivity|].
  apply (metric_identical_surfaces_zero MetricSpec.same_pair MetricSpec.same_pair
           same_pair_in_range same_pair_in_range eq_refl eq_refl).
Defined.

Lemma metric_bad_index_witness :
  1 ∈ Mesh.ravel (Distortion.flattri DistortionExamples.dangling_pair) /\
  length (Distortion.fidvert DistortionExamples.dangling_pair) <= 1 /\
  Distortion.get_flatmap_distortion DistortionExamples.dangling_pair
    DistortionExamples.dangling_pair "metric" = Py.raise Py.IndexError.
Proof.
  assert (1 ∈ Mesh.ravel (Distortion.flattri DistortionExamples.dangling_pair)) as Ha
    by (simpl; set_solver).
  assert (length (Distortion.fidvert DistortionExamples.dangling_pair) <= 1) as Hge
    by (simpl; lia).
  split; [exact Ha|]. split; [exact Hge|].
  apply (metric_bad_index DistortionExamples.dangling_pair DistortionExamples.dangling_pair
           1 Ha Hge).
Defined.

Section BfsFacts.
Import Mesh SurfaceGraph Tissot Paths.
Variable G : gmap nat (gset nat).
Variable source : nat.

Lemma is_path_snoc v w p :
  is_path G source v p -> has_edge G v w -> is_path G source w (p ++ [w]).
Proof.
  intros (Hh & Hl & Hc) He. split; [|split].
  - destruct p; [discriminate|done].
  - by rewrite last_snoc.
  - intros i a b Ha Hb.
    destruct (decide (S i < length p)) as [Hi|Hi].
    + rewrite lookup_app_l in Ha by lia. rewrite lookup_app_l in Hb by lia. eauto.
    + assert (S i = length p) as Hi'.
      { apply lookup_lt_Some in Hb. rewrite length_app in Hb. simpl in Hb. lia. }
      rewrite lookup_app_l in Ha by lia.
      rewrite Hi', lookup_app_r in Hb by lia.
      rewrite Nat.sub_diag in Hb. injection Hb as <-.
      rewrite last_lookup in Hl. rewrite <- Hi' in Hl. simpl in Hl.
      rewrite Ha in Hl. by injection Hl as ->.
Qed.

Lemma visit_neighbor_inv k paths0 v pv st w :
  good G source k paths0 -> paths0 !! v = Some pv -> has_edge G v w ->
  round_inv G source k paths0 st -> round_inv G source k paths0 (visit_neighbor v st w).
Proof.
  intros H0 Hv He (Hg & Hkeep & Hnext). unfold visit_neighbor.
  destruct (st.1 !! w) as [q|] eqn:Hw; [done|]. simpl.
  rewrite (Hkeep v pv Hv). simpl. split; [|split]; simpl.
  - intros x p Hx. destruct (decide (x = w)) as [->|Hxw].
    + rewrite lookup_insert_eq in Hx. injection Hx as <-.
      destruct (H0 v pv Hv) as [Hp Hlen]. split; [by eapply is_path_snoc|].
      rewrite length_app. simpl. lia.
    + rewrite lookup_insert_ne in Hx by done. by apply Hg.
  - intros x q Hx. rewrite lookup_insert_ne; [by apply Hkeep|].
    intros <-. rewrite (Hkeep _ _ Hx) in Hw. discriminate.
  - intros x Hx. destruct (decide (x = w)) as [->|Hxw].
    + rewrite lookup_insert_eq. by eexists.
    + rewrite lookup_insert_ne by done. apply Hnext. set_solver.
Qed.

Lemma visit_node_inv k paths0 st st' v :
  good G source k paths0 -> is_Some (paths0 !! v) ->
  visit_node G st v = Py.ok st' ->
  round_inv G source k paths0 st -> round_inv G source k paths0 st'.
Proof.
  intros H0 [pv Hv]. unfold visit_node.
  destruct (G !! v) as [nbrs|] eqn:HG; [|discriminate].
  intros Hst. injection Hst as <-.
  assert (forall w, w ∈ elements nbrs -> has_edge G v w) as Hall.
  { intros w Hw. exists nbrs. split; [done|]. by apply elem_of_elements. }
  revert st Hall. induction (elements nbrs) as [|w ws IH]; intros st Hall Hinv; [done|].
  cbn [fold_left]. apply IH.
  - intros x Hx. apply Hall. by right.
  - eapply visit_neighbor_inv; [done|done| |done]. apply Hall. by left.
Qed.

Lemma round_inv_fold k paths0 vs : forall st st',
  good G source k paths0 -> (forall v, v ∈ vs -> is_Some (paths0 !! v)) ->
  Py.foldM (visit_node G) vs st = Py.ok st' ->
  round_inv G source k paths0 st -> round_inv G source k paths0 st'.
Proof.
  induction vs as [|v vs IH]; intros st st' H0 Hvs Hf Hinv.
  - by injection Hf as <-.
  - cbn [Py.foldM] in Hf.
    destruct (visit_node G st v) as [err|st1] eqn:Hv; [discriminate|].
    cbn [Py.bind] in Hf. eapply (IH st1); [done| |done|].
    + intros x Hx. apply Hvs. by right.
    + eapply visit_node_inv; [done| |done|done]. apply Hvs. by left.
Qed.

Lemma bfs_levels_good n : forall k nextlevel paths out,
  bfs_levels G n nextlevel paths = Py.ok out ->
  good G source k paths -> (forall v, v ∈ nextlevel -> is_Some (paths !! v)) ->
  good G source (k + n) out /\ (forall x q, paths !! x = Some q -> out !! x = Some q).
Proof.
  induction n as [|n IH]; intros k nextlevel paths out Hb Hg Hnext.
  - injection Hb as <-. rewrite Nat.add_0_r. done.
  - cbn [bfs_levels] in Hb.
    assert (forall j, k <= j -> good G source j paths) as Hmono.
    { intros j Hj w p Hw. destruct (Hg w p Hw). split; [done|lia]. }
    destruct (decide (nextlevel = ∅)) as [He|He].
    { injection Hb as <-. split; [apply Hmono; lia|done]. }
    destruct (Py.foldM (visit_node G) (elements nextlevel) (paths, ∅)) as [err|st] eqn:Hf;
      [discriminate|].
    cbn [Py.bind] in Hb.
    destruct (round_inv_fold k paths (elements nextlevel) (paths, ∅) st Hg) as (Hg' & Hkeep & Hn');
      [intros v Hv; apply Hnext; by apply elem_of_elements|done| |].
    { split; [apply Hmono; lia|]. split; [done|]. simpl. set_solver. }
    destruct (IH (S k) st.2 st.1 out Hb Hg' Hn') as [Hout Hkeep'].
    split; [by rewrite Nat.add_succ_r|]. intros x q Hx. by apply Hkeep', Hkeep.
Qed.

Lemma good_start : good G source 1 {[source := [source]]}.
Proof.
  intros w p Hw. apply lookup_singleton_Some in Hw as [<- <-].
  split; [|done]. split; [done|]. split; [done|].
  intros i a b Ha Hb. destruct i; discriminate.
Qed.

Lemma single_source_shortest_path_good cutoff paths :
  single_source_shortest_path G source cutoff = Py.ok paths ->
  good G source (S (Z.to_nat (Z.max 1 cutoff))) paths /\ paths !! source = Some [source] /\
  ((0 <= cutoff)%Z -> good G source (S (Z.to_nat cutoff)) paths).
Proof.
  unfold single_source_shortest_path. destruct (cutoff =? 0)%Z eqn:Hc.
  - intros Hp. injection Hp as <-. apply Z.eqb_eq in Hc. subst cutoff.
    assert (forall j, 1 <= j -> good G source j {[source := [source]]}) as Hmono.
    { intros j Hj w p Hw. destruct (good_start w p Hw). split; [done|lia]. }
    split; [apply Hmono; lia|]. split; [apply lookup_singleton_eq|].
    intros _. apply Hmono. lia.
  - intros Hp. apply Z.eqb_neq in Hc.
    destruct (bfs_levels_good _ 1 _ _ _ Hp good_start) as [Hg Hkeep].
    { intros v Hv. apply elem_of_singleton in Hv as ->. rewrite lookup_singleton_eq. by eexists. }
    split; [exact Hg|]. split; [apply Hkeep, lookup_singleton_eq|].
    intros Hpos. replace (Z.to_nat cutoff) with (Z.to_nat (Z.max 1 cutoff)) by lia. exact Hg.
Qed.

End BfsFacts.

Section BfsTheorems.
Import Mesh SurfaceGraph Tissot Paths.

(** X25: every path that networkx's breadth-first search returns for a
    vertex starts at the source, ends at that vertex and follows edges of
    the graph; with a cutoff c >= 0 it has at most c hops. *)
Theorem bfs_paths_follow_edges (G : gmap nat (gset nat)) (source w : nat) (cutoff : Z)
    (p : list nat) :
  path_to (single_source_shortest_path G source cutoff) w = Some p ->
  is_path G source w p /\ ((0 <= cutoff)%Z -> length p <= S (Z.to_nat cutoff)).
Proof.
  unfold path_to.
  destruct (single_source_shortest_path G source cutoff) as [err|paths] eqn:Hp; [done|].
  intros Hw. destruct (single_source_shortest_path_good G source cutoff paths Hp)
    as (Hg & _ & Hc).
  split; [apply (Hg w p Hw)|]. intros Hpos. apply (Hc Hpos w p Hw).
Qed.

End BfsTheorems.

Lemma bfs_paths_follow_edges_witness :
  Tissot.path_to (Tissot.single_source_shortest_path Paths.triangle_graph 0 1) 2 = Some [0; 2] /\
  Paths.is_path Paths.triangle_graph 0 2 [0; 2] /\
  ((0 <= 1)%Z -> length [0; 2] <= S (Z.to_nat 1)).
Proof.
  assert (Tissot.path_to (Tissot.single_source_shortest_path Paths.triangle_graph 0 1) 2
          = Some [0; 2]) as H by (vm_compute; reflexivity).
  split; [exact H|].
  apply (bfs_paths_follow_edges Paths.triangle_graph 0 2 1 [0; 2] H).
Defined.

Section TissotMore.
Import Mesh SurfaceGraph Tissot Paths.

Lemma search_from_non_node (G : gmap nat (gset nat)) (v : nat) (cutoff : Z) :
  G !! v = None -> cutoff <> 0%Z ->
  single_source_shortest_path G v cutoff = Py.raise Py.KeyError.
Proof.
  intros Hv Hc. unfold single_source_shortest_path.
  rewrite (proj2 (Z.eqb_neq cutoff 0) Hc).
  destruct (Z.to_nat (Z.max 1 cutoff)) as [|n] eqn:Hn; [lia|].
  cbn [bfs_levels]. rewrite decide_False by set_solver.
  rewrite elements_singleton. cbn [Py.foldM]. unfold visit_node. by rewrite Hv.
Qed.

(** X26: when the loop is still running and draws a vertex that is in no
    triangle, the search from it raises KeyError (unless its cutoff
    [spacing/2 + 20] is 0), and so does the call. *)
Theorem draw_outside_triangles_raises (s : surface) (radius spacing : Z) (maxfails : nat)
    (v : nat) (draws : list nat) (st : state) :
  v ∉ ravel (fidtri s) -> (spacing / 2 + 20)%Z <> 0%Z -> numfails st < maxfails ->
  run s radius spacing maxfails (v :: draws) st = Py.raise Py.KeyError.
Proof.
  intros Hv Hc Hn. cbn [run]. rewrite decide_True by done.
  unfold step. cbv zeta. rewrite search_from_non_node; [done| |done].
  destruct (surface_graph_nodes_aux (fidtri s)) as [Hnode _].
  destruct (make_surface_graph (fidtri s) !! v) as [nbrs|] eqn:HG; [|done].
  exfalso. apply Hv, Hnode. by eexists.
Qed.

Lemma run_bookkeeping s radius spacing maxfails draws : forall st st',
  run s radius spacing maxfails draws st = Py.ok st' ->
  cnum st = length (centers st) -> numfails st <= maxfails ->
  cnum st' = length (centers st') /\
  length (tissot_array st') = length (tissot_array st) /\
  numfails st' <= maxfails /\
  exists cs, centers st' = centers st ++ cs /\ sublist cs draws.
Proof.
  induction draws as [|c draws IH]; intros st st' Hrun Hc Hn.
  - injection Hrun as <-. split; [done|]. split; [done|]. split; [done|]. exists []. by rewrite app_nil_r.
  - cbn [run] in Hrun. destruct (decide (numfails st < maxfails)) as [Hlt|Hge].
    2:{ injection Hrun as <-. split; [done|]. split; [done|]. split; [done|]. exists [].
        rewrite app_nil_r. split; [done|]. apply sublist_nil_l. }
    destruct (step s radius spacing st c) as [err|st1] eqn:Hstep; [discriminate|].
    cbn [Py.bind] in Hrun.
    destruct (step_cases _ _ _ _ _ _ Hstep) as [Hlen Hcases].
    destruct Hcases as [(Hcs & Hcn & Hnf)|(Hcs & Hcn & Hnf & _)].
    + destruct (IH st1 st' Hrun) as (H1 & H2 & H3 & cs & H4 & H5);
        [by rewrite Hcn, Hcs|lia|].
      split; [done|]. split; [congruence|]. split; [done|]. exists cs. rewrite Hcs in H4.
      split; [done|]. by apply sublist_cons.
    + destruct (IH st1 st' Hrun) as (H1 & H2 & H3 & cs & H4 & H5);
        [rewrite Hcn, Hcs, length_app; simpl; lia|lia|].
      split; [done|]. split; [congruence|]. split; [done|]. exists (c :: cs). rewrite Hcs in H4.
      rewrite <- app_assoc in H4. split; [done|]. by apply sublist_skip.
Qed.

(** X27: when the sampling of a hemisphere returns, its counter [cnum] is
    the number of centers, the array still has one entry per vertex, the
    failure count is at most [maxfails], and the centers are a
    subsequence of the vertices drawn. *)
Theorem sample_hemi_bookkeeping (s : surface) (radius spacing : Z) (maxfails : nat)
    (draws : list nat) (st : state) :
  sample_hemi s radius spacing maxfails draws = Py.ok st ->
  cnum st = length (centers st) /\
  length (tissot_array st) = length (fidvert s) /\
  numfails st <= maxfails /\
  sublist (centers st) draws.
Proof.
  intros Hrun.
  destruct (run_bookkeeping _ _ _ _ _ _ _ Hrun) as (H1 & H2 & H3 & cs & H4 & H5);
    [done|simpl; lia|].
  cbn [init centers tissot_array] in H2, H4. rewrite length_replicate in H2.
  simpl in H4. subst cs. tauto.
Qed.

Lemma too_close_known_center paths verts spacing cs c :
  (0 < spacing)%Z -> c ∈ cs -> paths !! c = Some [c] ->
  too_close paths verts spacing cs <> Py.ok false.
Proof.
  intros Hs Hc Hp. induction cs as [|x cs IH]; [by apply elem_of_nil in Hc|].
  cbn [too_close]. destruct (decide (x = c)) as [->|Hx].
  - rewrite Hp. cbn [get_path_len_mm Py.bind Py.ok].
    destruct (Rlt_dec 0 (IZR spacing)) as [_|Hn]; [done|].
    exfalso. apply Hn. by apply (IZR_lt 0).
  - apply elem_of_cons in Hc as [->|Hc]; [done|].
    destruct (paths !! x) as [p|]; [|by apply IH].
    destruct (get_path_len_mm p verts) as [err|d]; [done|].
    cbn [Py.bind]. destruct (Rlt_dec d (IZR spacing)); [done|by apply IH].
Qed.

Lemma run_centers_distinct s radius spacing maxfails draws : forall st st',
  (0 < spacing)%Z ->
  run s radius spacing maxfails draws st = Py.ok st' ->
  NoDup (centers st) -> NoDup (centers st').
Proof.
  induction draws as [|c draws IH]; intros st st' Hs Hrun Hnd.
  - by injection Hrun as <-.
  - cbn [run] in Hrun. destruct (decide (numfails st < maxfails)) as [Hlt|Hge];
      [|by injection Hrun as <-].
    destruct (step s radius spacing st c) as [err|st1] eqn:Hstep; [discriminate|].
    cbn [Py.bind] in Hrun. apply (IH st1 st' Hs Hrun).
    destruct (step_cases _ _ _ _ _ _ Hstep) as [_ Hcases].
    destruct Hcases as [(Hcs & _)|(Hcs & _ & _ & paths & Hp & Hfar)]; rewrite Hcs; [done|].
    apply NoDup_app. split; [done|]. split; [|apply NoDup_singleton].
    intros x Hx Hxc. apply list_elem_of_singleton in Hxc as ->.
    apply (too_close_known_center paths (fidvert s) spacing (centers st) c Hs Hx); [|done].
    apply (single_source_shortest_path_good _ _ _ _ Hp).
Qed.

(** X28: with a positive spacing no vertex is accepted as a center twice:
    a vertex drawn again is at distance 0 from itself and is scrapped. *)
Theorem centers_are_distinct (s : surface) (radius spacing : Z) (maxfails : nat)
    (draws : list nat) (st : state) :
  (0 < spacing)%Z ->
  sample_hemi s radius spacing maxfails draws = Py.ok st ->
  NoDup (centers st).
Proof.
  intros Hs Hrun. eapply run_centers_distinct; [done|exact Hrun|]. apply NoDup_nil_2.
Qed.

End TissotMore.

Lemma draw_outside_triangles_raises_witness :
  (3 ∉ Mesh.ravel (Tissot.fidtri TissotExamples.lonely)) /\
  (50 / 2 + 20)%Z <> 0%Z /\
  Tissot.numfails (Tissot.init TissotExamples.lonely) < 100 /\
  Tissot.run TissotExamples.lonely 10 50 100 [3; 0] (Tissot.init TissotExamples.lonely)
    = Py.raise Py.KeyError.
Proof.
  assert (3 ∉ Mesh.ravel (Tissot.fidtri TissotExamples.lonely)) as Hv.
  { simpl. intros H. set_unfold. lia. }
  assert ((50 / 2 + 20)%Z <> 0%Z) as Hc by (vm_compute; discriminate).
  assert (Tissot.numfails (Tissot.init TissotExamples.lonely) < 100) as Hn by (simpl; lia).
  split; [exact Hv|]. split; [exact Hc|]. split; [exact Hn|].
  apply (draw_outside_triangles_raises TissotExamples.lonely 10 50 100 3 [0]
           (Tissot.init TissotExamples.lonely) Hv Hc Hn).
Defined.

Lemma sample_hemi_bookkeeping_witness :
  exists st, Tissot.sample_hemi Tissot.strip 10 50 100 [0; 92] = Py.ok st /\
    Tissot.cnum st = length (Tissot.centers st) /\
    length (Tissot.tissot_array st) = length (Tissot.fidvert Tissot.strip) /\
    Tissot.numfails st <= 100 /\
    sublist (Tissot.centers st) [0; 92].
Proof.
  destruct strip_run as (st & Hrun & _). exists st. split; [exact Hrun|].
  exact (sample_hemi_bookkeeping Tissot.strip 10 50 100 [0; 92] st Hrun).
Defined.

Lemma wide_search_self :
  Tissot.path_to
    (Tissot.single_source_shortest_path
       (SurfaceGraph.make_surface_graph (Tissot.fidtri Tissot.wide)) 0 (50 / 2 + 20)) 0
  = Some [0].
Proof. vm_compute. reflexivity. Qed.

(** Vertex 0 of the wide triangle is drawn twice: the second draw is
    scrapped. *)
Lemma wide_repeat_run :
  exists st, Tissot.sample_hemi Tissot.wide 10 50 100 [0; 0] = Py.ok st /\
             Tissot.centers st = [0].
Proof.
  apply centers_of_Some.
  unfold Tissot.sample_hemi. cbn [Tissot.run]. rewrite decide_True by (simpl; lia).
  destruct (centers_of_Some _ _ wide_first_step) as (st1 & Hstep1 & Hc1).
  rewrite Hstep1. cbn [Py.bind Py.ok].
  destruct (step_cases _ _ _ _ _ _ Hstep1) as [Hlen [(Hcs & _)|(_ & _ & Hnf & _)]].
  { rewrite Hc1 in Hcs. discriminate. }
  rewrite decide_True by lia.
  unfold Tissot.step. cbv zeta.
  destruct (path_to_Some _ _ _ wide_search_self) as (paths & -> & Hp0).
  cbn [Py.bind Py.ok]. rewrite Hc1. cbn [Tissot.too_close]. rewrite Hp0.
  cbn [Tissot.get_path_len_mm Py.bind Py.ok].
  destruct (Rlt_dec 0 (IZR 50)) as [_|Hge]; [|exfalso; apply Hge; lra].
  reflexivity.
Qed.

Lemma centers_are_distinct_witness :
  (0 < 50)%Z /\
  exists st, Tissot.sample_hemi Tissot.wide 10 50 100 [0; 0] = Py.ok st /\
    Tissot.centers st = [0] /\
    NoDup (Tissot.centers st).
Proof.
  assert (0 < 50)%Z as Hs by lia. split; [exact Hs|].
  destruct wide_repeat_run as (st & Hrun & Hcs). exists st.
  split; [exact Hrun|]. split; [exact Hcs|].
  exact (centers_are_distinct Tissot.wide 10 50 100 [0; 0] st Hs Hrun).
Defined.

Section MemoFacts.
Import Mesh SurfaceGraph Tissot Memo.

Lemma hop_len_cases verts ab :
  hop_len verts ab = Py.raise Py.IndexError \/ exists h, hop_len verts ab = Py.ok h.
Proof.
  unfold hop_len, Py.getitem. destruct (verts !! ab.1); [|by left].
  cbn [Py.bind Py.ok]. destruct (verts !! ab.2); [right; by eexists|by left].
Qed.

Lemma forM_hop_cases verts l :
  Py.forM (hop_len verts) l = Py.raise Py.IndexError \/
  exists hs, Py.forM (hop_len verts) l = Py.ok hs.
Proof.
  induction l as [|ab l IH]; [right; by eexists|].
  cbn [Py.forM]. destruct (hop_len_cases verts ab) as [->|[h ->]]; [by left|].
  cbn [Py.bind Py.ok]. destruct IH as [->|[hs ->]]; [by left|right; by eexists].
Qed.

Lemma forM_snoc {A B} (f : A -> Py.result B) (l : list A) (x : A) :
  Py.forM f (l ++ [x]) =
  let* ys := Py.forM f l in let* y := f x in Py.ok (ys ++ [y]).
Proof.
  induction l as [|a l IH]; simpl.
  - destruct (f x); done.
  - destruct (f a) as [e|y]; [done|]. simpl. rewrite IH.
    destruct (Py.forM f l) as [e|ys]; [done|]. simpl. destruct (f x); done.
Qed.

Lemma hops_snoc (q : list nat) (a b : nat) :
  last q = Some a ->
  zip (removelast (q ++ [b])) (tail (q ++ [b])) = zip (removelast q) (tail q) ++ [(a, b)].
Proof.
  intros Hl. rewrite removelast_last.
  induction q as [|x q IH]; [discriminate|].
  destruct q as [|y q].
  - simpl in Hl. injection Hl as ->. done.
  - rewrite last_cons_cons in Hl. specialize (IH Hl).
    change (zip (x :: y :: q) (y :: (q ++ [b])) =
            (x, y) :: zip (removelast (y :: q)) (tail (y :: q)) ++ [(a, b)]).
    cbn [zip zip_with]. f_equal. cbn [tail app] in IH.
    destruct q as [|z q]; [simpl in Hl; injection Hl as ->; done|].
    cbn [zip zip_with] in IH |- *. exact IH.
Qed.

Lemma get_path_len_mm_nonempty x q verts :
  get_path_len_mm (x :: q) verts =
  let* hops := Py.forM (hop_len verts) (zip (removelast (x :: q)) (tail (x :: q))) in
  Py.ok (Rsum hops).
Proof. destruct q; reflexivity. Qed.

Lemma Rsum_snoc hs h : Rsum (hs ++ [h]) = (Rsum hs + h)%R.
Proof. induction hs as [|x hs IH]; simpl; [lra|]. rewrite IH. lra. Qed.

Lemma get_path_len_mm_snoc q a b verts :
  last q = Some a ->
  get_path_len_mm (q ++ [b]) verts =
  match get_path_len_mm q verts, hop_len verts (a, b) with
  | inr d, inr h => Py.ok (d + h)%R
  | inl e, _ => Py.raise e
  | _, inl e => Py.raise e
  end /\
  (forall e, get_path_len_mm q verts = Py.raise e -> e = Py.IndexError).
Proof.
  intros Hl. destruct q as [|x q]; [discriminate|].
  change ((x :: q) ++ [b]) with (x :: (q ++ [b])) at 1.
  rewrite !get_path_len_mm_nonempty.
  change (x :: (q ++ [b])) with ((x :: q) ++ [b]).
  rewrite (hops_snoc _ a b Hl), forM_snoc.
  destruct (forM_hop_cases verts (zip (removelast (x :: q)) (tail (x :: q)))) as [->|[hs ->]].
  - split; [done|]. intros e He. by injection He.
  - cbn [Py.bind Py.ok]. split; [|discriminate].
    destruct (hop_len verts (a, b)) as [e|h]; [done|].
    cbn [Py.bind Py.ok]. unfold Py.ok. f_equal. apply Rsum_snoc.
Qed.

Lemma memo_len_rev_cons b a r verts memo :
  memo_len_rev (b :: a :: r) verts memo =
  match memo !! rev (b :: a :: r) with
  | Some d => Py.ok (d, memo)
  | None =>
      let* lasthoplen := hop_len verts (a, b) in
      let* r0 := memo_len_rev (a :: r) verts memo in
      Py.ok ((r0.1 + lasthoplen)%R, <[rev (b :: a :: r) := (r0.1 + lasthoplen)%R]> r0.2)
  end.
Proof. reflexivity. Qed.

Lemma memo_len_rev_agrees verts rp : forall memo,
  rp <> [] -> consistent verts memo ->
  agrees verts (rev rp) (memo_len_rev rp verts memo).
Proof.
  induction rp as [|b rp IH]; intros memo Hne Hcon; [done|].
  destruct rp as [|a r].
  - simpl. done.
  - rewrite memo_len_rev_cons.
    destruct (memo !! rev (b :: a :: r)) as [d|] eqn:Hm.
    { split; [by apply Hcon|done]. }
    assert (last (rev (a :: r)) = Some a) as Hl.
    { simpl. by rewrite last_snoc. }
    destruct (get_path_len_mm_snoc (rev (a :: r)) a b verts Hl) as [Hsnoc Herr].
    change (rev (b :: a :: r)) with (rev (a :: r) ++ [b]) in *.
    specialize (IH memo ltac:(done) Hcon). unfold agrees in IH.
    destruct (hop_len_cases verts (a, b)) as [Hh|[h Hh]]; rewrite Hh in *.
    + cbn [Py.bind]. unfold agrees. rewrite Hsnoc.
      destruct (get_path_len_mm (rev (a :: r)) verts) as [e|d] eqn:Hq; [|done].
      by rewrite (Herr e eq_refl).
    + cbn [Py.bind Py.ok].
      destruct (memo_len_rev (a :: r) verts memo) as [e|[d memo']].
      * cbn [Py.bind]. unfold agrees. rewrite Hsnoc, IH. reflexivity.
      * destruct IH as [Hd Hcon']. cbn [Py.bind Py.ok fst snd]. unfold agrees.
        cbn [fst snd]. rewrite Hsnoc, Hd. split; [done|].
        intros q dq Hq. cbn [fst snd] in Hq.
        destruct (decide (q = rev (a :: r) ++ [b])) as [->|Hqne].
        -- rewrite lookup_insert_eq in Hq. injection Hq as <-. by rewrite Hsnoc, Hd.
        -- rewrite lookup_insert_ne in Hq by done. by apply Hcon'.
Qed.

(** X29: on a path that is not empty and a memo whose entries are path
    lengths, the memoised length is the length [get_path_len_mm] gives,
    the memo it leaves still holds only path lengths, and when one of the
    two raises the other raises the same exception. *)
Theorem memo_agrees_with_plain (p : list nat) (verts : list vec3) (memo : gmap (list nat) R) :
  p <> [] -> consistent verts memo ->
  agrees verts p (memo_get_path_len_mm p verts memo).
Proof.
  intros Hp Hcon. unfold memo_get_path_len_mm.
  rewrite <- (rev_involutive p) at 1. apply memo_len_rev_agrees; [|done].
  intros Hr. apply Hp. rewrite <- (rev_involutive p), Hr. done.
Qed.

End MemoFacts.

Lemma memo_agrees_with_plain_witness :
  [0; 1; 2] <> [] /\ Memo.consistent (Tissot.fidvert TissotExamples.lonely) ∅ /\
  Memo.agrees (Tissot.fidvert TissotExamples.lonely) [0; 1; 2]
    (Tissot.memo_get_path_len_mm [0; 1; 2] (Tissot.fidvert TissotExamples.lonely) ∅).
Proof.
  assert ([0; 1; 2] <> []) as Hne by discriminate.
  assert (Memo.consistent (Tissot.fidvert TissotExamples.lonely) ∅) as Hcon.
  { intros q d Hq. rewrite lookup_empty in Hq. discriminate. }
  split; [exact Hne|]. split; [exact Hcon|].
  apply (memo_agrees_with_plain [0; 1; 2] (Tissot.fidvert TissotExamples.lonely) ∅ Hne Hcon).
Defined.

Section DilateFacts.
Import Mesh SurfaceGraph Dilate.

Lemma dilate_round_fold (graph : gmap nat (gset nat)) (vs : list nat) : forall acc,
  (forall v, v ∈ vs -> is_Some (graph !! v)) ->
  exists new,
    Py.foldM (fun (newset : gset nat) (v : nat) =>
                match graph !! v with
                | Some nbrs => Py.ok (newset ∪ nbrs)
                | None => Py.raise Py.KeyError
                end) vs acc = Py.ok new /\
    forall w, w ∈ new <-> w ∈ acc \/ exists v, v ∈ vs /\ has_edge graph v w.
Proof.
  induction vs as [|v vs IH]; intros acc Hvs.
  - exists acc. split; [done|]. intros w. split; [by left|].
    intros [?|(v & Hv & _)]; [done|]. by apply elem_of_nil in Hv.
  - cbn [Py.foldM]. destruct (Hvs v) as [nbrs Hn]; [left|]. rewrite Hn.
    cbn [Py.bind Py.ok].
    destruct (IH (acc ∪ nbrs)) as (new & -> & Hnew); [intros x Hx; apply Hvs; by right|].
    exists new. split; [done|]. intros w. rewrite Hnew, elem_of_union. split.
    + intros [[?|Hw]|(x & Hx & He)]; [by left| |].
      * right. exists v. split; [left|]. by exists nbrs.
      * right. exists x. split; [by right|done].
    + intros [?|(x & Hx & He)]; [by left; left|].
      apply elem_of_cons in Hx as [->|Hx].
      * left. right. destruct He as (s & Hs & Hw). rewrite Hn in Hs. by injection Hs as <-.
      * right. by exists x.
Qed.

Lemma dilate_round_spec (graph : gmap nat (gset nat)) (outset : gset nat) :
  (forall v, v ∈ outset -> is_Some (graph !! v)) ->
  exists new, dilate_round graph outset = Py.ok new /\
    forall w, w ∈ new <-> w ∈ outset \/ exists v, v ∈ outset /\ has_edge graph v w.
Proof.
  intros Hout. unfold dilate_round.
  destruct (dilate_round_fold graph (elements outset) outset) as (new & Hnew & Hw).
  { intros v Hv. apply Hout. by apply elem_of_elements. }
  exists new. split; [done|]. intros w. rewrite Hw.
  split; (intros [?|(v & Hv & He)]; [by left|right; exists v]);
    (split; [|done]); by apply elem_of_elements.
Qed.

Lemma dilate_loop_spec (graph : gmap nat (gset nat)) (iters : nat) : forall outset,
  (forall a b, has_edge graph a b -> is_Some (graph !! b)) ->
  (forall v, v ∈ outset -> is_Some (graph !! v)) ->
  exists out, dilate_loop graph iters outset = Py.ok out /\
    forall w, w ∈ out <-> exists v, v ∈ outset /\ within_hops graph iters v w.
Proof.
  induction iters as [|n IH]; intros outset Hclosed Hout.
  - exists outset. split; [done|]. intros w. simpl. split.
    + intros Hw. by exists w.
    + by intros (v & Hv & <-).
  - cbn [dilate_loop]. destruct (dilate_round_spec graph outset Hout) as (new & -> & Hnew).
    cbn [Py.bind Py.ok].
    destruct (IH new Hclosed) as (out & -> & Hw).
    { intros v Hv. apply Hnew in Hv as [Hv|(x & Hx & He)]; [by apply Hout|by eapply Hclosed]. }
    exists out. split; [done|]. intros w. rewrite Hw. cbn [within_hops]. split.
    + intros (u & Hu & Hreach). apply Hnew in Hu as [Hu|(v & Hv & He)].
      * exists u. split; [done|]. exists u. split; [by left|done].
      * exists v. split; [done|]. exists u. split; [by right|done].
    + intros (v & Hv & u & Hu & Hreach). exists u. split; [|done].
      apply Hnew. destruct Hu as [->|He]; [by left|right; by exists v].
Qed.

(** X30: on the graph of a triangle list, dilating a set of triangle
    vertices never raises, and the set it returns holds exactly the
    vertices that at most [iters] edges separate from a vertex of the
    set. *)
Theorem dilate_vertset_within_hops (tris : list tri) (vset : gset nat) (iters : nat) :
  (forall v, v ∈ vset -> v ∈ ravel tris) ->
  exists out, dilate_vertset vset (make_surface_graph tris) iters = Py.ok out /\
    forall w, w ∈ out <->
      exists v, v ∈ vset /\ within_hops (make_surface_graph tris) iters v w.
Proof.
  intros Hv. destruct (surface_graph_nodes_aux tris) as [Hnode Hclosed].
  apply dilate_loop_spec; [exact Hclosed|]. intros v Hin. by apply Hnode, Hv.
Qed.

End DilateFacts.

Lemma dilate_vertset_within_hops_witness :
  (forall v, v ∈ ({[0]} : gset nat) -> v ∈ Mesh.ravel [(0, 1, 2); (1, 2, 3)]) /\
  exists out,
    Dilate.dilate_vertset {[0]} (SurfaceGraph.make_surface_graph [(0, 1, 2); (1, 2, 3)]) 1
      = Py.ok out /\
    forall w, w ∈ out <->
      exists v, v ∈ ({[0]} : gset nat) /\
        Dilate.within_hops (SurfaceGraph.make_surface_graph [(0, 1, 2); (1, 2, 3)]) 1 v w.
Proof.
  assert (forall v, v ∈ ({[0]} : gset nat) -> v ∈ Mesh.ravel [(0, 1, 2); (1, 2, 3)]) as H.
  { intros v Hv. apply elem_of_singleton in Hv as ->. simpl. left. }
  split; [exact H|].
  apply (dilate_vertset_within_hops [(0, 1, 2); (1, 2, 3)] {[0]} 1 H).
Defined.
